(** * libssha: a shallow embedding of the agent core and its checked properties

    The development follows the layout of the C++ sources:

    - [Cxx]: exceptions and the outcome of a call ([std::exception]
      subclasses, values, undefined behaviour);
    - [Serializer], [Deserializer]: src/utils/serializer.cpp and
      src/utils/deserializer.cpp;
    - [SecureAllocator]: include/libssha/utils/secure_vector.h;
    - [RestrictDestination]: src/extensions/openssh-restrict-destination.cpp;
    - [KeyBase]: include/libssha/key/key.h and src/key/key.cpp;
    - [ECDSAKey]: src/providers/botan/edcsa-key.cpp (public blob handling);
    - [KeyManager]: src/key/key-manager.cpp;
    - [Session]: src/agent/session.cpp, with the messages it parses.

    Part I holds the definitions, Part II the statements and proofs. *)

From Stdlib Require Import ZArith Lia.
From Stdlib Require Import Strings.Byte.
From stdpp Require Import base option list strings gmap.

Open Scope Z_scope.

(** [std::vector<uint8_t>] and [secure_vector<uint8_t>]: byte sequences. *)
Abbreviation bytes := (list byte).

(* ===================================================================== *)
(** * Part I: definitions                                                 *)
(* ===================================================================== *)

(** ** Exceptions and outcomes *)

Module Cxx.

(** The exception classes the library throws, with the [what()] text.
    [runtime_error_fmt] is a [std::runtime_error] whose text is built by
    [std::format] around one number. *)
Inductive exn : Type :=
| out_of_range (what : string)
| length_error (what : string)
| runtime_error (what : string)
| runtime_error_fmt (what : string) (arg : Z)
| logic_error (what : string)
| system_error (what : string)
| bad_alloc.

(** How a call can end without returning or throwing: undefined behaviour
    in the sense of the C++ standard, or [abort()]. The loops over a
    buffer are modelled with a bound on their iterations; [out_of_fuel]
    marks a run that reached it. *)
Inductive halt : Type :=
| undefined_behaviour
| aborted
| out_of_fuel (* the bound the model puts on a loop was reached *).

(** Outcome of a call: a value, a thrown exception, or no return. *)
Inductive result (A : Type) : Type :=
| Ok (a : A)
| Throw (e : exn)
| Stop (why : halt).
Arguments Ok {A} a.
Arguments Throw {A} e.
Arguments Stop {A} why.

Abbreviation Undefined := (Stop undefined_behaviour).

#[global] Instance result_ret : MRet result := @Ok.
#[global] Instance result_bind : MBind result := λ A B f m,
  match m with Ok a => f a | Throw e => Throw e | Stop w => Stop w end.
#[global] Instance result_fmap : FMap result := λ A B f m,
  match m with Ok a => Ok (f a) | Throw e => Throw e | Stop w => Stop w end.

(** Code that works on a state [S]: the outcome, and the state as the call
    leaves it. What was written before an exception stays written. *)
Definition M (S A : Type) : Type := S → result A * S.

#[global] Instance M_ret {S} : MRet (M S) := λ A a s, (Ok a, s).
#[global] Instance M_bind {S} : MBind (M S) := λ A B f m s,
  match m s with
  | (Ok a, s') => f a s'
  | (Throw e, s') => (Throw e, s')
  | (Stop w, s') => (Stop w, s')
  end.

Definition throw {S A} (e : exn) : M S A := λ s, (Throw e, s).
Definition stop {S A} (w : halt) : M S A := λ s, (Stop w, s).
Definition get {S} : M S S := λ s, (Ok s, s).
Definition put {S} (s : S) : M S unit := λ _, (Ok tt, s).
Definition modify {S} (f : S → S) : M S unit := λ s, (Ok tt, f s).
(** A call that does not touch the state. *)
Definition lift {S A} (r : result A) : M S A := λ s, (r, s).

(** The function of a [std::thread]: an exception that leaves it ends the
    process ([std::terminate]). *)
Definition in_thread {S A} (body : M S A) : M S A := λ s,
  match body s with
  | (Throw e, s') => (Stop aborted, s')
  | r => r
  end.

(** The property [P] of the state survives the call [m], however it
    ends. *)
Definition preserves {S A} (P : S → Prop) (m : M S A) : Prop :=
  ∀ s, P s → P (m s).2.

(** [try { body } catch (const std::exception &e) { handler }], and
    [catch (...)] alike: every exception of [exn] is a [std::exception]. *)
Definition try_catch {S A} (body : M S A) (handler : exn → M S A) : M S A := λ s,
  match body s with
  | (Throw e, s') => handler e s'
  | r => r
  end.

Definition is_Ok {A} (r : result A) : bool :=
  match r with Ok _ => true | _ => false end.

(** The call came to an end that the language defines: it returned or
    it threw. *)
Definition returns_or_throws {A} (r : result A) : bool :=
  match r with Stop _ => false | _ => true end.

(** A [std::thread] object. It is joinable from the moment a thread is
    started on it until [join()], also after the thread's function has
    returned. [started msg_data] is a thread whose function, which owns
    the copy [msg_data] of the request, has not run yet. *)
Inductive thread : Type :=
| not_a_thread
| started (msg_data : bytes)
| finished.

Definition joinable (t : thread) : bool :=
  match t with not_a_thread => false | _ => true end.

(** Conversion of an integer to [uint8_t], and back. *)
Definition byte_of_Z (z : Z) : byte :=
  default x00 (Byte.of_N (Z.to_N (z mod 256))).
Definition Z_of_byte (b : byte) : Z := Z.of_N (Byte.to_N b).

(** [static_cast<size_t>(-1)] on a 64-bit target. *)
Definition SIZE_MAX : Z := 2 ^ 64 - 1.
(** Conversion to [uint32_t]. *)
Definition to_uint32 (z : Z) : Z := z mod 2 ^ 32.
(** [std::numeric_limits<int>::max()] and [min()] for a 32-bit [int]. *)
Definition INT_MAX : Z := 2 ^ 31 - 1.
Definition INT_MIN : Z := - 2 ^ 31.
(** Conversion of an integer to [int]: the value of that type congruent
    to it modulo 2^32. *)
Definition to_int (z : Z) : Z := (z + 2 ^ 31) mod 2 ^ 32 - 2 ^ 31.

#[global] Instance byte_eq_dec : EqDecision byte := Byte.byte_eq_dec.

End Cxx.
Export Cxx.

(** ** src/utils/serializer.cpp *)

Module Serializer.

Definition MAX_SERIALIZED_SIZE : Z := 256 * 1024.

(** The serializer owns one buffer, [m_data]. *)
Record t : Type := mk { m_data : bytes }.

Definition empty : t := mk [].
Definition size (s : t) : Z := Z.of_nat (length (m_data s)).

(** [m_data[at] = b] for an index already checked to be in range. *)
Definition store (i : Z) (b : byte) (l : bytes) : bytes := <[Z.to_nat i := b]> l.

Definition be32_bytes (value : Z) : bytes :=
  [ byte_of_Z (Z.land (Z.shiftr value 24) 255);
    byte_of_Z (Z.land (Z.shiftr value 16) 255);
    byte_of_Z (Z.land (Z.shiftr value 8) 255);
    byte_of_Z (Z.land value 255) ].

(** [writeBE32(value, at)]; [at = SIZE_MAX] is the default and appends.
    With another [at] the range check adds in [size_t], so it wraps; a
    store the wrapped check lets through outside the buffer is undefined. *)
Definition writeBE32 (value at_ : Z) (s : t) : result t :=
  if decide (at_ = SIZE_MAX) then
    if decide (size s + 4 > MAX_SERIALIZED_SIZE)
    then Throw (length_error "Serializer: message too large")
    else Ok (mk (m_data s ++ be32_bytes value))
  else
    if decide ((at_ + 4) mod 2 ^ 64 > size s)
    then Throw (out_of_range "Serializer: writeBE32 at out of range")
    else if decide (at_ + 4 <= size s)
    then Ok (mk (store (at_ + 3) (byte_of_Z (Z.land value 255))
                (store (at_ + 2) (byte_of_Z (Z.land (Z.shiftr value 8) 255))
                (store (at_ + 1) (byte_of_Z (Z.land (Z.shiftr value 16) 255))
                (store at_ (byte_of_Z (Z.land (Z.shiftr value 24) 255)) (m_data s))))))
    else Undefined.

Definition writeBlob (blob : bytes) (s : t) : result t :=
  if decide (size s + 4 + Z.of_nat (length blob) > MAX_SERIALIZED_SIZE)
  then Throw (length_error "Serializer: message too large")
  else s' ← writeBE32 (to_uint32 (Z.of_nat (length blob))) SIZE_MAX s;
       Ok (mk (m_data s' ++ blob)).

Definition writeSecureBlob (blob : bytes) (s : t) : result t := writeBlob blob s.

Definition writeString (str : string) (s : t) : result t :=
  writeBlob (String.list_byte_of_string str) s.

Definition writeByte (b : byte) (at_ : Z) (s : t) : result t :=
  if decide (at_ = SIZE_MAX) then
    if decide (size s + 1 > MAX_SERIALIZED_SIZE)
    then Throw (length_error "Serializer: message too large")
    else Ok (mk (m_data s ++ [b]))
  else
    if decide (at_ >= size s)
    then Throw (out_of_range "Serializer: writeByte at out of range")
    else Ok (mk (store at_ b (m_data s))).

Definition finalize (s : t) : result t :=
  if decide (size s < 4)
  then Throw (runtime_error "Serializer: not enough data to finalize")
  else writeBE32 (to_uint32 (size s - 4)) 0 s.

Definition writeRaw (data : bytes) (s : t) : result t :=
  if decide (size s + Z.of_nat (length data) > MAX_SERIALIZED_SIZE)
  then Throw (length_error "Serializer: message too large")
  else Ok (mk (m_data s ++ data)).

Definition writeMPInt (mpint : bytes) (s : t) : result t :=
  match mpint with
  | [] => writeBE32 0 SIZE_MAX s
  | b0 :: _ =>
    let prepend_zero := negb (Z.land (Z_of_byte b0) 128 =? 0) in
    let length_ := Z.of_nat (length mpint) + (if prepend_zero then 1 else 0) in
    if decide (size s + 4 + length_ > MAX_SERIALIZED_SIZE)
    then Throw (length_error "Serializer: message too large")
    else s' ← writeBE32 (to_uint32 length_) SIZE_MAX s;
         Ok (mk (m_data s' ++ (if prepend_zero then [x00] else []) ++ mpint))
  end.

Definition dataSecure (s : t) : bytes := m_data s.
Definition data (s : t) : bytes := m_data s.

(** The wire image of a blob: what [writeBlob] appends for a blob that
    fits. *)
Definition blob_bytes (blob : bytes) : bytes :=
  be32_bytes (Z.of_nat (length blob)) ++ blob.

Definition string_bytes (str : string) : bytes :=
  blob_bytes (String.list_byte_of_string str).

(** Runs writes on a fresh local [Serializer s] and takes [s.data()]. *)
Definition build (w : t → result t) : result bytes :=
  s ← w empty; Ok (data s).

End Serializer.

(** ** src/utils/deserializer.cpp *)

Module Deserializer.

(** A deserializer reads a buffer it does not own: [m_data] with its
    length, and the read position [m_offset]. *)
Record t : Type := mk { m_data : bytes; m_offset : Z }.

Definition of_bytes (data : bytes) : t := mk data 0.
Definition m_length (d : t) : Z := Z.of_nat (length (m_data d)).

(** A read: the value and the advanced deserializer, or an exception. *)
Definition Deser (A : Type) : Type := t → result (A * t).

#[global] Instance Deser_ret : MRet Deser := λ A a d, Ok (a, d).
#[global] Instance Deser_bind : MBind Deser := λ A B f m d,
  match m d with
  | Ok (a, d') => f a d'
  | Throw e => Throw e
  | Stop w => Stop w
  end.
#[global] Instance Deser_fmap : FMap Deser := λ A B f m d,
  match m d with
  | Ok (a, d') => Ok (f a, d')
  | Throw e => Throw e
  | Stop w => Stop w
  end.

Definition throw {A} (e : exn) : Deser A := λ _, Throw e.
(** A call made between two reads, which leaves the deserializer alone. *)
Definition lift {A} (r : result A) : Deser A := λ d, x ← r; Ok (x, d).

(** [m_data[i]] as an unsigned value, for an index inside the buffer. *)
Definition at_ (d : t) (i : Z) : Z :=
  Z_of_byte (default x00 (m_data d !! Z.to_nat i)).

(** [std::vector<uint8_t>(m_data + from, m_data + from + len)]. *)
Definition range (d : t) (from len : Z) : bytes :=
  take (Z.to_nat len) (drop (Z.to_nat from) (m_data d)).

Definition advance (d : t) (n : Z) : t := mk (m_data d) (m_offset d + n).

Definition readBE32 : Deser Z := λ d,
  if decide (m_offset d + 4 > m_length d)
  then Throw (out_of_range "Not enough data to read uint32_t")
  else
    let o := m_offset d in
    Ok (Z.lor (Z.lor (Z.lor (Z.shiftl (at_ d o) 24)
                            (Z.shiftl (at_ d (o + 1)) 16))
                     (Z.shiftl (at_ d (o + 2)) 8))
              (at_ d (o + 3)),
        advance d 4).

(** The part of [readBlob] after the length was read. *)
Definition take_blob (what : string) (len : Z) : Deser bytes := λ d,
  if decide (m_offset d + len > m_length d)
  then Throw (out_of_range what)
  else Ok (range d (m_offset d) len, advance d len).

Definition readBlob : Deser bytes :=
  len ← readBE32; take_blob "Not enough data to read blob" len.

Definition discardBlob : Deser unit :=
  len ← readBE32;
  _ ← take_blob "Not enough data to discard blob" len; mret tt.

Definition readBlobSecure : Deser bytes :=
  len ← readBE32; take_blob "Not enough data to read secure blob" len.

Definition readByte : Deser byte := λ d,
  if decide (m_offset d + 1 > m_length d)
  then Throw (out_of_range "Not enough data to read byte")
  else Ok (default x00 (m_data d !! Z.to_nat (m_offset d)), advance d 1).

Definition slice (start end_ : Z) (d : t) : result bytes :=
  if decide (start > end_ ∨ end_ > m_length d)
  then Throw (out_of_range "Invalid slice range")
  else Ok (range d start (end_ - start)).

(** A leading zero is dropped when the next byte has its top bit set. *)
Definition strip_mpint (r : bytes) : bytes :=
  match r with
  | b0 :: b1 :: rest =>
    if decide (b0 = x00) then
      if Z.land (Z_of_byte b1) 128 =? 0 then r else b1 :: rest
    else r
  | _ => r
  end.

Definition readMPInt : Deser bytes :=
  len ← readBE32;
  r ← take_blob "Not enough data to read mpint" len;
  mret (strip_mpint r).

Definition readMPIntSecure : Deser bytes := readMPInt.

Definition readString : Deser string :=
  String.string_of_list_byte <$> readBlob.

Definition offset : Deser Z := λ d, Ok (m_offset d, d).
Definition remaining : Deser Z := λ d, Ok (m_length d - m_offset d, d).

(** The bytes not read yet. *)
Definition unread (d : t) : bytes := drop (Z.to_nat (m_offset d)) (m_data d).

(** The read position lies inside the buffer. *)
Definition in_bounds (d : t) : Prop := 0 <= m_offset d <= m_length d.

(** The reader [p] succeeds on [d] with value [v], stays on the same
    buffer, and leaves [r] unread. *)
Definition reads {A} (p : Deser A) (d : t) (v : A) (r : bytes) : Prop :=
  ∃ d', p d = Ok (v, d') ∧ m_data d' = m_data d ∧ in_bounds d' ∧ unread d' = r.

(** The reader [p] returns or throws on every input. *)
Definition total {A} (p : Deser A) : Prop := ∀ d w, p d ≠ Stop w.

(** Runs a reader on a local [Deserializer d(data)]. *)
Definition parse {A} (p : Deser A) (data : bytes) : result A :=
  r ← p (of_bytes data); Ok r.1.

End Deserializer.

(** ** include/libssha/utils/secure_vector.h *)

Module SecureAllocator.

(** The free store as the allocator sees it: the live blocks by address,
    the addresses pinned by [mlock], and the blocks handed back to
    [::operator delete], each with the bytes it held at that moment. *)
Record Heap : Type := mkHeap {
  live : gmap Z bytes;
  pinned : gset Z;
  released : list (Z * bytes)
}.

(** [memset(p, c, len)]: writing past the end of the block is undefined. *)
Definition memset (p : Z) (c : byte) (len : Z) (h : Heap) : result Heap :=
  match live h !! p with
  | Some block =>
    if decide (0 <= len <= Z.of_nat (length block))
    then Ok (mkHeap (<[p := replicate (Z.to_nat len) c ++ drop (Z.to_nat len) block]> (live h))
                    (pinned h) (released h))
    else Undefined
  | None => Undefined
  end.

Definition mlock (p : Z) (h : Heap) : Heap :=
  mkHeap (live h) ({[p]} ∪ pinned h) (released h).
Definition munlock (p : Z) (h : Heap) : Heap :=
  mkHeap (live h) (pinned h ∖ {[p]}) (released h).

(** [::operator new(size)]: the system picks the address [p] and the block
    starts with whatever bytes the memory held ([junk], cut or padded to
    the size asked for by the caller). *)
Definition operator_new (p : Z) (junk : bytes) (h : Heap) : Heap :=
  mkHeap (<[p := junk]> (live h)) (pinned h) (released h).

(** [::operator delete(p)]; a null pointer is ignored. *)
Definition operator_delete (p : option Z) (h : Heap) : result Heap :=
  match p with
  | None => Ok h
  | Some a =>
    match live h !! a with
    | Some block => Ok (mkHeap (delete a (live h)) (pinned h) (released h ++ [(a, block)]))
    | None => Undefined
    end
  end.

(** [SecureAllocator<T>::allocate(n)], for [sizeof(T) = sizeof_T]. *)
Definition allocate (sizeof_T : Z) (n : Z) (p : Z) (junk : bytes) (h : Heap)
  : result (Z * Heap) :=
  if decide (n > SIZE_MAX / sizeof_T)
  then Throw bad_alloc
  else Ok (p, mlock p (operator_new p (resize (Z.to_nat (n * sizeof_T)) x00 junk) h)).

(** [SecureAllocator<T>::deallocate(p, n)]. *)
Definition deallocate (sizeof_T : Z) (p : option Z) (n : Z) (h : Heap) : result Heap :=
  h1 ← match p with
       | Some a => h' ← memset a x42 (n * sizeof_T) h; Ok (munlock a h')
       | None => Ok h
       end;
  operator_delete p h1.

End SecureAllocator.

(** ** src/extensions/openssh-restrict-destination.cpp *)

Module RestrictDestination.

Record OpenSSHHopKey : Type := mkHopKey { key : bytes; key_is_ca : bool }.

Record OpenSSHHopDescriptor : Type := mkHop {
  m_user : string;
  m_hostname : string;
  m_keys : list OpenSSHHopKey
}.

(** The loop of [OpenSSHHopDescriptor::matchesKey] over the remaining
    entries of [m_keys]. *)
Fixpoint matchesKey_loop (keys : list OpenSSHHopKey) (key_ : bytes) : bool :=
  match keys with
  | [] => false
  | k :: rest =>
    if decide (key k = []) then false
    else if key_is_ca k then matchesKey_loop rest key_
    else if negb (bool_decide (key k = key_)) then matchesKey_loop rest key_
    else true
  end.

Definition matchesKey (h : OpenSSHHopDescriptor) (key_ : bytes) : bool :=
  matchesKey_loop (m_keys h) key_.

(** Every entry up to and including index [i] carries a non-empty key:
    the scan of [matchesKey] gets as far as entry [i]. *)
Definition keys_nonempty_upto (keys : list OpenSSHHopKey) (i : nat) : Prop :=
  ∀ j k', (j <= i)%nat → keys !! j = Some k' → key k' ≠ [].

Record OpenSSHSDestinationConstraint : Type := mkConstraint {
  m_from_hop : OpenSSHHopDescriptor;
  m_to_hop : OpenSSHHopDescriptor
}.

(** include/libssha/agent/match-info.h *)
Record MatchInfo : Type := mkMatchInfo {
  from : string;
  to : string;
  user : string
}.

Definition MatchInfo_clear (mi : MatchInfo) : MatchInfo := mkMatchInfo "" "" "".

(** [MatchInfoOpt]: the caller's [MatchInfo], when it passed one. *)
Abbreviation MatchInfoOpt := (option MatchInfo).

(** [OpenSSHSDestinationConstraint::matches]: the verdict, and the
    caller's [MatchInfo] as the call leaves it. *)
Definition matches (c : OpenSSHSDestinationConstraint)
    (from_key to_key : bytes) (user_ : string) (mi : MatchInfoOpt)
  : bool * MatchInfoOpt :=
  if (if decide (from_key = [])
      then bool_decide (m_hostname (m_from_hop c) ≠ "" ∨ m_keys (m_from_hop c) ≠ [])
      else negb (matchesKey (m_from_hop c) from_key))
  then (false, mi)
  else if bool_decide (to_key ≠ []) && negb (matchesKey (m_to_hop c) to_key)
  then (false, mi)
  else if bool_decide (m_user (m_to_hop c) ≠ "" ∧ user_ ≠ "")
          && bool_decide (m_user (m_to_hop c) ≠ user_)
  then (false, mi)
  else (true,
        match mi with
        | Some _ => Some (mkMatchInfo (m_hostname (m_from_hop c))
                                      (m_hostname (m_to_hop c)) user_)
        | None => None
        end).

End RestrictDestination.

(** ** include/libssha/agent/session.h: the data of a session *)

Module SessionState.
Import RestrictDestination.

Record SessionBinding : Type := mkBinding {
  host_key : bytes;
  session_id : bytes;
  forwarded : bool
}.

(** The members of [Session] that outlive one request. [outbox] is the
    sequence of frames handed to the embedder's [send].
    [m_async_operation] is a protected member that the class initialises
    to [true] and never assigns. *)
Record t : Type := mk {
  m_session_bindings : list SessionBinding;
  m_match_info : MatchInfo;
  m_async_operation : bool;
  m_binding_failed : bool;
  m_temp_buffer : bytes;
  m_waiting_for_confirmation : bool;
  m_waiting_for_key_selection : bool;
  m_confirmation_thread : thread;
  m_key_selection_thread : thread;
  m_is_forwarded : bool;
  outbox : list bytes
}.

Definition bindingFailed (s : t) : bool := m_binding_failed s.
Definition sessionBindings (s : t) : list SessionBinding := m_session_bindings s.
Definition isForwarded (s : t) : bool := m_is_forwarded s.

(** A session as its constructor leaves it. *)
Definition fresh : t :=
  mk [] (mkMatchInfo "" "" "") true false [] false false not_a_thread not_a_thread
     false [].

End SessionState.

(** ** include/libssha/key/key.h, src/key/key.cpp *)

Module KeyBase.
Import RestrictDestination SessionState.

(** [PubKeyBase]: the public blob, the type name read from it, and the
    family's signature check. *)
Record PubKeyBase : Type := mkPub {
  m_pub_blob : bytes;
  m_type : string;
  verify : bytes → bytes → result bool
}.

(** The pure virtual part of [KeyBase], implemented by the cryptographic
    adapters: the private half a key holds (live or passphrase-protected),
    and [sign], [lock], [unlock] on it. [fingerprint_of_blob] is
    [PubKeyBase::fingerprint], the text made from the SHA-256 digest of a
    public blob by the hash library. *)
Class KeyProvider : Type := {
  priv_key : Type;
  provider_sign : priv_key → bytes → Z → result bytes;
  provider_lock : bytes → priv_key → result priv_key;
  provider_unlock : bytes → priv_key → result (bool * priv_key);
  fingerprint_of_blob : bytes → string
}.

(** [std::chrono::steady_clock] counts nanoseconds; a [time_point] is the
    number of ticks since the clock's epoch. *)
Definition ticks_per_second : Z := 1000000000.

Section WithProvider.
Context `{KeyProvider}.

Record t : Type := mk {
  m_comment : string;
  m_pubkey : option PubKeyBase;
  m_added_time : Z;
  m_lifetime_seconds : Z;
  m_dest_constraints : list OpenSSHSDestinationConstraint;
  m_confirm_required : bool;
  type_name : string;
  m_priv : priv_key
}.

Definition pubBlob (k : t) : bytes :=
  match m_pubkey k with
  | Some p => m_pub_blob p
  | None => []
  end.

Definition comment (k : t) : string := m_comment k.

Definition fingerprint (k : t) : string :=
  match m_pubkey k with
  | Some p => fingerprint_of_blob (m_pub_blob p)
  | None => "NULL"
  end.

(** [std::chrono::duration_cast<std::chrono::seconds>(d).count()]:
    the quotient rounded towards zero. *)
Definition to_seconds (d : Z) : Z := Z.quot d ticks_per_second.

Definition expireInSeconds (now : Z) (k : t) : Z :=
  if decide (m_lifetime_seconds k = 0) then -1
  else to_int (m_lifetime_seconds k - to_seconds (now - m_added_time k)).

Definition expired (now : Z) (k : t) : bool :=
  if decide (m_lifetime_seconds k = 0) then false
  else bool_decide (to_seconds (now - m_added_time k) >= m_lifetime_seconds k).

(** [setLifetime(lifetime_seconds)], called when the clock reads [now]. *)
Definition setLifetime (lifetime_seconds : Z) (now : Z) (k : t) : t :=
  mk (m_comment k) (m_pubkey k) now lifetime_seconds
     (m_dest_constraints k) (m_confirm_required k) (type_name k) (m_priv k).

Definition confirmRequired (k : t) : bool := m_confirm_required k.

Definition setConfirmRequired (confirm_required : bool) (k : t) : t :=
  mk (m_comment k) (m_pubkey k) (m_added_time k) (m_lifetime_seconds k)
     (m_dest_constraints k) confirm_required (type_name k) (m_priv k).

Definition destConstraints (k : t) : list OpenSSHSDestinationConstraint :=
  m_dest_constraints k.

Definition setDestConstraints
    (constraints : list OpenSSHSDestinationConstraint) (k : t) : t :=
  mk (m_comment k) (m_pubkey k) (m_added_time k) (m_lifetime_seconds k)
     constraints (m_confirm_required k) (type_name k) (m_priv k).

Definition hasDestConstraints (k : t) : bool :=
  negb (bool_decide (m_dest_constraints k = [])).

Definition set_priv (p : priv_key) (k : t) : t :=
  mk (m_comment k) (m_pubkey k) (m_added_time k) (m_lifetime_seconds k)
     (m_dest_constraints k) (m_confirm_required k) (type_name k) p.

Definition sign (k : t) (data : bytes) (flags : Z) : result bytes :=
  provider_sign (m_priv k) data flags.

Definition lock (password : bytes) (k : t) : result t :=
  p ← provider_lock password (m_priv k); Ok (set_priv p k).

Definition unlock (password : bytes) (k : t) : result (bool * t) :=
  r ← provider_unlock password (m_priv k); Ok (r.1, set_priv r.2 k).

(** The loop of [permittedByConstraints] over the remaining constraints. *)
Fixpoint permittedByConstraints_loop
    (constraints : list OpenSSHSDestinationConstraint)
    (from_key to_key : bytes) (user_ : string) (mi : MatchInfoOpt)
  : bool * MatchInfoOpt :=
  match constraints with
  | [] => (false, mi)
  | c :: rest =>
    let r := matches c from_key to_key user_ mi in
    if r.1 then (true, r.2)
    else permittedByConstraints_loop rest from_key to_key user_ r.2
  end.

Definition permittedByConstraints (k : t)
    (from_key to_key : bytes) (user_ : string) (mi : MatchInfoOpt)
  : bool * MatchInfoOpt :=
  permittedByConstraints_loop (m_dest_constraints k) from_key to_key user_ mi.

(** The [for] loop of [permitted] from binding [i] on: [bindings] are the
    bindings [i], [i+1], ... and the current one is the last exactly when
    none follows it ([i == size() - 1]). *)
Fixpoint permitted_loop (k : t) (user_ : string) (from_key : bytes)
    (bindings : list SessionBinding) (mi : MatchInfoOpt)
  : bool * MatchInfoOpt :=
  match bindings with
  | [] => (true, mi)
  | s :: rest =>
    if decide (host_key s = []) then (false, mi)
    else
      let is_last := bool_decide (rest = []) in
      let user_to_check := if is_last then user_ else "" in
      if is_last && (forwarded s && bool_decide (user_to_check ≠ ""))
      then (false, mi)
      else if negb is_last && negb (forwarded s)
      then (false, mi)
      else
        let r := permittedByConstraints k from_key (host_key s) user_to_check mi in
        if negb r.1 then (false, r.2)
        else permitted_loop k user_ (host_key s) rest r.2
  end.

(** [KeyBase::permitted(session, user, mi)]. *)
Definition permitted (k : t) (session : SessionState.t) (user_ : string)
    (mi : MatchInfoOpt) : bool * MatchInfoOpt :=
  if decide (m_dest_constraints k = []) then (true, mi)
  else if bindingFailed session then (false, mi)
  else if decide (sessionBindings session = []) then (true, mi)
  else
    let r := permitted_loop k user_ [] (sessionBindings session) mi in
    if negb r.1 then (false, r.2)
    else
      match last (sessionBindings session) with
      | Some last_binding =>
        if forwarded last_binding && bool_decide (user_ = "")
           && negb (permittedByConstraints k (host_key last_binding) [] "" None).1
        then (false, r.2)
        else (true, r.2)
      | None => (true, r.2)
      end.

End WithProvider.

Arguments t {_}.

End KeyBase.

(** ** src/key/key-factory.cpp *)

Module KeyFactory.
Import Deserializer KeyBase.

Section WithProvider.
Context `{KeyProvider}.

(** The four registries of the factory. A creator returns a
    [shared_ptr<KeyBase>], which may be null. *)
Record t : Type := mk {
  m_creators : gmap string (bytes → string → result (option KeyBase.t));
  m_extractors : gmap string (bytes → result bytes);
  m_skippers : gmap string (Deser unit);
  m_pubkey_creators : gmap string (bytes → result PubKeyBase)
}.

Definition empty : t := mk ∅ ∅ ∅ ∅.

Definition createKey (kf : t) (type : string) (blob : bytes) (comment_ : string)
  : result (option KeyBase.t) :=
  match m_creators kf !! type with
  | Some creator => creator blob comment_
  | None => Throw (runtime_error ("KeyFactory: unknown key type: " +:+ type))
  end.

Definition createPubKey (kf : t) (type : string) (blob : bytes) : result PubKeyBase :=
  match m_pubkey_creators kf !! type with
  | Some creator => creator blob
  | None => Throw (runtime_error ("KeyFactory: unknown public key type: " +:+ type))
  end.

Definition skipKeyBlob (kf : t) (type : string) : Deser unit :=
  match m_skippers kf !! type with
  | Some skipper => skipper
  | None => Deserializer.throw
              (runtime_error ("KeyFactory: unknown key type for skipping blob: " +:+ type))
  end.

Definition extractPubKey (kf : t) (type : string) (blob : bytes) : result bytes :=
  match m_extractors kf !! type with
  | Some extractor => extractor blob
  | None => Throw (runtime_error
                     ("KeyFactory: unknown key type for extracting pubkey: " +:+ type))
  end.

Definition registerKeyType (type : string)
    (creator : bytes → string → result (option KeyBase.t))
    (extractPubKey_ : bytes → result bytes) (skipBlob : Deser unit) (kf : t)
  : result t :=
  if bool_decide (is_Some (m_creators kf !! type))
     || bool_decide (is_Some (m_extractors kf !! type))
     || bool_decide (is_Some (m_skippers kf !! type))
  then Throw (runtime_error ("KeyFactory: key type already registered: " +:+ type))
  else Ok (mk (<[type := creator]> (m_creators kf))
              (<[type := extractPubKey_]> (m_extractors kf))
              (<[type := skipBlob]> (m_skippers kf))
              (m_pubkey_creators kf)).

Definition registerPubKeyType (type : string)
    (creator : bytes → result PubKeyBase) (kf : t) : result t :=
  if bool_decide (is_Some (m_pubkey_creators kf !! type))
  then Throw (runtime_error ("KeyFactory: public key type already registered: " +:+ type))
  else Ok (mk (m_creators kf) (m_extractors kf) (m_skippers kf)
              (<[type := creator]> (m_pubkey_creators kf))).

End WithProvider.

Arguments t {_}.

End KeyFactory.

(** ** src/providers/botan/edcsa-key.cpp, edcsa-pub.cpp *)

Module ECDSAKey.
Import Deserializer KeyBase.

(** What the adapter asks of Botan: whether bytes are a scalar or a point
    of a named group, the private key object made from a scalar, and the
    check of an (r, s) signature. *)
Class Botan `{KeyProvider} : Type := {
  EC_Scalar_deserialize : string → bytes → option bytes;
  ECDSA_PrivateKey : string → bytes → priv_key;
  EC_AffinePoint_valid : string → bytes → bool;
  PK_Verifier_verify : string → string → bytes → bytes → bytes → bytes → bool
}.

Section WithBotan.
Context `{Botan}.

Definition edcsa_sha2_nistp256_type_name : string := "ecdsa-sha2-nistp256".
Definition edcsa_sha2_nistp384_type_name : string := "ecdsa-sha2-nistp384".
Definition edcsa_sha2_nistp521_type_name : string := "ecdsa-sha2-nistp521".

(** [while (priv_key.size() < n) priv_key.insert(priv_key.begin(), 1, 0x00)] *)
Definition pad_front (n : nat) (priv : bytes) : bytes :=
  replicate (n - length priv) x00 ++ priv.

(** The Botan group name, signature algorithm and scalar size of a curve. *)
Definition curve_params (curve_name : string) : option (string * string * nat) :=
  if decide (curve_name = "nistp256") then Some ("secp256r1", "EMSA1(SHA-256)", 32%nat)
  else if decide (curve_name = "nistp384") then Some ("secp384r1", "EMSA1(SHA-384)", 48%nat)
  else if decide (curve_name = "nistp521") then Some ("secp521r1", "EMSA1(SHA-512)", 66%nat)
  else None.

(** [ECDSAPub::verify]. *)
Definition ECDSAPub_verify (botan_curve algorithm : string) (point : bytes)
    (data signature : bytes) : result bool :=
  sig ← parse (sig_type ← readString; sig_blob ← readBlob; mret sig_blob) signature;
  rs ← parse (r ← readMPInt; s ← readMPInt; mret (r, s)) sig;
  Ok (PK_Verifier_verify botan_curve algorithm point data rs.1 rs.2).

(** [ECDSAPub::ECDSAPub(blob)]. *)
Definition ECDSAPub (blob : bytes) : result PubKeyBase :=
  hdr ← parse (type ← readString; curve ← readString; pub ← readMPInt;
               mret (type, curve, pub)) blob;
  let '(type, curve_name, pub_data) := hdr in
  match curve_params curve_name with
  | None => Throw (runtime_error ("ECDSAPub: unknown curve name: " +:+ curve_name))
  | Some (botan_curve, algorithm, _) =>
    if EC_AffinePoint_valid botan_curve pub_data
    then Ok (mkPub blob type (ECDSAPub_verify botan_curve algorithm pub_data))
    else Throw (runtime_error "Botan: invalid EC point")
  end.

(** [ECDSAKey::ECDSAKey(blob, comment, type_name)]. *)
Definition ECDSAKey (blob : bytes) (comment_ : string) (type_name_ : string)
  : result KeyBase.t :=
  fields ← parse (curve ← readString; pub ← readBlob; priv ← readMPIntSecure;
                  mret (curve, pub, priv)) blob;
  let '(curve_name, pub_data, priv) := fields in
  match curve_params curve_name with
  | None => Throw (runtime_error ("ECDSABase: unknown curve name: " +:+ curve_name))
  | Some (botan_curve, _, scalar_size) =>
    match EC_Scalar_deserialize botan_curve (pad_front scalar_size priv) with
    | None => Throw (runtime_error "ECDSABase: invalid private scalar")
    | Some scalar =>
      secure_data ← Serializer.build (λ s, s1 ← Serializer.writeString type_name_ s;
                                s2 ← Serializer.writeString curve_name s1;
                                Serializer.writeBlob pub_data s2);
      pubkey ← ECDSAPub secure_data;
      Ok (KeyBase.mk comment_ (Some pubkey) 0 0 [] false type_name_
                     (ECDSA_PrivateKey botan_curve scalar))
    end
  end.

(** [ECDSAKey::extractPub(data)]. *)
Definition extractPub (data : bytes) : result bytes :=
  fields ← parse (curve ← readString; pub ← readBlob; mret (curve, pub)) data;
  let '(curve_name, pub_data) := fields in
  type_name_ ←
    (if decide (curve_name = "nistp256") then Ok edcsa_sha2_nistp256_type_name
     else if decide (curve_name = "nistp384") then Ok edcsa_sha2_nistp384_type_name
     else if decide (curve_name = "nistp521") then Ok edcsa_sha2_nistp521_type_name
     else Throw (runtime_error
                   ("ECDSABase::extractPub: unknown curve name: " +:+ curve_name)));
  Serializer.build (λ s, s1 ← Serializer.writeString type_name_ s;
              s2 ← Serializer.writeString curve_name s1;
              Serializer.writeBlob pub_data s2).

(** [ECDSAKey::skipBlob(d)]. *)
Definition skipBlob : Deser unit :=
  _ ← discardBlob; _ ← discardBlob; discardBlob.

(** [ECDSAKey::registerKeyType()] and [ECDSAPub::registerKeyType()]. *)
Definition registerKeyType (kf : KeyFactory.t) : result KeyFactory.t :=
  let reg type_name_ :=
    KeyFactory.registerKeyType type_name_
      (λ blob comment_, Some <$> ECDSAKey blob comment_ type_name_)
      extractPub skipBlob in
  kf1 ← reg edcsa_sha2_nistp256_type_name kf;
  kf2 ← reg edcsa_sha2_nistp384_type_name kf1;
  reg edcsa_sha2_nistp521_type_name kf2.

Definition registerPubKeyType (kf : KeyFactory.t) : result KeyFactory.t :=
  kf1 ← KeyFactory.registerPubKeyType "ecdsa-sha2-nistp256" ECDSAPub kf;
  kf2 ← KeyFactory.registerPubKeyType "ecdsa-sha2-nistp384" ECDSAPub kf1;
  KeyFactory.registerPubKeyType "ecdsa-sha2-nistp521" ECDSAPub kf2.

(** The factory after the ECDSA family registered itself. *)
Definition registered : result KeyFactory.t :=
  kf ← registerKeyType KeyFactory.empty; registerPubKeyType kf.

End WithBotan.

End ECDSAKey.

(** ** include/libssha/extensions, src/extensions *)

Module Extension.
Import Deserializer RestrictDestination KeyBase.

(** The classes derived from [ExtensionBase]; [dynamic_cast] tells them
    apart. [EmbedderExtension] stands for an object of a class that the
    embedder registered under [name]. *)
Inductive ExtensionBase : Type :=
| OpenSSHSessionBind (m_host_key m_session_id m_signature : bytes) (m_forwarded : bool)
| OpenSSHSRestrictDestination (m_constraints : list OpenSSHSDestinationConstraint)
| EmbedderExtension (name : string) (payload : bytes).

Definition openssh_session_bind_ext_name : string := "session-bind@openssh.com".
Definition openssh_session_restrict_destination_ext_name : string :=
  "restrict-destination-v00@openssh.com".

(** The [while (d.remaining() > 0)] loop of the hop constructor. Every
    round reads at least five bytes, so [fuel] = the buffer length is
    never used up. *)
Fixpoint read_hop_keys (fuel : nat) : Deser (list OpenSSHHopKey) := λ d,
  if decide (m_length d - m_offset d > 0) then
    match fuel with
    | O => Stop out_of_fuel
    | S fuel' =>
      (key_ ← readBlob;
       ca ← readByte;
       rest ← read_hop_keys fuel';
       mret (mkHopKey key_ (negb (bool_decide (ca = x00))) :: rest)) d
    end
  else Ok ([], d).

(** [OpenSSHHopDescriptor::OpenSSHHopDescriptor(data, tag)]. *)
Definition OpenSSHHopDescriptor_of_bytes (data : bytes) : result OpenSSHHopDescriptor :=
  parse (user_ ← readString;
         hostname ← readString;
         extensions ← readBlob;
         if decide (extensions ≠ [])
         then throw (runtime_error "OpenSSHHopDescriptor: extensions not supported")
         else keys ← read_hop_keys (length data);
              mret (mkHop user_ hostname keys)) data.

(** [OpenSSHSDestinationConstraint::OpenSSHSDestinationConstraint(data)]. *)
Definition OpenSSHSDestinationConstraint_of_bytes (data : bytes)
  : result OpenSSHSDestinationConstraint :=
  blobs ← parse (from_hop ← readBlob; to_hop ← readBlob; extensions ← readBlob;
                 mret (from_hop, to_hop, extensions)) data;
  let '(from_hop, to_hop, extensions) := blobs in
  if decide (extensions ≠ [])
  then Throw (runtime_error "OpenSSHSDestinationConstraint: extensions not supported")
  else
    from_ ← OpenSSHHopDescriptor_of_bytes from_hop;
    to_ ← OpenSSHHopDescriptor_of_bytes to_hop;
    if bool_decide (bool_decide (m_hostname from_ = "") ≠ bool_decide (m_keys from_ = []))
       || negb (bool_decide (m_user from_ = ""))
    then Throw (runtime_error "OpenSSHSDestinationConstraint: invalid from_hop")
    else if bool_decide (m_hostname to_ = "") || bool_decide (m_keys to_ = [])
    then Throw (runtime_error "OpenSSHSDestinationConstraint: invalid to_hop")
    else Ok (mkConstraint from_ to_).

(** What the constructor asks of the two hops: the origin has no user
    and names a host exactly when it lists keys, the destination names a
    host and lists keys. *)
Definition well_formed (c : OpenSSHSDestinationConstraint) : Prop :=
  (m_hostname (m_from_hop c) = "" ↔ m_keys (m_from_hop c) = [])
  ∧ m_user (m_from_hop c) = ""
  ∧ m_hostname (m_to_hop c) ≠ ""
  ∧ m_keys (m_to_hop c) ≠ [].

(** The [do ... while (dd.remaining() > 0)] loop of
    [OpenSSHSRestrictDestination::deserialize]. *)
Fixpoint read_constraints (fuel : nat) : Deser (list OpenSSHSDestinationConstraint) := λ dd,
  match fuel with
  | O => Stop out_of_fuel
  | S fuel' =>
    (b ← readBlob;
     c ← lift (OpenSSHSDestinationConstraint_of_bytes b);
     left ← remaining;
     if decide (left > 0)
     then rest ← read_constraints fuel'; mret (c :: rest)
     else mret [c]) dd
  end.

(** [OpenSSHSRestrictDestination::deserialize(d)]. *)
Definition OpenSSHSRestrictDestination_deserialize : Deser ExtensionBase :=
  data ← readBlob;
  cs ← lift (parse (read_constraints (S (length data))) data);
  mret (OpenSSHSRestrictDestination cs).

(** The loop of [OpenSSHHopDescriptor::serialize] over [m_keys]. *)
Fixpoint write_hop_keys (keys : list OpenSSHHopKey) (hs : Serializer.t)
  : result Serializer.t :=
  match keys with
  | [] => Ok hs
  | k :: rest =>
    hs1 ← Serializer.writeBlob (key k) hs;
    hs2 ← Serializer.writeByte (if key_is_ca k then x01 else x00) SIZE_MAX hs1;
    write_hop_keys rest hs2
  end.

(** [OpenSSHHopDescriptor::serialize()]. *)
Definition OpenSSHHopDescriptor_serialize (h : OpenSSHHopDescriptor) : result bytes :=
  Serializer.build (λ hs, hs1 ← Serializer.writeString (m_user h) hs;
                          hs2 ← Serializer.writeString (m_hostname h) hs1;
                          hs3 ← Serializer.writeBlob [] hs2;
                          write_hop_keys (m_keys h) hs3).

(** [OpenSSHSDestinationConstraint::serialize()]. *)
Definition OpenSSHSDestinationConstraint_serialize (c : OpenSSHSDestinationConstraint)
  : result bytes :=
  fb ← OpenSSHHopDescriptor_serialize (m_from_hop c);
  tb ← OpenSSHHopDescriptor_serialize (m_to_hop c);
  Serializer.build (λ cs, cs1 ← Serializer.writeBlob fb cs;
                          cs2 ← Serializer.writeBlob tb cs1;
                          Serializer.writeBlob [] cs2).

(** The loop of [OpenSSHSRestrictDestination::serialize] over
    [m_constraints]. *)
Fixpoint write_constraints (cs : list OpenSSHSDestinationConstraint)
    (out : Serializer.t) : result Serializer.t :=
  match cs with
  | [] => Ok out
  | c :: rest =>
    cb ← OpenSSHSDestinationConstraint_serialize c;
    out1 ← Serializer.writeBlob cb out;
    write_constraints rest out1
  end.

(** [OpenSSHSRestrictDestination::serialize(s)]. *)
Definition OpenSSHSRestrictDestination_serialize
    (cs : list OpenSSHSDestinationConstraint) (s : Serializer.t) : result Serializer.t :=
  out ← write_constraints cs Serializer.empty;
  Serializer.writeBlob (Serializer.data out) s.

Section WithProvider.
Context `{KeyProvider}.

(** [OpenSSHSessionBind::deserialize(d)]. *)
Definition OpenSSHSessionBind_deserialize (kf : KeyFactory.t) : Deser ExtensionBase :=
  host_key_ ← readBlob;
  session_id_ ← readBlob;
  signature ← readBlob;
  fwd ← readByte;
  let forwarded_ := negb (bool_decide (fwd = x00)) in
  hk ← lift (parse (key_type ← readString; blob_key ← readBlob; mret key_type) host_key_);
  pubkey ← lift (KeyFactory.createPubKey kf hk host_key_);
  if bool_decide (signature ≠ []) then
    _ ← lift (parse (sig_type ← readString; sig_blob ← readBlob; mret tt) signature);
    ok ← lift (verify pubkey session_id_ signature);
    if negb ok
    then throw (runtime_error "OpenSSHSessionBind: signature verification failed")
    else mret (OpenSSHSessionBind host_key_ session_id_ signature forwarded_)
  else mret (OpenSSHSessionBind host_key_ session_id_ signature forwarded_).

(** [ExtensionFactory]: the two registries. A creator makes an empty
    object (or returns null, [None]); the entry here is the [deserialize]
    of the object it makes, run against the key factory of the moment. *)
Record ExtensionFactory : Type := mkFactory {
  m_message_extension_creators : gmap string (option (KeyFactory.t → Deser ExtensionBase));
  m_constraint_extension_creators : gmap string (option (KeyFactory.t → Deser ExtensionBase))
}.

Definition registerMessageExtension (ext_name : string)
    (creator : option (KeyFactory.t → Deser ExtensionBase)) (ef : ExtensionFactory)
  : ExtensionFactory :=
  mkFactory (<[ext_name := creator]> (m_message_extension_creators ef))
            (m_constraint_extension_creators ef).

Definition registerConstraintExtension (ext_name : string)
    (creator : option (KeyFactory.t → Deser ExtensionBase)) (ef : ExtensionFactory)
  : ExtensionFactory :=
  mkFactory (m_message_extension_creators ef)
            (<[ext_name := creator]> (m_constraint_extension_creators ef)).

Definition createMessageExtension (ef : ExtensionFactory) (ext_name : string)
  : result (option (KeyFactory.t → Deser ExtensionBase)) :=
  match m_message_extension_creators ef !! ext_name with
  | Some creator => Ok creator
  | None => Throw (runtime_error
                     ("ExtensionFactory: unknown message extension: " +:+ ext_name))
  end.

Definition createConstraintExtension (ef : ExtensionFactory) (ext_name : string)
  : result (option (KeyFactory.t → Deser ExtensionBase)) :=
  match m_constraint_extension_creators ef !! ext_name with
  | Some creator => Ok creator
  | None => Throw (runtime_error
                     ("ExtensionFactory: unknown constraint extension: " +:+ ext_name))
  end.

(** [ExtensionFactory::initializeExtensions()] on an empty factory. *)
Definition initializeExtensions : ExtensionFactory :=
  registerConstraintExtension openssh_session_restrict_destination_ext_name
    (Some (λ _, OpenSSHSRestrictDestination_deserialize))
    (registerMessageExtension openssh_session_bind_ext_name
       (Some OpenSSHSessionBind_deserialize)
       (mkFactory ∅ ∅)).

End WithProvider.

End Extension.

(** ** include/libssha/messages, src/messages *)

Module Message.
Import Deserializer.

(** [enum MessageType : uint8_t] *)
Definition SSH_AGENTC_REQUEST_IDENTITIES : byte := x0b.
Definition SSH_AGENTC_SIGN_REQUEST : byte := x0d.
Definition SSH_AGENTC_ADD_IDENTITY : byte := x11.
Definition SSH_AGENTC_REMOVE_IDENTITY : byte := x12.
Definition SSH_AGENTC_REMOVE_ALL_IDENTITIES : byte := x13.
Definition SSH_AGENTC_LOCK : byte := x16.
Definition SSH_AGENTC_UNLOCK : byte := x17.
Definition SSH_AGENTC_ADD_IDENTITY_CONSTRAINED : byte := x19.
Definition SSH_AGENTC_EXTENSION : byte := x1b.
Definition SSH_AGENT_FAILURE : byte := x05.
Definition SSH_AGENT_SUCCESS : byte := x06.
Definition SSH_AGENT_IDENTITIES_ANSWER : byte := x0c.
Definition SSH_AGENT_SIGN_RESPONSE : byte := x0e.
Definition SSH_AGENTC_REMOVE_ALL_RSA_IDENTITIES : byte := x09.

(** [enum KeyConstraint : uint8_t] *)
Definition SSH_AGENT_CONSTRAIN_LIFETIME : byte := x01.
Definition SSH_AGENT_CONSTRAIN_CONFIRM : byte := x02.
Definition SSH_AGENT_CONSTRAIN_EXTENSION : byte := xff.

(** A [Message] built from raw data: the type byte and the frame it was
    read from ([m_data], [m_length]). *)
Record t : Type := mk { m_type : byte; m_data : bytes }.

Definition type (m : t) : byte := m_type m.
Definition data (m : t) : bytes := m_data m.

(** [Message::deserialize(d)]: the length is read and discarded. *)
Definition deserialize : Deser byte := _ ← readBE32; readByte.

(** [Message::Message(data, length)]. *)
Definition of_bytes (data_ : bytes) : result t :=
  ty ← parse deserialize data_; Ok (mk ty data_).

(** [Message::serialize(Serializer &)], and [serialize()] of a
    [SimpleMessage<msg_type>]. *)
Definition serialize_header (ty : byte) (s : Serializer.t) : result Serializer.t :=
  s1 ← Serializer.writeBE32 1 SIZE_MAX s; Serializer.writeByte ty SIZE_MAX s1.

Definition serialize (ty : byte) : result bytes :=
  Serializer.build (serialize_header ty).

(** The check every typed message makes on the [Message] it is built
    from. *)
Definition check_source (what : string) (ok : bool) (msg : t) : result unit :=
  if negb ok then Throw (runtime_error (what +:+ ": incorrect message type"))
  else if decide (m_data msg = []) then Throw (runtime_error (what +:+ ": no data"))
  else Ok tt.

End Message.

Module SignRequestMessage.
Import Deserializer Message.

Record t : Type := mk { m_key_blob : bytes; m_data_sign : bytes; m_flags : Z }.

Definition deserialize : Deser t :=
  ty ← Message.deserialize;
  if decide (ty ≠ SSH_AGENTC_SIGN_REQUEST)
  then throw (runtime_error "SignRequestMessage: incorrect message type")
  else key_blob ← readBlob; data_sign ← readBlob; flags ← readBE32;
       mret (mk key_blob data_sign flags).

Definition of_message (msg : Message.t) : result t :=
  _ ← check_source "SignRequestMessage"
        (bool_decide (Message.type msg = SSH_AGENTC_SIGN_REQUEST)) msg;
  parse deserialize (Message.data msg).

(** [SignRequestMessage::serialize()]. *)
Definition serialize (m : t) : result bytes :=
  Serializer.build (λ s, s1 ← Message.serialize_header SSH_AGENTC_SIGN_REQUEST s;
                         s2 ← Serializer.writeBlob (m_key_blob m) s1;
                         s3 ← Serializer.writeBlob (m_data_sign m) s2;
                         s4 ← Serializer.writeBE32 (m_flags m) SIZE_MAX s3;
                         Serializer.finalize s4).

End SignRequestMessage.

Module SignResponseMessage.

Definition serialize (signature : bytes) : result bytes :=
  Serializer.build (λ s, s1 ← Message.serialize_header Message.SSH_AGENT_SIGN_RESPONSE s;
                         s2 ← Serializer.writeBlob signature s1;
                         Serializer.finalize s2).

(** [SignResponseMessage::deserialize(d)]: the signature. *)
Definition deserialize : Deserializer.Deser bytes :=
  ty ← Message.deserialize;
  if decide (ty ≠ Message.SSH_AGENT_SIGN_RESPONSE)
  then Deserializer.throw (runtime_error "SignResponseMessage: incorrect message type")
  else Deserializer.readBlob.

(** [SignResponseMessage::SignResponseMessage(msg)]. *)
Definition of_message (msg : Message.t) : result bytes :=
  _ ← Message.check_source "SignResponseMessage"
        (bool_decide (Message.type msg = Message.SSH_AGENT_SIGN_RESPONSE)) msg;
  Deserializer.parse deserialize (Message.data msg).

End SignResponseMessage.

Module RemoveIdentityMessage.
Import Deserializer Message.

Record t : Type := mk { m_key_blob : bytes }.

Definition deserialize : Deser t :=
  ty ← Message.deserialize;
  if decide (ty ≠ SSH_AGENTC_REMOVE_IDENTITY)
  then throw (runtime_error "RemoveIdentityMessage: incorrect message type")
  else key_blob ← readBlob; mret (mk key_blob).

Definition of_message (msg : Message.t) : result t :=
  _ ← check_source "RemoveIdentityMessage"
        (bool_decide (Message.type msg = SSH_AGENTC_REMOVE_IDENTITY)) msg;
  parse deserialize (Message.data msg).

(** [RemoveIdentityMessage::serialize()]. *)
Definition serialize (m : t) : result bytes :=
  Serializer.build (λ s, s1 ← Message.serialize_header SSH_AGENTC_REMOVE_IDENTITY s;
                         s2 ← Serializer.writeBlob (m_key_blob m) s1;
                         Serializer.finalize s2).

End RemoveIdentityMessage.

Module LockMessageBase.
Import Deserializer Message.

Record t : Type := mk { m_password : bytes }.

Definition deserialize (msg_type : byte) : Deser t :=
  ty ← Message.deserialize;
  if decide (ty ≠ msg_type)
  then throw (runtime_error "LockMessage: incorrect message type")
  else password ← readBlobSecure; mret (mk password).

Definition of_message (msg_type : byte) (msg : Message.t) : result t :=
  _ ← check_source "LockMessage" (bool_decide (Message.type msg = msg_type)) msg;
  parse (deserialize msg_type) (Message.data msg).

(** [LockMessageBase<msg_type>::serialize()]. *)
Definition serialize (msg_type : byte) (m : t) : result bytes :=
  Serializer.build (λ s, s1 ← Message.serialize_header msg_type s;
                         s2 ← Serializer.writeSecureBlob (m_password m) s1;
                         Serializer.finalize s2).

End LockMessageBase.

Module IdentitiesAnswerMessage.

(** The loop of [serialize] over [m_identities]. *)
Fixpoint write_identities (ids : list (bytes * string)) (s : Serializer.t)
  : result Serializer.t :=
  match ids with
  | [] => Ok s
  | (blob, comment_) :: rest =>
    s1 ← Serializer.writeBlob blob s;
    s2 ← Serializer.writeString comment_ s1;
    write_identities rest s2
  end.

Definition serialize (m_identities : list (bytes * string)) : result bytes :=
  Serializer.build
    (λ s, s1 ← Message.serialize_header Message.SSH_AGENT_IDENTITIES_ANSWER s;
          s2 ← Serializer.writeBE32 (to_uint32 (Z.of_nat (length m_identities))) SIZE_MAX s1;
          s3 ← write_identities m_identities s2;
          Serializer.finalize s3).

(** The [for (i = 0; i < count; ++i)] loop of [deserialize]. *)
Fixpoint read_identities (count : nat) : Deserializer.Deser (list (bytes * string)) :=
  match count with
  | O => mret []
  | S count' =>
    blob ← Deserializer.readBlob;
    comment_ ← Deserializer.readString;
    rest ← read_identities count';
    mret ((blob, comment_) :: rest)
  end.

(** [IdentitiesAnswerMessage::deserialize(d)]. *)
Definition deserialize : Deserializer.Deser (list (bytes * string)) :=
  ty ← Message.deserialize;
  if decide (ty ≠ Message.SSH_AGENT_IDENTITIES_ANSWER)
  then Deserializer.throw
         (runtime_error "IdentitiesAnswerMessage: incorrect message type")
  else
    left ← Deserializer.remaining;
    if decide (left < 4)
    then Deserializer.throw
           (out_of_range "IdentitiesAnswerMessage: not enough data for count")
    else count ← Deserializer.readBE32; read_identities (Z.to_nat count).

(** [IdentitiesAnswerMessage::IdentitiesAnswerMessage(msg)]. *)
Definition of_message (msg : Message.t) : result (list (bytes * string)) :=
  if negb (bool_decide (Message.type msg = Message.SSH_AGENT_IDENTITIES_ANSWER))
  then Throw (runtime_error "IdentitiesAnswerMessage: incorrect message type")
  else if decide (Message.data msg = [])
  then Throw (runtime_error "AddIdentityMessage: no data")
  else Deserializer.parse deserialize (Message.data msg).

End IdentitiesAnswerMessage.

Module UserAuthRequestMessage.
Import Deserializer.

Definition SSH_MSG_USERAUTH_REQUEST : byte := x32.

Record t : Type := mk {
  m_session_id : bytes;
  m_username : string;
  m_key_type : string;
  m_public_key : bytes;
  m_server_host_key : bytes
}.

Definition sessionId (m : t) : bytes := m_session_id m.
Definition username (m : t) : string := m_username m.

(** [UserAuthRequestMessage::UserAuthRequestMessage(data)]. *)
Definition of_bytes (data : bytes) : result t :=
  parse (session_id ← readBlob;
         if decide (session_id = [])
         then throw (runtime_error "UserAuthRequestMessage: empty session ID")
         else
           msg_type ← readByte;
           if decide (msg_type ≠ SSH_MSG_USERAUTH_REQUEST)
           then throw (runtime_error "UserAuthRequestMessage: incorrect message type")
           else
             username_ ← readString;
             service_name ← readString;
             method_name ← readString;
             has_sig ← readByte;
             let has_signature := negb (bool_decide (has_sig = x00)) in
             if bool_decide (service_name ≠ "ssh-connection")
                || bool_decide (method_name ≠ "publickey-hostbound-v00@openssh.com")
                || negb has_signature
             then throw (runtime_error
                           "UserAuthRequestMessage: unsupported service/method/signature")
             else
               key_type ← readString;
               public_key ← readBlob;
               server_host_key ← readBlob;
               mret (mk session_id username_ key_type public_key server_host_key)) data.

End UserAuthRequestMessage.

Module ExtensionMessage.
Import Deserializer Message KeyBase Extension.

Section WithProvider.
Context `{KeyProvider}.

Record t : Type := mk {
  m_extension_name : string;
  m_extension : option ExtensionBase
}.

Definition extensionName (m : t) : string := m_extension_name m.
Definition extension (m : t) : option ExtensionBase := m_extension m.

(** [ExtensionMessage::deserialize(s)]. *)
Definition deserialize (ef : ExtensionFactory) (kf : KeyFactory.t) : Deser t :=
  _ ← Message.deserialize;
  name ← readString;
  creator ← lift (createMessageExtension ef name);
  match creator with
  | Some deserialize_ext => ext ← deserialize_ext kf; mret (mk name (Some ext))
  | None => mret (mk name None)
  end.

(** [ExtensionMessage::ExtensionMessage(msg)]. *)
Definition of_message (ef : ExtensionFactory) (kf : KeyFactory.t) (msg : Message.t)
  : result t :=
  _ ← check_source "ExtensionMessage"
        (bool_decide (Message.type msg = SSH_AGENTC_EXTENSION)) msg;
  parse (deserialize ef kf) (Message.data msg).

End WithProvider.

(** The wire image of an EXTENSION request: the outer length (which the
    agent reads and discards), the type byte, the name, the body. *)
Definition frame (outer_length : Z) (name : string) (body : bytes) : bytes :=
  Serializer.be32_bytes outer_length ++ [SSH_AGENTC_EXTENSION]
  ++ Serializer.string_bytes name ++ body.

(** The body of a [session-bind@openssh.com] request. *)
Definition session_bind_body (host_key_ session_id_ signature : bytes) (fwd : byte)
  : bytes :=
  Serializer.blob_bytes host_key_ ++ Serializer.blob_bytes session_id_
  ++ Serializer.blob_bytes signature ++ [fwd].

End ExtensionMessage.

Module AddIdentityMessage.
Import Deserializer Message KeyBase Extension.

Section WithProvider.
Context `{KeyProvider}.

Record t : Type := mk {
  m_key_type : string;
  m_key_blob : bytes;
  m_key_comment : string;
  m_confirm_required : bool;
  m_lifetime : Z;
  m_extension : option ExtensionBase
}.

Definition keyType (m : t) : string := m_key_type m.
Definition keyBlob (m : t) : bytes := m_key_blob m.
Definition keyComment (m : t) : string := m_key_comment m.
Definition confirmRequired (m : t) : bool := m_confirm_required m.
Definition lifetime (m : t) : Z := m_lifetime m.
Definition extension (m : t) : option ExtensionBase := m_extension m.

(** The [while (d.remaining() > 0)] loop over the constraints; every
    round reads at least one byte. *)
Fixpoint read_constraints (ef : ExtensionFactory) (kf : KeyFactory.t)
    (fuel : nat) (m : t) : Deser t := λ d,
  if decide (m_length d - m_offset d > 0) then
    match fuel with
    | O => Stop out_of_fuel
    | S fuel' =>
      (constr ← readByte;
       if decide (constr = SSH_AGENT_CONSTRAIN_CONFIRM) then
         read_constraints ef kf fuel'
           (mk (m_key_type m) (m_key_blob m) (m_key_comment m) true
               (m_lifetime m) (m_extension m))
       else if decide (constr = SSH_AGENT_CONSTRAIN_LIFETIME) then
         lifetime_ ← readBE32;
         read_constraints ef kf fuel'
           (mk (m_key_type m) (m_key_blob m) (m_key_comment m)
               (m_confirm_required m) lifetime_ (m_extension m))
       else if decide (constr = SSH_AGENT_CONSTRAIN_EXTENSION) then
         ext_type ← readString;
         creator ← lift (createConstraintExtension ef ext_type);
         match creator with
         | None => throw (runtime_error
                            ("AddIdentityMessage: unknown constraint extension " +:+ ext_type))
         | Some deserialize_ext =>
           ext ← deserialize_ext kf;
           read_constraints ef kf fuel'
             (mk (m_key_type m) (m_key_blob m) (m_key_comment m)
                 (m_confirm_required m) (m_lifetime m) (Some ext))
         end
       else throw (runtime_error_fmt "AddIdentityMessage: unknown constraint type "
                                     (Z_of_byte constr))) d
    end
  else Ok (m, d).

(** [AddIdentityMessage::deserialize(d)]. *)
Definition deserialize (ef : ExtensionFactory) (kf : KeyFactory.t) (fuel : nat)
  : Deser t :=
  ty ← Message.deserialize;
  if bool_decide (ty ≠ SSH_AGENTC_ADD_IDENTITY)
     && bool_decide (ty ≠ SSH_AGENTC_ADD_IDENTITY_CONSTRAINED)
  then throw (runtime_error "AddIdentityMessage: incorrect message type")
  else
    key_type ← readString;
    start ← offset;
    _ ← KeyFactory.skipKeyBlob kf key_type;
    end_ ← offset;
    key_blob ← (λ d, x ← slice start end_ d; Ok (x, d));
    key_comment ← readString;
    let m := mk key_type key_blob key_comment false 0 None in
    if decide (ty = SSH_AGENTC_ADD_IDENTITY_CONSTRAINED)
    then read_constraints ef kf fuel m
    else mret m.

(** [AddIdentityMessage::AddIdentityMessage(msg)]. *)
Definition of_message (ef : ExtensionFactory) (kf : KeyFactory.t) (msg : Message.t)
  : result t :=
  _ ← check_source "AddIdentityMessage"
        (bool_decide (Message.type msg = SSH_AGENTC_ADD_IDENTITY)
         || bool_decide (Message.type msg = SSH_AGENTC_ADD_IDENTITY_CONSTRAINED)) msg;
  parse (deserialize ef kf (length (Message.data msg))) (Message.data msg).

End WithProvider.

End AddIdentityMessage.

(** ** include/libssha/key/lock-provider.h *)

(** The [LockProvider] the embedder installs: the verifier it keeps, and
    [lock] and [verify] on it. *)
Class LockProvider : Type := {
  lock_state : Type;
  provider_store : bytes → lock_state → result lock_state;
  provider_verify : bytes → lock_state → result bool
}.

(** ** src/key/key-manager.cpp *)

Module KeyManager.
Import RestrictDestination SessionState KeyBase Extension.

Section WithProviders.
Context `{KeyProvider} `{LockProvider}.

(** What the registered observers are told, in the order of the calls.
    One entry stands for one round over the observer set. *)
Inductive Event : Type :=
| onKeyAdded (key_ : KeyBase.t)
| onKeyPreRemove (key_ : KeyBase.t)
| onKeyRemoved (fingerprint_ : string)
| onKeysCleared
| onKeyUsed (key_ : KeyBase.t)
| onKeyDeclined (key_ : KeyBase.t)
| onLocked
| onUnlocked.

Record t : Type := mk {
  m_keys : list KeyBase.t;
  m_locked : bool;
  m_failed_attempts : Z;
  m_locked_until : Z;
  m_lock_provider : option lock_state;
  emitted : list Event
}.

Definition set_keys (keys : list KeyBase.t) (km : t) : t :=
  mk keys (m_locked km) (m_failed_attempts km) (m_locked_until km)
     (m_lock_provider km) (emitted km).
Definition set_locked (b : bool) (km : t) : t :=
  mk (m_keys km) b (m_failed_attempts km) (m_locked_until km)
     (m_lock_provider km) (emitted km).
Definition set_failed_attempts (n : Z) (km : t) : t :=
  mk (m_keys km) (m_locked km) n (m_locked_until km)
     (m_lock_provider km) (emitted km).
Definition set_locked_until (tp : Z) (km : t) : t :=
  mk (m_keys km) (m_locked km) (m_failed_attempts km) tp
     (m_lock_provider km) (emitted km).
Definition set_lock_provider (lp : option lock_state) (km : t) : t :=
  mk (m_keys km) (m_locked km) (m_failed_attempts km) (m_locked_until km)
     lp (emitted km).
Definition emit (e : Event) (km : t) : t :=
  mk (m_keys km) (m_locked km) (m_failed_attempts km) (m_locked_until km)
     (m_lock_provider km) (emitted km ++ [e]).

(** [KeyManager::KeyManager()], constructed when the clock reads [now]. *)
Definition init (now : Z) : t :=
  mk [] false 0 (now - 10 * ticks_per_second) None [].

Definition isLocked (km : t) : bool := m_locked km.

(** [findKey]: the position of the first key with this public blob. *)
Definition findKey (key_blob : bytes) (keys : list KeyBase.t) : option nat :=
  fst <$> list_find (λ k, pubBlob k = key_blob) keys.

(** No two keys of the list have the same public blob. *)
Definition blobs_unique (km : t) : Prop := NoDup (pubBlob <$> m_keys km).

(** [addKey(type, blob, comment)]: the new key is the last entry of
    [m_keys] afterwards. *)
Definition addKey (kf : KeyFactory.t) (type : string) (blob : bytes) (comment_ : string)
  : M t KeyBase.t :=
  pubKey ← lift (KeyFactory.extractPubKey kf type blob);
  km ← get;
  _ ← match findKey pubKey (m_keys km) with
      | Some i => modify (set_keys (delete i (m_keys km)))
      | None => mret tt
      end;
  k ← lift (KeyFactory.createKey kf type blob comment_);
  match k with
  | None => throw (runtime_error ("Failed to create key of type: " +:+ type))
  | Some k => _ ← modify (λ km, set_keys (m_keys km ++ [k]) km); mret k
  end.

(** A call through the [shared_ptr] that [addKey] returned: it changes
    the object that [m_keys] holds last. *)
Definition update_added (f : KeyBase.t → KeyBase.t) (km : t) : t :=
  match m_keys km with
  | [] => km
  | _ => set_keys (removelast (m_keys km) ++ option_list (f <$> last (m_keys km))) km
  end.

(** [addKey(AddIdentityMessage &)], when the clock reads [now]. *)
Definition addKey_message (kf : KeyFactory.t) (now : Z) (msg : AddIdentityMessage.t)
  : M t unit :=
  _ ← addKey kf (AddIdentityMessage.keyType msg) (AddIdentityMessage.keyBlob msg)
             (AddIdentityMessage.keyComment msg);
  _ ← (if decide (AddIdentityMessage.lifetime msg > 0)
       then modify (update_added (setLifetime (AddIdentityMessage.lifetime msg) now))
       else mret tt);
  _ ← modify (update_added (setConfirmRequired (AddIdentityMessage.confirmRequired msg)));
  _ ← match AddIdentityMessage.extension msg with
      | Some (OpenSSHSRestrictDestination constraints) =>
        modify (update_added (setDestConstraints constraints))
      | _ => mret tt
      end;
  km ← get;
  match last (m_keys km) with
  | Some key_ => modify (emit (onKeyAdded key_))
  | None => mret tt
  end.

Definition removeKey (blob : bytes) : M t unit :=
  km ← get;
  match findKey blob (m_keys km) with
  | Some i =>
    match m_keys km !! i with
    | Some key_ =>
      _ ← modify (emit (onKeyPreRemove key_));
      _ ← modify (λ km, set_keys (delete i (m_keys km)) km);
      modify (emit (onKeyRemoved (fingerprint key_)))
    | None => mret tt
    end
  | None => mret tt
  end.

Definition removeAllKeys : M t unit :=
  km ← get;
  let keys := m_keys km in
  _ ← modify (λ km, foldl (λ km k, emit (onKeyPreRemove k) km) km keys);
  _ ← modify (set_keys []);
  _ ← modify (λ km, foldl (λ km k, emit (onKeyRemoved (fingerprint k)) km) km keys);
  modify (emit onKeysCleared).

(** One entry of [PubKeyItemList]. *)
Record PubKeyItem : Type := mkItem {
  item_fingerprint : string;
  item_type : string;
  item_comment : string;
  item_blob : bytes
}.

Definition listKeys (session : SessionState.t) (km : t) : list PubKeyItem :=
  (λ k, mkItem (fingerprint k) (type_name k) (comment k) (pubBlob k))
    <$> filter (λ k, (permitted k session "" None).1 = true) (m_keys km).

Definition getKey (key_blob : bytes) (km : t) : option KeyBase.t :=
  i ← findKey key_blob (m_keys km); m_keys km !! i.

(** [getKeyByFingerprint(fingerprint)]: the first key with it, if any. *)
Definition getKeyByFingerprint (fingerprint_ : string) (km : t) : option KeyBase.t :=
  snd <$> list_find (λ k, fingerprint k = fingerprint_) (m_keys km).

Definition signData (key_blob data : bytes) (flags : Z) (km : t) : result bytes :=
  match getKey key_blob km with
  | Some k => sign k data flags
  | None => Throw (runtime_error "Key not found")
  end.

(** The loop of [cleanupExpiredKeys], when the clock reads [now]. *)
Fixpoint cleanup_loop (now : Z) (todo kept : list KeyBase.t) (km : t) : t :=
  match todo with
  | [] => set_keys kept km
  | k :: rest =>
    if expired now k
    then cleanup_loop now rest kept
           (emit (onKeyRemoved (fingerprint k)) (emit (onKeyPreRemove k) km))
    else cleanup_loop now rest (kept ++ [k]) km
  end.

Definition cleanupExpiredKeys (now : Z) : M t unit :=
  modify (λ km, cleanup_loop now (m_keys km) [] km).

(** [for (auto &key : m_keys) key->lock(passphrase)]: the keys before the
    one that throws stay locked. *)
Fixpoint lock_keys (passphrase : bytes) (keys : list KeyBase.t)
  : result unit * list KeyBase.t :=
  match keys with
  | [] => (Ok tt, [])
  | k :: rest =>
    match KeyBase.lock passphrase k with
    | Ok k' => let r := lock_keys passphrase rest in (r.1, k' :: r.2)
    | Throw e => (Throw e, k :: rest)
    | Stop w => (Stop w, k :: rest)
    end
  end.

(** [for (auto &key : m_keys) key->unlock(passphrase)]: the value each
    call returns is dropped. *)
Fixpoint unlock_keys (passphrase : bytes) (keys : list KeyBase.t)
  : result unit * list KeyBase.t :=
  match keys with
  | [] => (Ok tt, [])
  | k :: rest =>
    match KeyBase.unlock passphrase k with
    | Ok (_, k') => let r := unlock_keys passphrase rest in (r.1, k' :: r.2)
    | Throw e => (Throw e, k :: rest)
    | Stop w => (Stop w, k :: rest)
    end
  end.

Definition lock (passphrase : bytes) : M t unit :=
  km ← get;
  match m_lock_provider km with
  | None => stop aborted
  | Some lp =>
    if m_locked km then throw (runtime_error "Agent is already locked")
    else
      lp' ← lift (provider_store passphrase lp);
      _ ← modify (set_lock_provider (Some lp'));
      _ ← (λ km, let r := lock_keys passphrase (m_keys km) in (r.1, set_keys r.2 km));
      _ ← modify (emit onLocked);
      modify (set_locked true)
  end.

(** [m_failed_attempts++] on a [size_t]. *)
Definition incr_failed_attempts (km : t) : t :=
  set_failed_attempts ((m_failed_attempts km + 1) mod 2 ^ 64) km.

(** [floor(pow(1.8, n))], computed on the rationals: 1.8 = 18/10. The
    [double] that [pow] returns has this floor for every [n] up to 36,
    and is above [INT_MAX] from 37 on, as this quotient is. *)
Definition floor_pow_1_8 (n : Z) : Z := 18 ^ n / 10 ^ n.

(** [static_cast<int>(x)] of a floating-point value that is whole: the
    behaviour is undefined when [int] cannot represent it. *)
Definition static_cast_int (x : Z) : result Z :=
  if decide (INT_MIN <= x <= INT_MAX) then Ok x else Undefined.

(** [unlock(passphrase)]. The clock is read at the throttle test ([now])
    and once more ([now']) on the path taken: for the text of the
    throttle error, or in the handler of a failed attempt. *)
Definition unlock (passphrase : bytes) (now now' : Z) : M t unit :=
  km ← get;
  if negb (m_locked km) then throw (runtime_error "Agent is not locked")
  else
    match m_lock_provider km with
    | None => stop aborted
    | Some lp =>
      if decide (now < m_locked_until km) then
        _ ← modify incr_failed_attempts;
        throw (runtime_error_fmt
                 "Too many failed unlock attempts, please wait {} seconds before retrying"
                 (to_seconds (m_locked_until km - now')))
      else
        _ ← try_catch
              (ok ← lift (provider_verify passphrase lp);
               if negb ok then throw (runtime_error "Incorrect passphrase")
               else λ km, let r := unlock_keys passphrase (m_keys km) in
                          (r.1, set_keys r.2 km))
              (λ e,
                 _ ← modify incr_failed_attempts;
                 km' ← get;
                 _ ← (if decide (m_failed_attempts km' > 2) then
                        wait_time ← lift (static_cast_int
                                            (floor_pow_1_8 (m_failed_attempts km')));
                        modify (set_locked_until (now' + wait_time * ticks_per_second))
                      else mret tt);
                 throw e);
        _ ← modify (emit onUnlocked);
        _ ← modify (set_locked false);
        modify (set_failed_attempts 0)
    end.

Definition setLockProvider (provider : option lock_state) (km : t) : t :=
  set_lock_provider provider km.

End WithProviders.

Arguments t {_ _}.
Arguments Event {_}.

End KeyManager.

(** ** src/agent/session.cpp *)

Module Session.
Import RestrictDestination SessionState KeyBase Extension Message.

(** The virtual members of [Session] that the embedder implements.
    [send] is the remaining one: the frames it is given are recorded in
    [outbox]. *)
Class Embedder `{KeyProvider} : Type := {
  confirmRequest : KeyBase.t → bool;
  requiresConfirmation : KeyBase.t → bool;
  processExtensionMessage : ExtensionMessage.t → result bool
}.

Section WithEnvironment.
Context `{KeyProvider} `{LockProvider} `{!Embedder}.

(** The two process-wide registries, as they stand after start-up. *)
Context (kf : KeyFactory.t) (ef : ExtensionFactory).

(** What a request works on: the process-wide [KeyManager] and the
    session ([*this]). *)
Record World : Type := mkWorld {
  km : KeyManager.t;
  self : SessionState.t
}.

Definition on_km {A} (m : M KeyManager.t A) : M World A := λ w,
  let r := m (km w) in (r.1, mkWorld r.2 (self w)).

Definition modify_self (f : SessionState.t → SessionState.t) : M World unit :=
  modify (λ w, mkWorld (km w) (f (self w))).

Definition set_bindings (bs : list SessionBinding) (s : SessionState.t) : SessionState.t :=
  SessionState.mk bs (m_match_info s) (m_async_operation s) (m_binding_failed s)
    (m_temp_buffer s) (m_waiting_for_confirmation s) (m_waiting_for_key_selection s)
    (m_confirmation_thread s) (m_key_selection_thread s) (m_is_forwarded s) (outbox s).
Definition set_match_info (mi : MatchInfo) (s : SessionState.t) : SessionState.t :=
  SessionState.mk (m_session_bindings s) mi (m_async_operation s) (m_binding_failed s)
    (m_temp_buffer s) (m_waiting_for_confirmation s) (m_waiting_for_key_selection s)
    (m_confirmation_thread s) (m_key_selection_thread s) (m_is_forwarded s) (outbox s).
Definition set_binding_failed (b : bool) (s : SessionState.t) : SessionState.t :=
  SessionState.mk (m_session_bindings s) (m_match_info s) (m_async_operation s) b
    (m_temp_buffer s) (m_waiting_for_confirmation s) (m_waiting_for_key_selection s)
    (m_confirmation_thread s) (m_key_selection_thread s) (m_is_forwarded s) (outbox s).
Definition set_temp_buffer (buf : bytes) (s : SessionState.t) : SessionState.t :=
  SessionState.mk (m_session_bindings s) (m_match_info s) (m_async_operation s)
    (m_binding_failed s) buf
    (m_waiting_for_confirmation s) (m_waiting_for_key_selection s)
    (m_confirmation_thread s) (m_key_selection_thread s) (m_is_forwarded s) (outbox s).
Definition set_waiting_for_confirmation (b : bool) (s : SessionState.t) : SessionState.t :=
  SessionState.mk (m_session_bindings s) (m_match_info s) (m_async_operation s)
    (m_binding_failed s) (m_temp_buffer s) b (m_waiting_for_key_selection s)
    (m_confirmation_thread s) (m_key_selection_thread s) (m_is_forwarded s) (outbox s).
Definition set_waiting_for_key_selection (b : bool) (s : SessionState.t) : SessionState.t :=
  SessionState.mk (m_session_bindings s) (m_match_info s) (m_async_operation s)
    (m_binding_failed s) (m_temp_buffer s) (m_waiting_for_confirmation s) b
    (m_confirmation_thread s) (m_key_selection_thread s) (m_is_forwarded s) (outbox s).
Definition set_confirmation_thread (t : thread) (s : SessionState.t) : SessionState.t :=
  SessionState.mk (m_session_bindings s) (m_match_info s) (m_async_operation s)
    (m_binding_failed s) (m_temp_buffer s) (m_waiting_for_confirmation s)
    (m_waiting_for_key_selection s)
    t (m_key_selection_thread s) (m_is_forwarded s) (outbox s).
Definition set_key_selection_thread (t : thread) (s : SessionState.t) : SessionState.t :=
  SessionState.mk (m_session_bindings s) (m_match_info s) (m_async_operation s)
    (m_binding_failed s) (m_temp_buffer s) (m_waiting_for_confirmation s)
    (m_waiting_for_key_selection s)
    (m_confirmation_thread s) t (m_is_forwarded s) (outbox s).
Definition set_is_forwarded (b : bool) (s : SessionState.t) : SessionState.t :=
  SessionState.mk (m_session_bindings s) (m_match_info s) (m_async_operation s)
    (m_binding_failed s) (m_temp_buffer s) (m_waiting_for_confirmation s)
    (m_waiting_for_key_selection s)
    (m_confirmation_thread s) (m_key_selection_thread s) b (outbox s).
Definition set_outbox (frames : list bytes) (s : SessionState.t) : SessionState.t :=
  SessionState.mk (m_session_bindings s) (m_match_info s) (m_async_operation s)
    (m_binding_failed s) (m_temp_buffer s) (m_waiting_for_confirmation s)
    (m_waiting_for_key_selection s)
    (m_confirmation_thread s) (m_key_selection_thread s) (m_is_forwarded s) frames.

(** [send(data)]: the embedder's transport write; its result is not
    looked at. *)
Definition send (data_ : bytes) : M World unit :=
  modify_self (λ s, set_outbox (outbox s ++ [data_]) s).

Definition successResponse : M World unit :=
  response ← lift (Message.serialize SSH_AGENT_SUCCESS); send response.

Definition failureResponse : M World unit :=
  response ← lift (Message.serialize SSH_AGENT_FAILURE); send response.

(** [processAddIdentity(msg)], when the clock reads [now]. *)
Definition processAddIdentity (now : Z) (msg : Message.t) : M World bool :=
  try_catch
    (add_msg ← lift (AddIdentityMessage.of_message ef kf msg);
     _ ← on_km (KeyManager.addKey_message kf now add_msg);
     _ ← successResponse;
     mret true)
    (λ e, _ ← failureResponse; mret false).

Definition processRemoveAllIdentity : M World unit :=
  _ ← on_km KeyManager.removeAllKeys; successResponse.

Definition processRemoveIdentity (msg : Message.t) : M World bool :=
  try_catch
    (remove_msg ← lift (RemoveIdentityMessage.of_message msg);
     _ ← on_km (KeyManager.removeKey (RemoveIdentityMessage.m_key_blob remove_msg));
     _ ← successResponse;
     mret true)
    (λ e, _ ← failureResponse; mret false).

(** The body of the [try] block of [processSignRequest]; [false] is the
    early [return false] of a declined confirmation. *)
Definition processSignRequest_try (msg : Message.t) : M World bool :=
  sign_msg ← lift (SignRequestMessage.of_message msg);
  w ← get;
  match KeyManager.getKey (SignRequestMessage.m_key_blob sign_msg) (km w) with
  | None => throw (runtime_error "Key not found for signing")
  | Some key_ =>
    _ ← (if decide (destConstraints key_ ≠ []) then
           if decide (m_session_bindings (self w) = [])
           then throw (runtime_error "Session has no bindings")
           else
             userauth_msg ← lift (UserAuthRequestMessage.of_bytes
                                    (SignRequestMessage.m_data_sign sign_msg));
             let r := permitted key_ (self w)
                        (UserAuthRequestMessage.username userauth_msg)
                        (Some (m_match_info (self w))) in
             _ ← modify_self (set_match_info (default (m_match_info (self w)) r.2));
             if negb r.1
             then throw (runtime_error "Key not permitted by destination constraints")
             else if decide (Some (UserAuthRequestMessage.sessionId userauth_msg)
                             ≠ session_id <$> last (m_session_bindings (self w)))
             then throw (runtime_error "Session ID does not match any session bindings")
             else mret tt
         else mret tt);
    if (confirmRequired key_ || requiresConfirmation key_) && negb (confirmRequest key_)
    then
      _ ← on_km (modify (KeyManager.emit (KeyManager.onKeyDeclined key_)));
      _ ← failureResponse;
      _ ← modify_self (λ s, set_match_info (MatchInfo_clear (m_match_info s)) s);
      mret false
    else
      signature ← lift (sign key_ (SignRequestMessage.m_data_sign sign_msg)
                             (SignRequestMessage.m_flags sign_msg));
      _ ← on_km (modify (KeyManager.emit (KeyManager.onKeyUsed key_)));
      _ ← modify_self (λ s, set_match_info (MatchInfo_clear (m_match_info s)) s);
      response ← lift (SignResponseMessage.serialize signature);
      _ ← send response;
      mret true
  end.

Definition processSignRequest (msg : Message.t) : M World bool :=
  try_catch (processSignRequest_try msg)
            (λ e, _ ← failureResponse; mret false).

Definition processRequestIdentities (msg : Message.t) : M World unit :=
  w ← get;
  let items := KeyManager.listKeys (self w) (km w) in
  response ← lift (IdentitiesAnswerMessage.serialize
                     ((λ item, (KeyManager.item_blob item, KeyManager.item_comment item))
                        <$> items));
  send response.

(** The body of the [try] block of [processExtension]. *)
Definition processExtension_try (msg : Message.t) : M World bool :=
  ext_msg ← lift (ExtensionMessage.of_message ef kf msg);
  consumed ← lift (processExtensionMessage ext_msg);
  if (consumed : bool) then _ ← successResponse; mret true
  else if decide (ExtensionMessage.extensionName ext_msg ≠ "session-bind@openssh.com")
  then _ ← failureResponse; mret false
  else
    match ExtensionMessage.extension ext_msg with
    | Some (OpenSSHSessionBind hostKey sessionID _ forwarded_) =>
      _ ← modify_self (λ s, set_is_forwarded (m_is_forwarded s || forwarded_) s);
      _ ← modify_self (λ s, set_bindings
                             (m_session_bindings s
                              ++ [mkBinding hostKey sessionID forwarded_]) s);
      _ ← successResponse;
      mret true
    | _ => throw (runtime_error "Invalid extension type")
    end.

Definition processExtension (msg : Message.t) : M World bool :=
  try_catch (processExtension_try msg)
            (λ e,
               _ ← modify_self (set_binding_failed true);
               _ ← modify_self (set_bindings []);
               _ ← failureResponse;
               mret false).

Definition processLock (msg : Message.t) : M World bool :=
  try_catch
    (lock_msg ← lift (LockMessageBase.of_message SSH_AGENTC_LOCK msg);
     _ ← on_km (KeyManager.lock (LockMessageBase.m_password lock_msg));
     _ ← successResponse;
     mret true)
    (λ e, _ ← failureResponse; mret false).

(** [processUnlock(msg)], with the two clock readings of
    [KeyManager::unlock]. *)
Definition processUnlock (now now' : Z) (msg : Message.t) : M World bool :=
  try_catch
    (unlock_msg ← lift (LockMessageBase.of_message SSH_AGENTC_UNLOCK msg);
     _ ← on_km (KeyManager.unlock (LockMessageBase.m_password unlock_msg) now now');
     _ ← successResponse;
     mret true)
    (λ e, _ ← failureResponse; mret false).

(** The function of the thread that a sign request starts, on its copy
    of the request. *)
Definition confirmation_thread (msg_data : bytes) : M World unit :=
  in_thread
    (_ ← modify_self (set_waiting_for_confirmation true);
     msg ← lift (Message.of_bytes msg_data);
     _ ← processSignRequest msg;
     modify_self (set_waiting_for_confirmation false)).

(** The function of the thread that a request for the identities
    starts. *)
Definition key_selection_thread (msg_data : bytes) : M World unit :=
  in_thread
    (_ ← modify_self (set_waiting_for_key_selection true);
     msg ← lift (Message.of_bytes msg_data);
     _ ← processRequestIdentities msg;
     modify_self (set_waiting_for_key_selection false)).

(** [m_confirmation_thread = std::thread(...)]: the move assignment to a
    thread object that is joinable calls [std::terminate]. *)
Definition assign_confirmation_thread (msg_data : bytes) : M World unit :=
  w ← get;
  if joinable (m_confirmation_thread (self w)) then stop aborted
  else modify_self (set_confirmation_thread (started msg_data)).

Definition assign_key_selection_thread (msg_data : bytes) : M World unit :=
  w ← get;
  if joinable (m_key_selection_thread (self w)) then stop aborted
  else modify_self (set_key_selection_thread (started msg_data)).

(** The thread runs: its function is taken as one step, from its first
    statement to its return. The bytes of the request "should not get
    out of scope until processing is done because socket should be
    blocked", says the source: the reader is expected to hand no other
    request of the session to [process] in between. *)
Definition run_confirmation_thread : M World unit :=
  w ← get;
  match m_confirmation_thread (self w) with
  | started msg_data =>
    _ ← confirmation_thread msg_data;
    modify_self (set_confirmation_thread finished)
  | _ => mret tt
  end.

Definition run_key_selection_thread : M World unit :=
  w ← get;
  match m_key_selection_thread (self w) with
  | started msg_data =>
    _ ← key_selection_thread msg_data;
    modify_self (set_key_selection_thread finished)
  | _ => mret tt
  end.

(** [m_confirmation_thread.join()]: waits until the function of the
    thread has returned; the object is not joinable afterwards. *)
Definition join_confirmation_thread : M World unit :=
  w ← get;
  if joinable (m_confirmation_thread (self w)) then
    _ ← run_confirmation_thread;
    modify_self (set_confirmation_thread not_a_thread)
  else throw (system_error "Invalid argument").

Definition join_key_selection_thread : M World unit :=
  w ← get;
  if joinable (m_key_selection_thread (self w)) then
    _ ← run_key_selection_thread;
    modify_self (set_key_selection_thread not_a_thread)
  else throw (system_error "Invalid argument").

(** [~Session()]: the only other place where the threads are joined. *)
Definition destructor : M World unit :=
  w ← get;
  _ ← (if joinable (m_confirmation_thread (self w))
       then join_confirmation_thread else mret tt);
  w' ← get;
  if joinable (m_key_selection_thread (self w'))
  then join_key_selection_thread else mret tt.

(** [processReal(data, length)]. A sign request and a request for the
    identities are given to a thread each; the call waits for that
    thread only when [m_async_operation] is off, and otherwise returns
    while the request is still to be worked on. [now] and [now'] are the
    clock readings a request may take. *)
Definition processReal (now now' : Z) (data_ : bytes) : M World bool :=
  msg ← lift (Message.of_bytes data_);
  w ← get;
  let ty := Message.type msg in
  if KeyManager.isLocked (km w) && negb (bool_decide (ty = SSH_AGENTC_UNLOCK))
  then _ ← failureResponse; mret false
  else if bool_decide (ty = SSH_AGENTC_ADD_IDENTITY)
          || bool_decide (ty = SSH_AGENTC_ADD_IDENTITY_CONSTRAINED)
  then processAddIdentity now msg
  else if decide (ty = SSH_AGENTC_REMOVE_IDENTITY)
  then processRemoveIdentity msg
  else if decide (ty = SSH_AGENTC_REMOVE_ALL_IDENTITIES)
  then _ ← processRemoveAllIdentity; mret true
  else if decide (ty = SSH_AGENTC_SIGN_REQUEST)
  then
    if m_waiting_for_confirmation (self w)
    then throw (logic_error "Multiple connections using single Session instance")
    else
      _ ← assign_confirmation_thread data_;
      _ ← (if negb (m_async_operation (self w))
           then join_confirmation_thread else mret tt);
      mret true
  else if decide (ty = SSH_AGENTC_REQUEST_IDENTITIES)
  then
    if m_waiting_for_key_selection (self w)
    then throw (logic_error "Multiple connections using single Session instance")
    else
      _ ← assign_key_selection_thread data_;
      _ ← (if negb (m_async_operation (self w))
           then join_key_selection_thread else mret tt);
      mret true
  else if decide (ty = SSH_AGENTC_EXTENSION)
  then processExtension msg
  else if decide (ty = SSH_AGENTC_LOCK)
  then processLock msg
  else if decide (ty = SSH_AGENTC_UNLOCK)
  then processUnlock now now' msg
  else if decide (ty = SSH_AGENTC_REMOVE_ALL_RSA_IDENTITIES)
  then _ ← processRemoveAllIdentity; mret true
  else _ ← failureResponse; mret false.

(** [process(data, length)]. *)
Definition process (now now' : Z) (data_ : bytes) : M World bool :=
  w ← get;
  if decide (m_temp_buffer (self w) ≠ []) then
    _ ← modify_self (λ s, set_temp_buffer (m_temp_buffer s ++ data_) s);
    w' ← get;
    result_ ← processReal now now' (m_temp_buffer (self w'));
    _ ← modify_self (set_temp_buffer []);
    mret result_
  else if decide (Z.of_nat (length data_) < 5) then
    _ ← modify_self (λ s, set_temp_buffer (m_temp_buffer s ++ data_) s);
    mret true
  else processReal now now' data_.

(** The session after it handed [frame] to [send], all else as before. *)
Definition replied (frame : bytes) (w : World) : World :=
  mkWorld (km w) (set_outbox (outbox (self w) ++ [frame]) (self w)).

(** The session after the handler of [processExtension] ran: the flag
    set, the bindings gone. *)
Definition poisoned (w : World) : World :=
  mkWorld (km w) (set_bindings [] (set_binding_failed true (self w))).

(** The session after [processExtension] took the binding [b]: the
    binding is the last of the list, and the session counts as
    forwarded once a binding was. *)
Definition bound (b : SessionBinding) (w : World) : World :=
  mkWorld (km w)
    (set_bindings (m_session_bindings (self w) ++ [b])
       (set_is_forwarded (m_is_forwarded (self w) || forwarded b) (self w))).

(** The session with [m_confirmation_thread] in the state [t], or
    [m_key_selection_thread], all else as before. *)
Definition with_confirmation_thread (t : thread) (w : World) : World :=
  mkWorld (km w) (set_confirmation_thread t (self w)).
Definition with_key_selection_thread (t : thread) (w : World) : World :=
  mkWorld (km w) (set_key_selection_thread t (self w)).

(** The session's [binding_failed] flag is set. *)
Definition failed (w : World) : Prop := m_binding_failed (self w) = true.

(** The session works asynchronously, and its sign thread was started
    and has not been joined. *)
Definition unjoined (w : World) : Prop :=
  m_async_operation (self w) = true
  ∧ joinable (m_confirmation_thread (self w)) = true.

(** What happens to a session, seen from outside: its reader hands the
    bytes it received to [process], with the clock readings of that
    moment, or one of its two threads runs. *)
Inductive event : Type :=
| receives (now now' : Z) (data_ : bytes)
| confirmation_thread_runs
| key_selection_thread_runs.

Definition step (ev : event) : M World unit :=
  match ev with
  | receives now now' data_ => _ ← process now now' data_; mret tt
  | confirmation_thread_runs => run_confirmation_thread
  | key_selection_thread_runs => run_key_selection_thread
  end.

(** A run of the session under an embedder that catches what [process]
    throws and reads on. The run is over when the process is: there is
    no session after [std::terminate] or undefined behaviour. *)
Fixpoint feed (events : list event) (w : World) : result World :=
  match events with
  | [] => Ok w
  | ev :: rest =>
    match step ev w with
    | (Stop why, _) => Stop why
    | (_, w') => feed rest w'
    end
  end.

End WithEnvironment.

Arguments World {_ _}.

(** The frame of a [FailureMessage]: length 1, type 5. *)
Definition failure_frame : bytes := [x00; x00; x00; x01; x05].
(** The frame of a [SuccessMessage]: length 1, type 6. *)
Definition success_frame : bytes := [x00; x00; x00; x01; x06].

End Session.

(** ** Stand-ins for the embedder's parts, as the unit tests use them *)

Module Examples.
Import RestrictDestination SessionState KeyBase.

(** A provider whose private half is a byte string and whose signature
    is the private half followed by the data. *)
Definition test_provider : KeyProvider :=
  {| priv_key := bytes;
     provider_sign := λ p data_ _, Ok (p ++ data_);
     provider_lock := λ _ p, Ok p;
     provider_unlock := λ _ p, Ok (true, p);
     fingerprint_of_blob := String.string_of_list_byte |}.

(** A lock provider that keeps the passphrase itself as the verifier. *)
Definition test_lock_provider : LockProvider :=
  {| lock_state := option bytes;
     provider_store := λ pw _, Ok (Some pw);
     provider_verify := λ pw st, Ok (bool_decide (st = Some pw)) |}.

(** The [DummySession] of tests/unit/key/key_manager_test.cpp. *)
Definition dummy_session : @Session.Embedder test_provider :=
  {| Session.confirmRequest := λ _, true;
     Session.requiresConfirmation := λ _, false;
     Session.processExtensionMessage := λ _, Ok false |}.

(** A Botan stand-in that accepts every scalar and every point, and
    every signature. *)
Definition test_botan : @ECDSAKey.Botan test_provider :=
  {| ECDSAKey.EC_Scalar_deserialize := λ _ scalar, Some scalar;
     ECDSAKey.ECDSA_PrivateKey := λ _ (scalar : bytes), scalar : @priv_key test_provider;
     ECDSAKey.EC_AffinePoint_valid := λ _ _, true;
     ECDSAKey.PK_Verifier_verify := λ _ _ _ _ _ _, true |}.

Definition host_A : bytes := [x01; x02].
Definition host_B : bytes := [x03; x04].

(** A constraint "from anywhere to hostA". *)
Definition to_host_A : OpenSSHSDestinationConstraint :=
  mkConstraint (mkHop "" "" []) (mkHop "" "hostA" [mkHopKey host_A false]).

(** A key with no constraint, and the same key restricted to hostA. *)
Definition plain_key : @KeyBase.t test_provider :=
  @KeyBase.mk test_provider "k1"
    (Some (mkPub [x6b; x31] "test" (λ _ _, Ok true))) 0 0 [] false "test" [x07].
Definition restricted_key : @KeyBase.t test_provider :=
  @setDestConstraints test_provider [to_host_A] plain_key.

Definition session_with (bindings : list SessionBinding) (failed : bool) : SessionState.t :=
  SessionState.mk bindings (mkMatchInfo "" "" "") true failed [] false false
    not_a_thread not_a_thread false [].

(** A key factory that knows one public key type, "test", whose keys
    accept no signature. *)
Definition rejecting_factory : @KeyFactory.t test_provider :=
  @KeyFactory.mk test_provider ∅ ∅ ∅
    {[ "test" := λ blob, Ok (mkPub blob "test" (λ _ _, Ok false)) ]}.

(** An unlocked agent that holds [restricted_key], with a session bound
    to hostA. *)
Definition bound_world : @Session.World test_provider test_lock_provider :=
  Session.mkWorld
    (@KeyManager.set_keys test_provider test_lock_provider [restricted_key]
       (KeyManager.init 0))
    (session_with [mkBinding host_A [x01] false] false).

(** A session-bind request for a "test" host key, session id 01, with a
    signature (that the key will not accept). *)
Definition test_host_key : bytes :=
  Serializer.string_bytes "test" ++ Serializer.blob_bytes [] ++ [].
Definition test_signature : bytes :=
  Serializer.string_bytes "test" ++ Serializer.blob_bytes [x00] ++ [].
Definition bad_session_bind : bytes :=
  ExtensionMessage.frame 0 "session-bind@openssh.com"
    (ExtensionMessage.session_bind_body test_host_key [x01] test_signature x00).

(** A key factory that knows one public key type, "test", whose keys
    accept every signature. *)
Definition accepting_factory : @KeyFactory.t test_provider :=
  @KeyFactory.mk test_provider ∅ ∅ ∅
    {[ "test" := λ blob, Ok (mkPub blob "test" (λ _ _, Ok true)) ]}.

(** The built-in extensions and one of the embedder's, "query", whose
    body is empty. *)
Definition query_factory : @Extension.ExtensionFactory test_provider :=
  Extension.registerMessageExtension "query"
    (Some (λ _, mret (Extension.EmbedderExtension "query" [])))
    Extension.initializeExtensions.

(** An agent locked with the passphrase 70 when the clock reads 0. *)
Definition locked_agent : @KeyManager.t test_provider test_lock_provider :=
  (@KeyManager.lock test_provider test_lock_provider [x70]
     (@KeyManager.setLockProvider test_provider test_lock_provider (Some None)
        (KeyManager.init 0))).2.

(** The agent after [n] calls of [unlock] with the passphrase 71, each
    made while the clock reads 0. *)
Fixpoint after_wrong_attempts (n : nat)
    (km : @KeyManager.t test_provider test_lock_provider)
  : @KeyManager.t test_provider test_lock_provider :=
  match n with
  | O => km
  | S n' => after_wrong_attempts n'
              (@KeyManager.unlock test_provider test_lock_provider [x71] 0 0 km).2
  end.

(** The key factory after the ECDSA family registered itself. *)
Definition ecdsa_factory : @KeyFactory.t test_provider :=
  match @ECDSAKey.registered test_provider test_botan with
  | Ok kf => kf
  | _ => KeyFactory.empty
  end.

(** The private blob of an ECDSA key on the curve nistp384: the curve
    name, the public point, the private scalar. *)
Definition nistp384_key_blob : bytes :=
  Serializer.string_bytes "nistp384" ++ Serializer.blob_bytes [x04; x0a; x0b]
  ++ Serializer.blob_bytes [x01].

(** A sign request for [restricted_key], over no data. *)
Definition sign_with_restricted_key : bytes :=
  Serializer.be32_bytes 0 ++ [Message.SSH_AGENTC_SIGN_REQUEST]
  ++ Serializer.blob_bytes [x6b; x31] ++ Serializer.blob_bytes []
  ++ Serializer.be32_bytes 0.

End Examples.

(* ===================================================================== *)
(** * Part II: statements and proofs                                      *)
(* ===================================================================== *)

(** ** Sequencing in the state monad *)

Module MonadFacts.

Lemma M_bind_eq {S A B} (m : M S A) (f : A → M S B) (s : S) :
  (m ≫= f) s
  = match m s with
    | (Ok a, s') => f a s'
    | (Throw e, s') => (Throw e, s')
    | (Stop w, s') => (Stop w, s')
    end.
Proof. reflexivity. Qed.

Lemma M_bind_lift_Ok {S A B} (r : result A) (f : A → M S B) (s : S) (a : A) :
  r = Ok a → (lift r ≫= f) s = f a s.
Proof. intros ->. reflexivity. Qed.

Lemma M_bind_lift_Throw {S A B} (r : result A) (f : A → M S B) (s : S) (e : exn) :
  r = Throw e → (lift r ≫= f) s = (Throw e, s).
Proof. intros ->. reflexivity. Qed.

Lemma M_bind_get {S B} (f : S → M S B) (s : S) : (get ≫= f) s = f s s.
Proof. reflexivity. Qed.

Lemma M_bind_modify {S B} (g : S → S) (f : unit → M S B) (s : S) :
  (modify g ≫= f) s = f tt (g s).
Proof. reflexivity. Qed.

Lemma M_bind_throw {S A B} (e : exn) (f : A → M S B) (s : S) :
  (throw e ≫= f) s = (Throw e, s).
Proof. reflexivity. Qed.

Lemma M_bind_ret {S A B} (a : A) (f : A → M S B) (s : S) :
  (mret a ≫= f) s = f a s.
Proof. reflexivity. Qed.

Lemma try_catch_eq {S A} (body : M S A) (handler : exn → M S A) (s : S) :
  try_catch body handler s
  = match body s with
    | (Ok a, s') => (Ok a, s')
    | (Throw e, s') => handler e s'
    | (Stop w, s') => (Stop w, s')
    end.
Proof. unfold try_catch. destruct (body s) as [[a|e|w] s']; reflexivity. Qed.

(** *** Properties that every step keeps *)

Section Preserves.
Context {S : Type} (P : S → Prop).

Lemma preserves_ret {A} (a : A) : preserves P (mret a : M S A).
Proof. intros s Hs. exact Hs. Qed.

Lemma preserves_throw {A} (e : exn) : preserves P (throw e : M S A).
Proof. intros s Hs. exact Hs. Qed.

Lemma preserves_stop {A} (w : halt) : preserves P (stop w : M S A).
Proof. intros s Hs. exact Hs. Qed.

Lemma preserves_lift {A} (r : result A) : preserves P (lift r : M S A).
Proof. intros s Hs. exact Hs. Qed.

Lemma preserves_get : preserves P (get : M S S).
Proof. intros s Hs. exact Hs. Qed.

Lemma preserves_modify (f : S → S) :
  (∀ s, P s → P (f s)) → preserves P (modify f).
Proof. intros Hf s Hs. now apply Hf. Qed.

Lemma preserves_bind {A B} (m : M S A) (f : A → M S B) :
  preserves P m → (∀ a, preserves P (f a)) → preserves P (m ≫= f).
Proof.
  intros Hm Hf s Hs. rewrite M_bind_eq. specialize (Hm s Hs).
  destruct (m s) as [[a|e|w] s']; cbn in *; [now apply Hf|assumption|assumption].
Qed.

Lemma preserves_try_catch {A} (body : M S A) (handler : exn → M S A) :
  preserves P body → (∀ e, preserves P (handler e)) →
  preserves P (try_catch body handler).
Proof.
  intros Hb Hh s Hs. rewrite try_catch_eq. specialize (Hb s Hs).
  destruct (body s) as [[a|e|w] s']; cbn in *; [assumption|now apply Hh|assumption].
Qed.

Lemma preserves_in_thread {A} (body : M S A) :
  preserves P body → preserves P (in_thread body).
Proof.
  intros Hb s Hs. unfold in_thread. specialize (Hb s Hs).
  destruct (body s) as [[a|e|w] s']; cbn in *; assumption.
Qed.

End Preserves.

End MonadFacts.

(** ** Codec: the length-prefixed blob *)

Module CodecFacts.
Import Serializer Deserializer.

Lemma Z_of_byte_of_Z (z : Z) : 0 <= z < 256 → Z_of_byte (byte_of_Z z) = z.
Proof.
  intros Hz. unfold Z_of_byte, byte_of_Z.
  rewrite Z.mod_small by lia.
  destruct (Byte.of_N (Z.to_N z)) as [b|] eqn:Hb.
  - apply Byte.to_of_N in Hb. simpl. rewrite Hb. lia.
  - apply Byte.of_N_None_iff in Hb. lia.
Qed.

Lemma Z_of_byte_range (b : byte) : 0 <= Z_of_byte b < 256.
Proof.
  unfold Z_of_byte. pose proof (Byte.to_N_bounded b). lia.
Qed.

Lemma land_255_range (z : Z) : 0 <= Z.land z 255 < 256.
Proof.
  change 255 with (Z.ones 8). rewrite Z.land_ones by lia.
  apply Z.mod_pos_bound. lia.
Qed.

Lemma testbit_255 (n : Z) : 0 <= n → Z.testbit 255 n = bool_decide (n < 8).
Proof.
  intros Hn. change 255 with (Z.ones 8).
  case_bool_decide.
  - apply Z.ones_spec_low. lia.
  - apply Z.ones_spec_high. lia.
Qed.

Lemma testbit_byte_at (v k n : Z) :
  0 <= k → 0 <= n →
  Z.testbit (Z.shiftl (Z.land (Z.shiftr v k) 255) k) n
  = Z.testbit v n && bool_decide (k <= n < k + 8).
Proof.
  intros Hk Hn. rewrite Z.shiftl_spec by lia.
  destruct (decide (n < k)) as [Hlt|Hge].
  - rewrite Z.testbit_neg_r by lia.
    rewrite bool_decide_eq_false_2 by lia. now rewrite andb_false_r.
  - rewrite Z.land_spec, Z.shiftr_spec, testbit_255 by lia.
    replace (n - k + k) with n by lia.
    f_equal. apply bool_decide_ext. lia.
Qed.

Lemma testbit_above_32 (v n : Z) :
  0 <= v < 2 ^ 32 → 32 <= n → Z.testbit v n = false.
Proof.
  intros Hv Hn. destruct (decide (v = 0)) as [->|Hv0].
  - apply Z.testbit_0_l.
  - apply Z.bits_above_log2; [lia|].
    assert (Z.log2 v < 32) by (apply Z.log2_lt_pow2; lia). lia.
Qed.

(** Big-endian packing of the four bytes undoes the four shifts and masks. *)
Lemma be32_pack_unpack (v : Z) :
  0 <= v < 2 ^ 32 →
  Z.lor (Z.lor (Z.lor (Z.shiftl (Z.land (Z.shiftr v 24) 255) 24)
                      (Z.shiftl (Z.land (Z.shiftr v 16) 255) 16))
               (Z.shiftl (Z.land (Z.shiftr v 8) 255) 8))
        (Z.land v 255) = v.
Proof.
  intros Hv. apply Z.bits_inj'. intros n Hn.
  rewrite !Z.lor_spec, !testbit_byte_at by lia.
  rewrite Z.land_spec, testbit_255 by lia.
  destruct (Z.testbit v n) eqn:Hb; [|reflexivity].
  simpl. repeat case_bool_decide; try reflexivity.
  rewrite testbit_above_32 in Hb by lia. discriminate.
Qed.

Lemma readBE32_be32_bytes (v : Z) (rest : bytes) :
  0 <= v < 2 ^ 32 →
  readBE32 (of_bytes (be32_bytes v ++ rest))
  = Ok (v, Deserializer.mk (be32_bytes v ++ rest) 4).
Proof.
  intros Hv. unfold readBE32, of_bytes, m_length, be32_bytes.
  cbn [Deserializer.m_offset Deserializer.m_data app length].
  case_decide; [lia|].
  unfold Deserializer.at_, advance.
  cbn [Deserializer.m_offset Deserializer.m_data].
  change (Z.to_nat 0) with 0%nat. change (Z.to_nat (0 + 1)) with 1%nat.
  change (Z.to_nat (0 + 2)) with 2%nat. change (Z.to_nat (0 + 3)) with 3%nat.
  change (0 + 4) with 4. cbn [lookup list_lookup default from_option id].
  rewrite !Z_of_byte_of_Z by apply land_255_range.
  now rewrite be32_pack_unpack.
Qed.

(** What [writeBlob] appends to an empty serializer. *)
Lemma writeBlob_empty (v : bytes) :
  Z.of_nat (length v) + 4 <= MAX_SERIALIZED_SIZE →
  writeBlob v Serializer.empty
  = Ok (Serializer.mk (be32_bytes (Z.of_nat (length v)) ++ v)).
Proof.
  unfold MAX_SERIALIZED_SIZE. intros Hlen.
  unfold writeBlob, writeBE32, Serializer.size, MAX_SERIALIZED_SIZE. simpl.
  case_decide; [lia|]. simpl.
  unfold to_uint32. rewrite Z.mod_small by lia. reflexivity.
Qed.

(** C7 (as amended): for every byte vector [v] with [|v| + 4 <= 256 KiB],
    [writeBlob] into an empty serializer succeeds and [readBlob] on the
    bytes it produced returns [v], having consumed the whole buffer. *)
Theorem writeBlob_readBlob_roundtrip (v : bytes) :
  Z.of_nat (length v) + 4 <= MAX_SERIALIZED_SIZE →
  ∃ s, writeBlob v Serializer.empty = Ok s
       ∧ readBlob (of_bytes (Serializer.data s))
         = Ok (v, Deserializer.mk (Serializer.data s) (Serializer.size s)).
Proof.
  intros Hlen.
  exists (Serializer.mk (be32_bytes (Z.of_nat (length v)) ++ v)).
  split; [now apply writeBlob_empty|].
  unfold MAX_SERIALIZED_SIZE in Hlen.
  unfold Serializer.data, Serializer.size. cbn [Serializer.m_data].
  unfold readBlob, mbind, Deser_bind.
  rewrite readBE32_be32_bytes by lia.
  unfold take_blob, m_length, range, advance.
  cbn [Deserializer.m_offset Deserializer.m_data].
  rewrite length_app.
  change (length (be32_bytes (Z.of_nat (length v)))) with 4%nat.
  case_decide; [lia|].
  f_equal. f_equal.
  - change (Z.to_nat 4) with 4%nat.
    change (drop 4 (be32_bytes (Z.of_nat (length v)) ++ v)) with v.
    rewrite Nat2Z.id. apply firstn_all.
  - f_equal. lia.
Qed.

(** *** Reading what lies ahead in the buffer *)

Lemma unread_length (d : Deserializer.t) :
  in_bounds d → Z.of_nat (length (unread d)) = m_length d - m_offset d.
Proof.
  intros [Ho Hl]. unfold unread, m_length in *. rewrite length_drop. lia.
Qed.

Lemma unread_lookup (d : Deserializer.t) (j : Z) :
  in_bounds d → 0 <= j →
  Deserializer.m_data d !! Z.to_nat (m_offset d + j) = unread d !! Z.to_nat j.
Proof.
  intros [Ho Hl] Hj. unfold unread. rewrite lookup_drop. f_equal. lia.
Qed.

Lemma unread_advance (d : Deserializer.t) (n : Z) (pre r : bytes) :
  in_bounds d → unread d = pre ++ r → Z.of_nat (length pre) = n →
  in_bounds (advance d n) ∧ unread (advance d n) = r.
Proof.
  intros Hb Hu Hn. pose proof (unread_length d Hb) as Hlen.
  rewrite Hu, length_app in Hlen. destruct Hb as [Ho Hl]. split.
  - unfold in_bounds, advance, m_length in *.
    cbn [m_offset Deserializer.m_data]. lia.
  - unfold unread, advance in *. cbn [m_offset Deserializer.m_data].
    replace (Z.to_nat (m_offset d + n))
      with (Z.to_nat (m_offset d) + length pre)%nat by lia.
    rewrite <- drop_drop, Hu. now rewrite drop_app_length.
Qed.

Lemma of_bytes_in_bounds (data : bytes) :
  in_bounds (of_bytes data) ∧ unread (of_bytes data) = data.
Proof.
  split; [|reflexivity]. unfold in_bounds, of_bytes, m_length. cbn. lia.
Qed.

Lemma reads_BE32 (d : Deserializer.t) (v : Z) (r : bytes) :
  in_bounds d → unread d = be32_bytes v ++ r → 0 <= v < 2 ^ 32 →
  reads readBE32 d v r.
Proof.
  intros Hb Hu Hv. unfold reads, readBE32.
  pose proof (unread_length d Hb) as Hlen. rewrite Hu, length_app in Hlen.
  change (length (be32_bytes v)) with 4%nat in Hlen.
  case_decide; [lia|].
  exists (advance d 4). split; [|split; [reflexivity|]].
  - f_equal. f_equal. unfold Deserializer.at_.
    rewrite <- (Z.add_0_r (m_offset d)) at 1.
    rewrite !unread_lookup, Hu by (assumption || lia). cbn [be32_bytes app].
    change (Z.to_nat 0) with 0%nat. change (Z.to_nat 1) with 1%nat.
    change (Z.to_nat 2) with 2%nat. change (Z.to_nat 3) with 3%nat.
    cbn [lookup list_lookup default from_option id].
    rewrite !Z_of_byte_of_Z by apply land_255_range.
    now apply be32_pack_unpack.
  - now apply (unread_advance d 4 (be32_bytes v) r).
Qed.

Lemma reads_byte (d : Deserializer.t) (b : byte) (r : bytes) :
  in_bounds d → unread d = b :: r → reads readByte d b r.
Proof.
  intros Hb Hu. unfold reads, readByte.
  pose proof (unread_length d Hb) as Hlen. rewrite Hu in Hlen. cbn [length] in Hlen.
  case_decide; [lia|].
  exists (advance d 1). split; [|split; [reflexivity|]].
  - f_equal. f_equal. rewrite <- (Z.add_0_r (m_offset d)).
    rewrite unread_lookup, Hu by (assumption || lia). reflexivity.
  - now apply (unread_advance d 1 [b] r).
Qed.

Lemma reads_take_blob (what : string) (d : Deserializer.t) (v r : bytes) :
  in_bounds d → unread d = v ++ r →
  reads (take_blob what (Z.of_nat (length v))) d v r.
Proof.
  intros Hb Hu. unfold reads, take_blob.
  pose proof (unread_length d Hb) as Hlen. rewrite Hu, length_app in Hlen.
  case_decide; [lia|].
  exists (advance d (Z.of_nat (length v))). split; [|split; [reflexivity|]].
  - f_equal. f_equal. unfold range. fold (unread d). rewrite Hu, Nat2Z.id.
    now rewrite take_app_length.
  - now apply (unread_advance d (Z.of_nat (length v)) v r).
Qed.

(** Sequencing: after a successful read the rest of the reader runs on
    the advanced deserializer. *)
Lemma reads_bind {A B} (p : Deser A) (f : A → Deser B)
    (d : Deserializer.t) (v : A) (r : bytes) :
  reads p d v r →
  ∃ d', (p ≫= f) d = f v d' ∧ Deserializer.m_data d' = Deserializer.m_data d
        ∧ in_bounds d' ∧ unread d' = r.
Proof.
  intros (d' & Hp & Hdata & Ho & Hu). exists d'.
  unfold mbind, Deser_bind. rewrite Hp. auto.
Qed.

Lemma Deser_bind_Ok {A B} (p : Deser A) (f : A → Deser B)
    (d d' : Deserializer.t) (v : A) :
  p d = Ok (v, d') → (p ≫= f) d = f v d'.
Proof. intros Hp. unfold mbind, Deser_bind. now rewrite Hp. Qed.

Lemma Deser_bind_Throw {A B} (p : Deser A) (f : A → Deser B)
    (d : Deserializer.t) (e : exn) :
  p d = Throw e → (p ≫= f) d = Throw e.
Proof. intros Hp. unfold mbind, Deser_bind. now rewrite Hp. Qed.

(** *** Readers that always return or throw *)

Lemma total_ret {A} (a : A) : total (mret a : Deser A).
Proof. intros d w. discriminate. Qed.

Lemma total_throw {A} (e : exn) : total (Deserializer.throw e : Deser A).
Proof. intros d w. discriminate. Qed.

Lemma total_bind {A B} (p : Deser A) (f : A → Deser B) :
  total p → (∀ a, total (f a)) → total (p ≫= f).
Proof.
  intros Hp Hf d w. unfold mbind, Deser_bind.
  destruct (p d) as [[a d']|e|w'] eqn:Hpd; [apply Hf|discriminate|].
  now apply Hp in Hpd.
Qed.

Lemma total_fmap {A B} (g : A → B) (p : Deser A) : total p → total (g <$> p).
Proof.
  intros Hp d w. unfold fmap, Deser_fmap.
  destruct (p d) as [[a d']|e|w'] eqn:Hpd; [discriminate|discriminate|].
  now apply Hp in Hpd.
Qed.

Lemma total_readBE32 : total readBE32.
Proof. intros d w. unfold readBE32. case_decide; discriminate. Qed.

Lemma total_readByte : total readByte.
Proof. intros d w. unfold readByte. case_decide; discriminate. Qed.

Lemma total_take_blob (what : string) (len : Z) : total (take_blob what len).
Proof. intros d w. unfold take_blob. case_decide; discriminate. Qed.

Lemma total_readBlob : total readBlob.
Proof.
  apply total_bind; [apply total_readBE32|]. intros len. apply total_take_blob.
Qed.

Lemma total_readString : total readString.
Proof. apply total_fmap, total_readBlob. Qed.

Lemma total_parse {A} (p : Deser A) (data : bytes) (w : halt) :
  total p → parse p data ≠ Stop w.
Proof.
  intros Hp. unfold parse.
  destruct (p (Deserializer.of_bytes data)) as [[a d']|e|w'] eqn:Hpd;
    [discriminate|discriminate|].
  now apply Hp in Hpd.
Qed.

Lemma reads_blob (d : Deserializer.t) (v r : bytes) :
  in_bounds d → unread d = blob_bytes v ++ r →
  Z.of_nat (length v) < 2 ^ 32 →
  reads readBlob d v r.
Proof.
  intros Hb Hu Hv. unfold blob_bytes in Hu. rewrite <- app_assoc in Hu.
  destruct (reads_bind readBE32 (take_blob "Not enough data to read blob") d
              (Z.of_nat (length v)) (v ++ r)) as (d1 & Heq & Hd1 & Hb1 & Hu1).
  { apply reads_BE32; [assumption|assumption|lia]. }
  destruct (reads_take_blob "Not enough data to read blob" d1 v r Hb1 Hu1)
    as (d2 & Heq2 & Hd2 & Hb2 & Hu2).
  exists d2.
  change (readBlob d) with ((readBE32 ≫= take_blob "Not enough data to read blob") d).
  rewrite Heq, Heq2.
  split; [reflexivity|]. split; [congruence|]. split; assumption.
Qed.

Lemma reads_string (d : Deserializer.t) (str : string) (r : bytes) :
  in_bounds d → unread d = string_bytes str ++ r →
  Z.of_nat (length (String.list_byte_of_string str)) < 2 ^ 32 →
  reads readString d str r.
Proof.
  intros Hb Hu Hv.
  destruct (reads_blob d _ r Hb Hu Hv) as (d' & Heq & Hrest).
  exists d'. split; [|exact Hrest].
  unfold readString, fmap, Deser_fmap. rewrite Heq.
  now rewrite String.string_of_list_byte_of_string.
Qed.

Lemma writeBlob_readBlob_roundtrip_witness :
  ∃ s, writeBlob [x01; x02; x03] Serializer.empty = Ok s
       ∧ readBlob (of_bytes (Serializer.data s))
         = Ok ([x01; x02; x03],
               Deserializer.mk (Serializer.data s) (Serializer.size s)).
Proof.
  apply (writeBlob_readBlob_roundtrip [x01; x02; x03]).
  unfold MAX_SERIALIZED_SIZE. simpl. lia.
Defined.

(** C7 as stated fails: a vector of 262141 bytes is shorter than 256 KiB,
    yet [writeBlob] rejects it, because the four length bytes count
    towards the limit. *)
Lemma writeBlob_rejects_262141_bytes :
  Z.of_nat (length (replicate (Z.to_nat 262141) x00)) < 256 * 1024
  ∧ writeBlob (replicate (Z.to_nat 262141) x00) Serializer.empty
    = Throw (length_error "Serializer: message too large").
Proof.
  rewrite length_replicate, Z2Nat.id by lia. split; [lia|].
  unfold writeBlob, Serializer.size, MAX_SERIALIZED_SIZE.
  change (length (Serializer.m_data Serializer.empty)) with 0%nat.
  rewrite length_replicate, Z2Nat.id by lia.
  case_decide; [reflexivity|lia].
Qed.

End CodecFacts.

(** ** Destination constraints: matching a hop against a key *)

Module HopFacts.
Import RestrictDestination.

Lemma matchesKey_loop_true (keys : list OpenSSHHopKey) (blob : bytes) :
  matchesKey_loop keys blob = true
  ↔ ∃ i k, keys !! i = Some k ∧ key_is_ca k = false ∧ key k = blob
           ∧ keys_nonempty_upto keys i.
Proof.
  induction keys as [|k0 rest IH]; simpl.
  - split; [discriminate|]. intros (i & k & Hi & _). now destruct i.
  - destruct (decide (key k0 = [])) as [Hempty|Hne].
    { split; [discriminate|]. intros (i & k & _ & _ & _ & Hall).
      exfalso. apply (Hall 0%nat k0); [lia|reflexivity|exact Hempty]. }
    assert (Hshift : (∃ i k, rest !! i = Some k ∧ key_is_ca k = false
                             ∧ key k = blob ∧ keys_nonempty_upto rest i)
                     → ∃ i k, (k0 :: rest) !! i = Some k ∧ key_is_ca k = false
                              ∧ key k = blob ∧ keys_nonempty_upto (k0 :: rest) i).
    { intros (i & k & Hi & Hca & Hk & Hall). exists (S i), k.
      repeat split; try assumption.
      intros [|j] k' Hj Hl; simpl in Hl.
      - now inversion Hl; subst.
      - apply (Hall j); [lia|assumption]. }
    assert (Hunshift : ∀ i k, (k0 :: rest) !! S i = Some k → key_is_ca k = false
                       → key k = blob → keys_nonempty_upto (k0 :: rest) (S i)
                       → ∃ i k, rest !! i = Some k ∧ key_is_ca k = false
                                ∧ key k = blob ∧ keys_nonempty_upto rest i).
    { intros i k Hi Hca Hk Hall. exists i, k. repeat split; try assumption.
      intros j k' Hj Hl. apply (Hall (S j)); [lia|assumption]. }
    destruct (key_is_ca k0) eqn:Hca0.
    { rewrite IH. split; [exact Hshift|].
      intros ([|i] & k & Hi & Hca & Hk & Hall).
      - simpl in Hi. inversion Hi; subst. congruence.
      - now apply (Hunshift i k). }
    case_bool_decide as Heq; simpl.
    + split; [|reflexivity]. intros _. exists 0%nat, k0.
      repeat split; try assumption.
      intros [|j] k' Hj Hl; [|lia]. simpl in Hl. now inversion Hl; subst.
    + rewrite IH. split; [exact Hshift|].
      intros ([|i] & k & Hi & Hca & Hk & Hall).
      * simpl in Hi. inversion Hi; subst. contradiction.
      * now apply (Hunshift i k).
Qed.

(** C6 (as amended): a hop matches a key blob exactly when some entry with
    [is_ca = false] equals the blob and no entry at or before it has an
    empty key; entries with [is_ca = true] never produce a match. *)
Theorem matchesKey_iff (h : OpenSSHHopDescriptor) (blob : bytes) :
  matchesKey h blob = true
  ↔ ∃ i k, m_keys h !! i = Some k ∧ key_is_ca k = false ∧ key k = blob
           ∧ keys_nonempty_upto (m_keys h) i.
Proof. apply matchesKey_loop_true. Qed.

(** When no entry of the hop has an empty key, the match is the plain
    membership test the specification describes. *)
Lemma matchesKey_iff_nonempty (h : OpenSSHHopDescriptor) (blob : bytes) :
  Forall (λ k, key k ≠ []) (m_keys h) →
  (matchesKey h blob = true
   ↔ ∃ k, k ∈ m_keys h ∧ key_is_ca k = false ∧ key k = blob).
Proof.
  intros Hall. rewrite matchesKey_iff. split.
  - intros (i & k & Hi & Hca & Hk & _). exists k.
    split; [|now split]. apply list_elem_of_lookup. now exists i.
  - intros (k & Hin & Hca & Hk). apply list_elem_of_lookup in Hin as [i Hi].
    exists i, k. repeat split; try assumption.
    intros j k' _ Hj. rewrite Forall_forall in Hall. apply Hall.
    apply list_elem_of_lookup. now exists j.
Qed.

(** C6 as stated fails: an entry with an empty key ends the scan with a
    refusal. The hop of the unit test [EmptyKeyIsNotMatched] holds the
    empty key as a non-CA entry and does not match it; and a non-CA entry
    equal to the blob is not reached behind an empty one. *)
Lemma matchesKey_empty_key_refuses :
  (matchesKey (mkHop "" "hostB" [mkHopKey [] false]) [] = false
   ∧ ∃ k, k ∈ m_keys (mkHop "" "hostB" [mkHopKey [] false])
          ∧ key_is_ca k = false ∧ key k = [])
  ∧ (matchesKey (mkHop "" "hostB" [mkHopKey [] false; mkHopKey [x01; x02] false])
                [x01; x02] = false
     ∧ ∃ k, k ∈ m_keys (mkHop "" "hostB"
                          [mkHopKey [] false; mkHopKey [x01; x02] false])
            ∧ key_is_ca k = false ∧ key k = [x01; x02]).
Proof.
  split; (split; [reflexivity|]).
  - exists (mkHopKey [] false). split; [|now split]. simpl. apply list_elem_of_here.
  - exists (mkHopKey [x01; x02] false). split; [|now split]. simpl.
    apply list_elem_of_further, list_elem_of_here.
Qed.

End HopFacts.

(** ** Secure buffers: what a released block holds *)

Module SecureAllocatorFacts.
Import SecureAllocator.

(** Releasing a live block of [n * sizeof(T)] bytes hands it back to the
    system filled with the byte 0x42. *)
Lemma deallocate_fills_0x42 (sizeof_T n p : Z) (block : bytes) (h : Heap) :
  live h !! p = Some block →
  Z.of_nat (length block) = n * sizeof_T →
  deallocate sizeof_T (Some p) n h
  = Ok (mkHeap (delete p (live h)) (pinned h ∖ {[p]})
               (released h ++ [(p, replicate (length block) x42)])).
Proof.
  intros Hlive Hlen. unfold deallocate, memset. rewrite Hlive.
  case_decide as Hrange; [|lia]. simpl.
  unfold operator_delete, munlock. cbn [live pinned released].
  rewrite lookup_insert_eq. rewrite delete_insert_eq.
  do 4 f_equal. rewrite <- Hlen, Nat2Z.id.
  rewrite drop_all. now rewrite app_nil_r.
Qed.

(** C8, evaluated: a three-byte secure buffer holding "sec" is released
    holding 0x42 0x42 0x42, not zeros. *)
Theorem deallocate_leaves_0x42_not_zero :
  deallocate 1 (Some 4096) 3
    (mkHeap {[ 4096 := [x73; x65; x63] ]} {[ 4096 ]} [])
  = Ok (mkHeap (delete 4096 {[ 4096 := [x73; x65; x63] ]}) ({[ 4096 ]} ∖ {[ 4096 ]})
               [(4096, [x42; x42; x42])])
  ∧ [x42; x42; x42] ≠ replicate 3 x00.
Proof.
  split; [|discriminate].
  rewrite (deallocate_fills_0x42 1 3 4096 [x73; x65; x63])
    by (try apply lookup_singleton_eq; reflexivity).
  reflexivity.
Qed.

End SecureAllocatorFacts.

(** ** Keys: lifetime *)

Module LifetimeFacts.
Import KeyBase.

Section WithProvider.
Context `{KeyProvider}.

Lemma to_seconds_ge (d s : Z) :
  1 <= s → (to_seconds d >= s ↔ s * ticks_per_second <= d).
Proof.
  unfold to_seconds, ticks_per_second. intros Hs.
  destruct (decide (0 <= d)) as [Hd|Hd].
  - rewrite Z.quot_div_nonneg by lia. split.
    + intros Hq.
      pose proof (Z.mul_div_le d 1000000000 ltac:(lia)). nia.
    + intros Hle. apply Z.le_ge. apply Z.div_le_lower_bound; lia.
  - assert (Hq : Z.quot d 1000000000 <= 0).
    { replace d with (- (- d)) by lia. rewrite Z.quot_opp_l by lia.
      pose proof (Z.quot_pos (- d) 1000000000 ltac:(lia) ltac:(lia)). lia. }
    lia.
Qed.

(** C10: [setLifetime(s)] stores the moment of the call as the key's
    added-at time, whatever was stored before, and from then on the key is
    expired exactly when [s] is nonzero and at least [s] seconds have
    passed since that call. *)
Theorem setLifetime_restarts_expiry (k : KeyBase.t) (s0 t0 s t now : Z) :
  0 <= s < 2 ^ 32 →
  m_added_time (setLifetime s t (setLifetime s0 t0 k)) = t
  ∧ (expired now (setLifetime s t (setLifetime s0 t0 k)) = true
     ↔ s ≠ 0 ∧ s * ticks_per_second <= now - t).
Proof.
  intros Hs. split; [reflexivity|].
  unfold expired. cbn [setLifetime m_lifetime_seconds m_added_time].
  case_decide as Hz.
  - split; [discriminate|]. now intros [? _].
  - rewrite bool_decide_eq_true, to_seconds_ge by lia. tauto.
Qed.

End WithProvider.

Lemma setLifetime_restarts_expiry_witness :
  @m_added_time Examples.test_provider
     (setLifetime 10 5000000000 (setLifetime 3 0 Examples.plain_key)) = 5000000000
  ∧ (@expired Examples.test_provider 16000000000
       (setLifetime 10 5000000000 (setLifetime 3 0 Examples.plain_key)) = true
     ↔ 10 ≠ 0 ∧ 10 * ticks_per_second <= 16000000000 - 5000000000).
Proof.
  apply (@setLifetime_restarts_expiry Examples.test_provider
           Examples.plain_key 3 0 10 5000000000 16000000000).
  lia.
Defined.

End LifetimeFacts.

(** ** Keys: the permit decision *)

Module PermitFacts.
Import RestrictDestination SessionState KeyBase.

Section WithProvider.
Context `{KeyProvider}.

(** A chain whose last binding is forwarded is refused for a named user,
    wherever the walk starts. *)
Lemma permitted_loop_sign_on_forwarding_hop
    (k : KeyBase.t) (user_ : string) (pre : list SessionBinding)
    (lb : SessionBinding) (from_key : bytes) (mi : MatchInfoOpt) :
  forwarded lb = true → user_ ≠ "" →
  (permitted_loop k user_ from_key (pre ++ [lb]) mi).1 = false.
Proof.
  intros Hfwd Huser. revert from_key mi.
  induction pre as [|b pre IH]; intros from_key mi; simpl.
  - case_decide; [reflexivity|]. rewrite Hfwd.
    rewrite (bool_decide_eq_true_2 (user_ ≠ "")) by assumption. reflexivity.
  - case_decide; [reflexivity|].
    rewrite (bool_decide_eq_false_2 (pre ++ [lb] = [])) by (now destruct pre).
    simpl. destruct (forwarded b); simpl; [|reflexivity].
    destruct (permittedByConstraints k from_key (host_key b) "" mi) as [[|] mi'];
      simpl; [apply IH|reflexivity].
Qed.

(** A binding that is not forwarded and has a successor stops the walk
    with a refusal. *)
Lemma permitted_loop_forward_through_signing_bind
    (k : KeyBase.t) (user_ : string) (pre post : list SessionBinding)
    (b : SessionBinding) (from_key : bytes) (mi : MatchInfoOpt) :
  post ≠ [] → forwarded b = false →
  (permitted_loop k user_ from_key (pre ++ b :: post) mi).1 = false.
Proof.
  intros Hpost Hfwd. revert from_key mi.
  induction pre as [|b0 pre IH]; intros from_key mi; simpl.
  - case_decide; [reflexivity|].
    rewrite (bool_decide_eq_false_2 (post = [])) by assumption.
    rewrite Hfwd. reflexivity.
  - case_decide; [reflexivity|].
    rewrite (bool_decide_eq_false_2 (pre ++ b :: post = [])) by (now destruct pre).
    simpl. destruct (forwarded b0); simpl; [|reflexivity].
    destruct (permittedByConstraints k from_key (host_key b0) "" mi) as [[|] mi'];
      simpl; [apply IH|reflexivity].
Qed.

(** C1: the permit decision, read as the ordered list of cases of
    [KeyBase::permitted]. A key without destination constraints is
    permitted. A key with constraints is refused when the session's
    [binding_failed] flag is set; otherwise it is permitted when the
    session has no bindings; otherwise it is refused when the last
    binding is forwarded and the supplied user is non-empty, and refused
    when some binding other than the last is not forwarded. *)
Theorem permitted_cases (k : KeyBase.t) (session : SessionState.t)
    (user_ : string) (mi : MatchInfoOpt) :
  (m_dest_constraints k = [] → (permitted k session user_ mi).1 = true)
  ∧ (m_dest_constraints k ≠ [] → bindingFailed session = true →
     (permitted k session user_ mi).1 = false)
  ∧ (m_dest_constraints k ≠ [] → bindingFailed session = false →
     sessionBindings session = [] →
     (permitted k session user_ mi).1 = true)
  ∧ (m_dest_constraints k ≠ [] → bindingFailed session = false →
     ∀ pre lb, sessionBindings session = pre ++ [lb] →
     forwarded lb = true → user_ ≠ "" →
     (permitted k session user_ mi).1 = false)
  ∧ (m_dest_constraints k ≠ [] → bindingFailed session = false →
     ∀ pre b post, sessionBindings session = pre ++ b :: post →
     post ≠ [] → forwarded b = false →
     (permitted k session user_ mi).1 = false).
Proof.
  unfold permitted. repeat split.
  - intros Hc. now rewrite decide_True.
  - intros Hc Hf. rewrite decide_False by assumption. now rewrite Hf.
  - intros Hc Hf Hb. rewrite decide_False by assumption. rewrite Hf.
    now rewrite decide_True.
  - intros Hc Hf pre lb Hb Hfwd Huser. rewrite decide_False by assumption.
    rewrite Hf. rewrite decide_False by (rewrite Hb; now destruct pre).
    rewrite Hb.
    pose proof (permitted_loop_sign_on_forwarding_hop k user_ pre lb [] mi
                  Hfwd Huser) as Hloop.
    destruct (permitted_loop k user_ [] (pre ++ [lb]) mi) as [[|] mi'];
      simpl in *; [discriminate|reflexivity].
  - intros Hc Hf pre b post Hb Hpost Hfwd. rewrite decide_False by assumption.
    rewrite Hf. rewrite decide_False by (rewrite Hb; now destruct pre).
    rewrite Hb.
    pose proof (permitted_loop_forward_through_signing_bind k user_ pre post b
                  [] mi Hpost Hfwd) as Hloop.
    destruct (permitted_loop k user_ [] (pre ++ b :: post) mi) as [[|] mi'];
      simpl in *; [discriminate|reflexivity].
Qed.

End WithProvider.

Lemma permitted_cases_witness :
  (@permitted Examples.test_provider Examples.plain_key
      (Examples.session_with [] true) "alice" None).1 = true
  ∧ (@permitted Examples.test_provider Examples.restricted_key
        (Examples.session_with [mkBinding Examples.host_A [x09] false] true)
        "alice" None).1 = false
  ∧ (@permitted Examples.test_provider Examples.restricted_key
        (Examples.session_with [] false) "alice" None).1 = true
  ∧ (@permitted Examples.test_provider Examples.restricted_key
        (Examples.session_with [mkBinding Examples.host_A [x09] true] false)
        "alice" None).1 = false
  ∧ (@permitted Examples.test_provider Examples.restricted_key
        (Examples.session_with [mkBinding Examples.host_A [x09] false;
                                mkBinding Examples.host_B [x0a] false] false)
        "" None).1 = false.
Proof.
  split; [|split; [|split; [|split]]].
  - refine (proj1 (@permitted_cases Examples.test_provider _ _ _ _) _).
    reflexivity.
  - refine (proj1 (proj2 (@permitted_cases Examples.test_provider _ _ _ _)) _ _);
      [discriminate|reflexivity].
  - refine (proj1 (proj2 (proj2 (@permitted_cases Examples.test_provider _ _ _ _))) _ _ _);
      [discriminate|reflexivity|reflexivity].
  - refine (proj1 (proj2 (proj2 (proj2
              (@permitted_cases Examples.test_provider _ _ _ _)))) _ _ [] _ _ _ _);
      [discriminate|reflexivity|reflexivity|reflexivity|discriminate].
  - refine (proj2 (proj2 (proj2 (proj2
              (@permitted_cases Examples.test_provider _ _ _ _)))) _ _ [] _ [_] _ _ _);
      [discriminate|reflexivity|reflexivity|discriminate|reflexivity].
Defined.

End PermitFacts.

(** ** Session: replies and the lock gate *)

Module GateFacts.
Import SessionState KeyBase Extension Message Session.

Lemma serialize_failure : Message.serialize SSH_AGENT_FAILURE = Ok failure_frame.
Proof. reflexivity. Qed.

Lemma serialize_success : Message.serialize SSH_AGENT_SUCCESS = Ok success_frame.
Proof. reflexivity. Qed.

Section WithEnvironment.
Context `{KeyProvider} `{LockProvider} `{!Embedder}.
Context (kf : KeyFactory.t) (ef : ExtensionFactory).

Lemma failureResponse_spec (w : World) :
  failureResponse w = (Ok tt, replied failure_frame w).
Proof. reflexivity. Qed.

Lemma successResponse_spec (w : World) :
  successResponse w = (Ok tt, replied success_frame w).
Proof. reflexivity. Qed.

(** C3: while the [KeyManager] is locked, a frame whose type is not
    UNLOCK is answered with FAILURE and nothing else happens: the call
    returns [false], the key manager (keys, counters, notifications) is
    as before, and the session differs only by the frame it sent. *)
Theorem locked_gate_replies_failure
    (now now' : Z) (data_ : bytes) (msg : Message.t) (w : World) :
  Message.of_bytes data_ = Ok msg →
  Message.type msg ≠ SSH_AGENTC_UNLOCK →
  KeyManager.isLocked (km w) = true →
  processReal kf ef now now' data_ w = (Ok false, replied failure_frame w).
Proof.
  intros Hmsg Hty Hlocked. unfold processReal.
  unfold mbind, M_bind, lift, get. rewrite Hmsg, Hlocked.
  rewrite bool_decide_eq_false_2 by assumption. reflexivity.
Qed.

End WithEnvironment.

Lemma locked_gate_replies_failure_witness :
  @processReal Examples.test_provider Examples.test_lock_provider Examples.dummy_session
    KeyFactory.empty initializeExtensions 0 0
    [x00; x00; x00; x01; x0b]
    (mkWorld (KeyManager.set_locked true (KeyManager.init 0)) SessionState.fresh)
  = (Ok false,
     replied failure_frame
       (mkWorld (KeyManager.set_locked true (KeyManager.init 0)) SessionState.fresh)).
Proof.
  apply (@locked_gate_replies_failure Examples.test_provider Examples.test_lock_provider
           Examples.dummy_session KeyFactory.empty initializeExtensions 0 0
           [x00; x00; x00; x01; x0b] (Message.mk x0b [x00; x00; x00; x01; x0b])).
  - reflexivity.
  - discriminate.
  - reflexivity.
Defined.

End GateFacts.

(** ** Session: the extension path *)

Module ExtensionFacts.
Import Serializer Deserializer MonadFacts CodecFacts.
Import SessionState KeyBase Extension Message Session.

Lemma length_list_byte_of_string (str : string) :
  length (String.list_byte_of_string str) = String.length str.
Proof.
  unfold String.list_byte_of_string. rewrite length_map.
  induction str as [|a str IH]; simpl; congruence.
Qed.

Lemma string_size_bound (str : string) :
  Z.of_nat (String.length str) < 2 ^ 32 →
  Z.of_nat (length (String.list_byte_of_string str)) < 2 ^ 32.
Proof. now rewrite length_list_byte_of_string. Qed.

(** The header of an EXTENSION frame parses, whatever follows. *)
Lemma of_bytes_frame (outer_length : Z) (name : string) (body : bytes) :
  0 <= outer_length < 2 ^ 32 →
  Message.of_bytes (ExtensionMessage.frame outer_length name body)
  = Ok (Message.mk SSH_AGENTC_EXTENSION (ExtensionMessage.frame outer_length name body)).
Proof.
  intros Hl. unfold Message.of_bytes, parse.
  set (data := ExtensionMessage.frame outer_length name body).
  destruct (of_bytes_in_bounds data) as [Hb Hu].
  destruct (reads_bind readBE32 (λ _, readByte) (Deserializer.of_bytes data) outer_length
              ([SSH_AGENTC_EXTENSION] ++ string_bytes name ++ body))
    as (d1 & Heq & Hd1 & Hb1 & Hu1).
  { now apply reads_BE32. }
  destruct (reads_byte d1 SSH_AGENTC_EXTENSION (string_bytes name ++ body) Hb1 Hu1)
    as (d2 & Heq2 & _).
  change (Message.deserialize (Deserializer.of_bytes data))
    with ((readBE32 ≫= (λ _, readByte)) (Deserializer.of_bytes data)).
  rewrite Heq, Heq2. reflexivity.
Qed.

(** A buffer that starts with a string and a blob parses as such. *)
Lemma parse_string_blob {A} (g : string → bytes → A)
    (str : string) (blob rest : bytes) :
  Z.of_nat (String.length str) < 2 ^ 32 →
  Z.of_nat (length blob) < 2 ^ 32 →
  parse (a ← readString; b ← readBlob; mret (g a b))
        (string_bytes str ++ blob_bytes blob ++ rest)
  = Ok (g str blob).
Proof.
  intros Hs Hb. unfold parse.
  set (data := string_bytes str ++ blob_bytes blob ++ rest).
  destruct (of_bytes_in_bounds data) as [Hb0 Hu0].
  destruct (reads_string (Deserializer.of_bytes data) str (blob_bytes blob ++ rest)
              Hb0 Hu0 (string_size_bound str Hs)) as (d1 & Heq1 & _ & Hb1 & Hu1).
  destruct (reads_blob d1 blob rest Hb1 Hu1 Hb) as (d2 & Heq2 & _).
  rewrite (Deser_bind_Ok _ _ _ _ _ Heq1), (Deser_bind_Ok _ _ _ _ _ Heq2).
  reflexivity.
Qed.

Section SessionBind.
Context `{KeyProvider}.
Context (kf : KeyFactory.t).

(** [OpenSSHSessionBind::deserialize] on a well-formed body whose host
    key the factory accepts and whose signature is present: the outcome
    is decided by [verify] over the session id. *)
Lemma OpenSSHSessionBind_deserialize_signed
    (d : Deserializer.t) (fwd : byte)
    (key_type : string) (key_body hk_rest : bytes)
    (session_id_ : bytes)
    (sig_type : string) (sig_body sig_rest : bytes)
    (pubkey : PubKeyBase) (ok : bool) :
  let host_key_ := string_bytes key_type ++ blob_bytes key_body ++ hk_rest in
  let signature := string_bytes sig_type ++ blob_bytes sig_body ++ sig_rest in
  in_bounds d →
  unread d = ExtensionMessage.session_bind_body host_key_ session_id_ signature fwd →
  Z.of_nat (length host_key_) < 2 ^ 32 →
  Z.of_nat (length session_id_) < 2 ^ 32 →
  Z.of_nat (length signature) < 2 ^ 32 →
  KeyFactory.createPubKey kf key_type host_key_ = Ok pubkey →
  verify pubkey session_id_ signature = Ok ok →
  ∃ d', OpenSSHSessionBind_deserialize kf d
        = if ok
          then Ok (OpenSSHSessionBind host_key_ session_id_ signature
                     (negb (bool_decide (fwd = x00))), d')
          else Throw (runtime_error "OpenSSHSessionBind: signature verification failed").
Proof.
  intros host_key_ signature Hb Hu Hhk Hsid Hsig Hpub Hverify.
  unfold ExtensionMessage.session_bind_body in Hu.
  destruct (reads_blob d host_key_ _ Hb Hu Hhk) as (d1 & Heq1 & _ & Hb1 & Hu1).
  destruct (reads_blob d1 session_id_ _ Hb1 Hu1 Hsid) as (d2 & Heq2 & _ & Hb2 & Hu2).
  destruct (reads_blob d2 signature _ Hb2 Hu2 Hsig) as (d3 & Heq3 & _ & Hb3 & Hu3).
  destruct (reads_byte d3 fwd [] Hb3 Hu3) as (d4 & Heq4 & _).
  assert (Hlen_hk : Z.of_nat (String.length key_type) < 2 ^ 32
                    ∧ Z.of_nat (length key_body) < 2 ^ 32).
  { subst host_key_. unfold string_bytes, blob_bytes in Hhk.
    rewrite !length_app, length_list_byte_of_string in Hhk. lia. }
  assert (Hlen_sig : Z.of_nat (String.length sig_type) < 2 ^ 32
                     ∧ Z.of_nat (length sig_body) < 2 ^ 32).
  { subst signature. unfold string_bytes, blob_bytes in Hsig.
    rewrite !length_app, length_list_byte_of_string in Hsig. lia. }
  assert (Hsig_ne : signature ≠ []).
  { subst signature. unfold string_bytes, blob_bytes, be32_bytes. discriminate. }
  exists d4. unfold OpenSSHSessionBind_deserialize.
  rewrite (Deser_bind_Ok _ _ _ _ _ Heq1), (Deser_bind_Ok _ _ _ _ _ Heq2),
    (Deser_bind_Ok _ _ _ _ _ Heq3), (Deser_bind_Ok _ _ _ _ _ Heq4).
  assert (Hhk_parse :
            parse (key_type0 ← readString; blob_key ← readBlob; mret key_type0) host_key_
            = Ok key_type).
  { apply (parse_string_blob (λ a _, a)); tauto. }
  assert (Hsig_parse :
            parse (sig_type0 ← readString; sig_blob ← readBlob; mret tt) signature
            = Ok tt).
  { apply (parse_string_blob (λ _ _, tt)); tauto. }
  unfold mbind at 1. unfold Deser_bind at 1. unfold Deserializer.lift at 1.
  rewrite Hhk_parse. cbn [mbind result_bind].
  unfold mbind at 1. unfold Deser_bind at 1. unfold Deserializer.lift at 1.
  rewrite Hpub. cbn [mbind result_bind].
  rewrite bool_decide_eq_true_2 by assumption.
  unfold mbind at 1. unfold Deser_bind at 1. unfold Deserializer.lift at 1.
  rewrite Hsig_parse. cbn [mbind result_bind].
  unfold mbind at 1. unfold Deser_bind at 1. unfold Deserializer.lift at 1.
  rewrite Hverify. cbn [mbind result_bind].
  destruct ok; reflexivity.
Qed.

End SessionBind.

Section WithEnvironment.
Context `{KeyProvider} `{LockProvider} `{!Embedder}.
Context (kf : KeyFactory.t) (ef : ExtensionFactory).

(** How an EXTENSION frame is parsed: the name is looked up in the
    registry of message extensions, and the body goes to what is
    registered there. *)
Lemma of_message_frame (outer_length : Z) (name : string) (body : bytes) :
  0 <= outer_length < 2 ^ 32 →
  Z.of_nat (String.length name) < 2 ^ 32 →
  ∃ d, in_bounds d ∧ unread d = body ∧
    ExtensionMessage.of_message ef kf
      (Message.mk SSH_AGENTC_EXTENSION (ExtensionMessage.frame outer_length name body))
    = match createMessageExtension ef name with
      | Ok (Some deserialize_ext) =>
        match deserialize_ext kf d with
        | Ok (ext, _) => Ok (ExtensionMessage.mk name (Some ext))
        | Throw e => Throw e
        | Stop w => Stop w
        end
      | Ok None => Ok (ExtensionMessage.mk name None)
      | Throw e => Throw e
      | Stop w => Stop w
      end.
Proof.
  intros Hl Hn. set (data := ExtensionMessage.frame outer_length name body).
  destruct (of_bytes_in_bounds data) as [Hb Hu].
  destruct (reads_BE32 (Deserializer.of_bytes data) outer_length
              ([SSH_AGENTC_EXTENSION] ++ string_bytes name ++ body) Hb Hu Hl)
    as (d1 & Heq1 & Hd1 & Hb1 & Hu1).
  destruct (reads_byte d1 SSH_AGENTC_EXTENSION (string_bytes name ++ body) Hb1 Hu1)
    as (d2 & Heq2 & Hd2 & Hb2 & Hu2).
  destruct (reads_string d2 name body Hb2 Hu2 (string_size_bound name Hn))
    as (d3 & Heq3 & Hd3 & Hb3 & Hu3).
  exists d3. split; [assumption|]. split; [assumption|].
  assert (Hhdr : Message.deserialize (Deserializer.of_bytes data)
                 = Ok (SSH_AGENTC_EXTENSION, d2)).
  { unfold Message.deserialize. rewrite (Deser_bind_Ok _ _ _ _ _ Heq1). exact Heq2. }
  unfold ExtensionMessage.of_message, check_source. cbn [Message.type Message.m_type].
  rewrite bool_decide_eq_true_2 by reflexivity. cbn [negb].
  rewrite decide_False by (unfold ExtensionMessage.frame, be32_bytes; discriminate).
  match goal with
  | |- _ = ?rhs => change (parse (ExtensionMessage.deserialize ef kf) data = rhs)
  end.
  unfold parse, ExtensionMessage.deserialize.
  rewrite (Deser_bind_Ok _ _ _ _ _ Hhdr), (Deser_bind_Ok _ _ _ _ _ Heq3).
  destruct (createMessageExtension ef name) as [[de|]|e|w]; try reflexivity.
  unfold mbind at 2. unfold Deser_bind at 1. cbn [lift mbind result_bind].
  unfold mbind at 2. unfold Deser_bind.
  destruct (de kf d3) as [[ext d4]|e|w]; reflexivity.
Qed.

(** An exception out of the parse (the constructor of
    [ExtensionMessage]) takes the session to the handler: flag set,
    bindings cleared, FAILURE sent. *)
Lemma processExtension_parse_throws (msg : Message.t) (w : World) (e : exn) :
  ExtensionMessage.of_message ef kf msg = Throw e →
  processExtension kf ef msg w = (Ok false, replied failure_frame (poisoned w)).
Proof.
  intros Hparse. unfold processExtension. rewrite try_catch_eq.
  unfold processExtension_try. rewrite (M_bind_lift_Throw _ _ _ _ Hparse).
  reflexivity.
Qed.

(** An unlocked agent hands an EXTENSION frame to [processExtension]. *)
Lemma processReal_extension (now now' : Z) (data_ : bytes) (msg : Message.t) (w : World) :
  Message.of_bytes data_ = Ok msg →
  Message.type msg = SSH_AGENTC_EXTENSION →
  KeyManager.isLocked (km w) = false →
  processReal kf ef now now' data_ w = processExtension kf ef msg w.
Proof.
  intros Hmsg Hty Hlocked. unfold processReal.
  rewrite (M_bind_lift_Ok _ _ _ _ Hmsg), M_bind_get.
  rewrite Hlocked, Hty. reflexivity.
Qed.

(** A name that is not in the registry of message extensions makes the
    factory throw inside the constructor of [ExtensionMessage]. *)
Lemma of_message_unregistered (outer_length : Z) (name : string) (body : bytes) :
  0 <= outer_length < 2 ^ 32 →
  Z.of_nat (String.length name) < 2 ^ 32 →
  m_message_extension_creators ef !! name = None →
  ExtensionMessage.of_message ef kf
    (Message.mk SSH_AGENTC_EXTENSION (ExtensionMessage.frame outer_length name body))
  = Throw (runtime_error ("ExtensionFactory: unknown message extension: " +:+ name)).
Proof.
  intros Hl Hn Hnone.
  destruct (of_message_frame outer_length name body Hl Hn) as (d & _ & _ & Heq).
  rewrite Heq. unfold createMessageExtension. now rewrite Hnone.
Qed.

(** X22. What is expected of an unknown extension does happen for a
    name that the embedder registered with the factory: when the body
    parses, the embedder does not consume the request and the name is
    not session-bind, the reply is FAILURE and the session is otherwise
    as before. *)
Lemma registered_unconsumed_extension_leaves_session
    (now now' outer_length : Z) (name : string) (body : bytes) (w : World)
    (ext_msg : ExtensionMessage.t) :
  0 <= outer_length < 2 ^ 32 →
  KeyManager.isLocked (km w) = false →
  ExtensionMessage.of_message ef kf
    (Message.mk SSH_AGENTC_EXTENSION (ExtensionMessage.frame outer_length name body))
  = Ok ext_msg →
  processExtensionMessage ext_msg = Ok false →
  ExtensionMessage.extensionName ext_msg ≠ "session-bind@openssh.com" →
  processReal kf ef now now' (ExtensionMessage.frame outer_length name body) w
  = (Ok false, replied failure_frame w).
Proof.
  intros Hl Hlocked Hparse Hemb Hname.
  rewrite (processReal_extension now now' _ _ w
             (of_bytes_frame outer_length name body Hl) eq_refl Hlocked).
  unfold processExtension. rewrite try_catch_eq. unfold processExtension_try.
  rewrite (M_bind_lift_Ok _ _ _ _ Hparse), (M_bind_lift_Ok _ _ _ _ Hemb).
  rewrite decide_True by assumption. reflexivity.
Qed.

End WithEnvironment.

Section BuiltIn.
Context `{KeyProvider} `{LockProvider} `{!Embedder}.
Context (kf : KeyFactory.t).

Lemma initializeExtensions_message_creators (name : string) :
  name ≠ "session-bind@openssh.com" →
  m_message_extension_creators initializeExtensions !! name = None.
Proof.
  intros Hname. unfold initializeExtensions, registerConstraintExtension,
    registerMessageExtension. cbn [m_message_extension_creators].
  rewrite lookup_insert_ne by (unfold openssh_session_bind_ext_name; congruence).
  apply lookup_empty.
Qed.

(** C9, evaluated on the code: with the built-in registry
    ([initializeExtensions]), an EXTENSION request under any name other
    than session-bind is answered with FAILURE, but through the
    exception handler: the session ends with [binding_failed] set and
    its bindings cleared, whatever they were. *)
Theorem unknown_extension_poisons_session
    (now now' outer_length : Z) (name : string) (body : bytes) (w : World) :
  0 <= outer_length < 2 ^ 32 →
  Z.of_nat (String.length name) < 2 ^ 32 →
  name ≠ "session-bind@openssh.com" →
  KeyManager.isLocked (km w) = false →
  processReal kf initializeExtensions now now'
    (ExtensionMessage.frame outer_length name body) w
  = (Ok false, replied failure_frame (poisoned w))
  ∧ m_binding_failed (self (replied failure_frame (poisoned w))) = true
  ∧ m_session_bindings (self (replied failure_frame (poisoned w))) = [].
Proof.
  intros Hl Hn Hname Hlocked. split; [|split; reflexivity].
  rewrite (processReal_extension kf initializeExtensions now now' _ _ w
             (of_bytes_frame outer_length name body Hl) eq_refl Hlocked).
  apply (processExtension_parse_throws kf initializeExtensions _ w
           (runtime_error ("ExtensionFactory: unknown message extension: " +:+ name))).
  apply of_message_unregistered; try assumption.
  now apply initializeExtensions_message_creators.
Qed.

End BuiltIn.

(** The request "query" on a session that is bound to hostA: the
    binding is lost and the flag is set. *)
Lemma unknown_extension_poisons_session_witness :
  @processReal Examples.test_provider Examples.test_lock_provider Examples.dummy_session
    KeyFactory.empty initializeExtensions 0 0
    (ExtensionMessage.frame 10 "query" []) Examples.bound_world
  = (Ok false, replied failure_frame (poisoned Examples.bound_world))
  ∧ m_binding_failed (self Examples.bound_world) = false
  ∧ m_session_bindings (self Examples.bound_world)
    = [mkBinding Examples.host_A [x01] false]
  ∧ m_binding_failed (self (replied failure_frame (poisoned Examples.bound_world))) = true
  ∧ m_session_bindings (self (replied failure_frame (poisoned Examples.bound_world))) = [].
Proof.
  split; [|split; [reflexivity|split; [reflexivity|]]].
  - refine (proj1 (@unknown_extension_poisons_session Examples.test_provider
                     Examples.test_lock_provider Examples.dummy_session KeyFactory.empty
                     0 0 10 "query" [] Examples.bound_world _ _ _ _)).
    + lia.
    + reflexivity.
    + discriminate.
    + reflexivity.
  - refine (proj2 (@unknown_extension_poisons_session Examples.test_provider
                     Examples.test_lock_provider Examples.dummy_session KeyFactory.empty
                     0 0 10 "query" [] Examples.bound_world _ _ _ _)).
    + lia.
    + reflexivity.
    + discriminate.
    + reflexivity.
Defined.

End ExtensionFacts.

(** ** Session: the binding-failed flag is sticky *)

Module StickyFacts.
Import MonadFacts.
Import RestrictDestination SessionState KeyBase Extension Message Session.

Section WithEnvironment.
Context `{KeyProvider} `{LockProvider} `{!Embedder}.
Context (kf : KeyFactory.t) (ef : ExtensionFactory).

Lemma failed_on_km {A} (m : M KeyManager.t A) : preserves failed (on_km m).
Proof. intros w Hw. exact Hw. Qed.

Lemma failed_modify_self (f : SessionState.t → SessionState.t) :
  (∀ s, m_binding_failed s = true → m_binding_failed (f s) = true) →
  preserves failed (modify_self f).
Proof. intros Hf w Hw. apply Hf, Hw. Qed.

Lemma failed_send (data_ : bytes) : preserves failed (send data_).
Proof. intros w Hw. exact Hw. Qed.

(** Walks a handler: every step of it keeps the flag. *)
Ltac keeps_flag :=
  repeat first
    [ apply preserves_ret
    | apply preserves_throw
    | apply preserves_stop
    | apply preserves_lift
    | apply preserves_get
    | apply failed_on_km
    | apply failed_send
    | apply failed_modify_self; intros ? Hflag; first [exact Hflag | reflexivity]
    | apply preserves_in_thread
    | apply preserves_try_catch; [|intros ?]
    | apply preserves_bind; [|intros ?]
    | progress cbv zeta
    | match goal with
      | |- preserves _ (if ?c then _ else _) => destruct c
      | |- preserves _ (match ?x with _ => _ end) => destruct x
      end ].

Lemma failed_successResponse : preserves failed successResponse.
Proof. unfold successResponse. keeps_flag. Qed.

Lemma failed_failureResponse : preserves failed failureResponse.
Proof. unfold failureResponse. keeps_flag. Qed.

Lemma failed_processSignRequest (msg : Message.t) :
  preserves failed (processSignRequest msg).
Proof.
  unfold processSignRequest, processSignRequest_try.
  pose proof failed_successResponse. pose proof failed_failureResponse.
  keeps_flag; assumption.
Qed.

Lemma failed_processExtension (msg : Message.t) :
  preserves failed (processExtension kf ef msg).
Proof.
  unfold processExtension, processExtension_try.
  pose proof failed_successResponse. pose proof failed_failureResponse.
  keeps_flag; assumption.
Qed.

Lemma failed_processReal (now now' : Z) (data_ : bytes) :
  preserves failed (processReal kf ef now now' data_).
Proof.
  unfold processReal.
  pose proof failed_successResponse. pose proof failed_failureResponse.
  pose proof failed_processSignRequest. pose proof failed_processExtension.
  unfold processAddIdentity, processRemoveIdentity, processRemoveAllIdentity,
    processRequestIdentities, processLock, processUnlock.
  keeps_flag; auto.
Qed.

Lemma failed_process (now now' : Z) (data_ : bytes) :
  preserves failed (process kf ef now now' data_).
Proof.
  unfold process. pose proof (failed_processReal now now').
  keeps_flag; auto.
Qed.

Lemma failed_run_confirmation_thread : preserves failed run_confirmation_thread.
Proof.
  unfold run_confirmation_thread, confirmation_thread.
  pose proof failed_processSignRequest.
  keeps_flag; auto.
Qed.

Lemma failed_run_key_selection_thread : preserves failed run_key_selection_thread.
Proof.
  unfold run_key_selection_thread, key_selection_thread, processRequestIdentities.
  keeps_flag; auto.
Qed.

Lemma failed_step (ev : event) : preserves failed (step kf ef ev).
Proof.
  destruct ev as [now now' data_| |]; cbn [step].
  - pose proof (failed_process now now' data_). keeps_flag; auto.
  - apply failed_run_confirmation_thread.
  - apply failed_run_key_selection_thread.
Qed.

(** Once set, the flag stays set as long as the session lives, whatever
    it receives and whenever its threads run. *)
Lemma failed_feed (events : list event) (w w' : World) :
  failed w → feed kf ef events w = Ok w' → failed w'.
Proof.
  revert w. induction events as [|ev rest IH]; intros w Hw; cbn [feed].
  - now intros [= <-].
  - pose proof (failed_step ev w Hw) as Hstep.
    destruct (step kf ef ev w) as [[[]|e|why] w1]; cbn [snd] in Hstep;
      [now apply IH|now apply IH|discriminate].
Qed.

End WithEnvironment.

End StickyFacts.

(** ** Session: the two threads *)

Module ThreadFacts.
Import MonadFacts.
Import RestrictDestination SessionState KeyBase Extension Message Session.

Section WithEnvironment.
Context `{KeyProvider} `{LockProvider} `{!Embedder}.
Context (kf : KeyFactory.t) (ef : ExtensionFactory).

(** What [processReal] does with a sign request on an unlocked agent:
    it starts the thread and, unless [m_async_operation] is off, returns.
    A session whose [m_confirmation_thread] is still joinable does not
    get that far. *)
Lemma processReal_sign_request (now now' : Z) (data_ : bytes) (msg : Message.t)
    (w : World) :
  Message.of_bytes data_ = Ok msg →
  Message.type msg = SSH_AGENTC_SIGN_REQUEST →
  KeyManager.isLocked (km w) = false →
  processReal kf ef now now' data_ w
  = if m_waiting_for_confirmation (self w)
    then (Throw (logic_error "Multiple connections using single Session instance"), w)
    else if joinable (m_confirmation_thread (self w))
    then (Stop aborted, w)
    else if m_async_operation (self w)
    then (Ok true, with_confirmation_thread (started data_) w)
    else (_ ← join_confirmation_thread; mret true)
           (with_confirmation_thread (started data_) w).
Proof.
  intros Hmsg Hty Hlocked. unfold processReal.
  rewrite (M_bind_lift_Ok _ _ _ _ Hmsg), M_bind_get, Hty, Hlocked.
  cbn [andb].
  rewrite bool_decide_eq_false_2 by discriminate.
  rewrite bool_decide_eq_false_2 by discriminate. cbn [orb].
  rewrite decide_False by discriminate. rewrite decide_False by discriminate.
  rewrite decide_True by reflexivity.
  destruct (m_waiting_for_confirmation (self w)); [reflexivity|].
  rewrite M_bind_eq. unfold assign_confirmation_thread. rewrite M_bind_get.
  destruct (joinable (m_confirmation_thread (self w))); [reflexivity|].
  unfold modify_self at 1, modify at 1. cbv beta iota.
  destruct (m_async_operation (self w)); cbn [negb]; [reflexivity|].
  reflexivity.
Qed.

(** The same for a request for the identities. *)
Lemma processReal_request_identities (now now' : Z) (data_ : bytes) (msg : Message.t)
    (w : World) :
  Message.of_bytes data_ = Ok msg →
  Message.type msg = SSH_AGENTC_REQUEST_IDENTITIES →
  KeyManager.isLocked (km w) = false →
  processReal kf ef now now' data_ w
  = if m_waiting_for_key_selection (self w)
    then (Throw (logic_error "Multiple connections using single Session instance"), w)
    else if joinable (m_key_selection_thread (self w))
    then (Stop aborted, w)
    else if m_async_operation (self w)
    then (Ok true, with_key_selection_thread (started data_) w)
    else (_ ← join_key_selection_thread; mret true)
           (with_key_selection_thread (started data_) w).
Proof.
  intros Hmsg Hty Hlocked. unfold processReal.
  rewrite (M_bind_lift_Ok _ _ _ _ Hmsg), M_bind_get, Hty, Hlocked.
  cbn [andb].
  rewrite bool_decide_eq_false_2 by discriminate.
  rewrite bool_decide_eq_false_2 by discriminate. cbn [orb].
  rewrite decide_False by discriminate. rewrite decide_False by discriminate.
  rewrite decide_False by discriminate. rewrite decide_True by reflexivity.
  destruct (m_waiting_for_key_selection (self w)); [reflexivity|].
  rewrite M_bind_eq. unfold assign_key_selection_thread. rewrite M_bind_get.
  destruct (joinable (m_key_selection_thread (self w))); [reflexivity|].
  unfold modify_self at 1, modify at 1. cbv beta iota.
  destruct (m_async_operation (self w)); cbn [negb]; reflexivity.
Qed.

(** The function of the sign thread, when [processSignRequest]
    returns. *)
Lemma confirmation_thread_returns (data_ : bytes) (msg : Message.t) (w : World)
    (b : bool) (w' : World) :
  Message.of_bytes data_ = Ok msg →
  processSignRequest msg (mkWorld (km w) (set_waiting_for_confirmation true (self w)))
  = (Ok b, w') →
  confirmation_thread data_ w
  = (Ok tt, mkWorld (km w') (set_waiting_for_confirmation false (self w'))).
Proof.
  intros Hmsg Hrun. unfold confirmation_thread, in_thread.
  rewrite M_bind_eq. unfold modify_self at 1, modify at 1. cbv beta iota.
  rewrite (M_bind_lift_Ok _ _ _ _ Hmsg), M_bind_eq, Hrun. reflexivity.
Qed.

Lemma run_confirmation_thread_started (w : World) (msg_data : bytes) :
  m_confirmation_thread (self w) = started msg_data →
  run_confirmation_thread w
  = (_ ← confirmation_thread msg_data;
     modify_self (set_confirmation_thread finished)) w.
Proof.
  intros Hthread. unfold run_confirmation_thread. now rewrite M_bind_get, Hthread.
Qed.

(** A sign request from its arrival to the return of its thread, on a
    session that has no sign thread yet. *)
Lemma sign_request_settles (now now' : Z) (data_ : bytes) (msg : Message.t)
    (w : World) (b : bool) (w' : World) :
  Message.of_bytes data_ = Ok msg →
  Message.type msg = SSH_AGENTC_SIGN_REQUEST →
  KeyManager.isLocked (km w) = false →
  m_waiting_for_confirmation (self w) = false →
  m_confirmation_thread (self w) = not_a_thread →
  processSignRequest msg
    (mkWorld (km w)
       (set_waiting_for_confirmation true
          (set_confirmation_thread (started data_) (self w)))) = (Ok b, w') →
  (r ← processReal kf ef now now' data_; _ ← run_confirmation_thread; mret r) w
  = (Ok true,
     mkWorld (km w')
       (set_confirmation_thread
          (if m_async_operation (self w) then finished else not_a_thread)
          (set_waiting_for_confirmation false (self w')))).
Proof.
  intros Hmsg Hty Hlocked Hwait Hthread Hrun.
  pose proof (confirmation_thread_returns data_ msg
                (with_confirmation_thread (started data_) w) b w' Hmsg Hrun) as Hbody.
  assert (Hstarted : run_confirmation_thread (with_confirmation_thread (started data_) w)
                     = (Ok tt,
                        mkWorld (km w')
                          (set_confirmation_thread finished
                             (set_waiting_for_confirmation false (self w'))))).
  { rewrite (run_confirmation_thread_started
               (with_confirmation_thread (started data_) w) data_ eq_refl).
    rewrite M_bind_eq, Hbody. reflexivity. }
  rewrite M_bind_eq.
  rewrite (processReal_sign_request now now' data_ msg w Hmsg Hty Hlocked).
  rewrite Hwait, Hthread. cbn [joinable].
  destruct (m_async_operation (self w)).
  - rewrite M_bind_eq, Hstarted. reflexivity.
  - rewrite M_bind_eq. unfold join_confirmation_thread at 1. rewrite M_bind_get.
    change (joinable (m_confirmation_thread
                        (self (with_confirmation_thread (started data_) w)))) with true.
    cbv iota. rewrite M_bind_eq, Hstarted. reflexivity.
Qed.

(** The function of the list thread, when [processRequestIdentities]
    returns. *)
Lemma key_selection_thread_returns (data_ : bytes) (msg : Message.t) (w w' : World) :
  Message.of_bytes data_ = Ok msg →
  processRequestIdentities msg
    (mkWorld (km w) (set_waiting_for_key_selection true (self w))) = (Ok tt, w') →
  key_selection_thread data_ w
  = (Ok tt, mkWorld (km w') (set_waiting_for_key_selection false (self w'))).
Proof.
  intros Hmsg Hrun. unfold key_selection_thread, in_thread.
  rewrite M_bind_eq. unfold modify_self at 1, modify at 1. cbv beta iota.
  rewrite (M_bind_lift_Ok _ _ _ _ Hmsg), M_bind_eq, Hrun. reflexivity.
Qed.

Lemma run_key_selection_thread_started (w : World) (msg_data : bytes) :
  m_key_selection_thread (self w) = started msg_data →
  run_key_selection_thread w
  = (_ ← key_selection_thread msg_data;
     modify_self (set_key_selection_thread finished)) w.
Proof.
  intros Hthread. unfold run_key_selection_thread. now rewrite M_bind_get, Hthread.
Qed.

(** A request for the identities from its arrival to the return of its
    thread, on a session that has no list thread yet. *)
Lemma request_identities_settles (now now' : Z) (data_ : bytes) (msg : Message.t)
    (w w' : World) :
  Message.of_bytes data_ = Ok msg →
  Message.type msg = SSH_AGENTC_REQUEST_IDENTITIES →
  KeyManager.isLocked (km w) = false →
  m_waiting_for_key_selection (self w) = false →
  m_key_selection_thread (self w) = not_a_thread →
  processRequestIdentities msg
    (mkWorld (km w)
       (set_waiting_for_key_selection true
          (set_key_selection_thread (started data_) (self w)))) = (Ok tt, w') →
  (r ← processReal kf ef now now' data_; _ ← run_key_selection_thread; mret r) w
  = (Ok true,
     mkWorld (km w')
       (set_key_selection_thread
          (if m_async_operation (self w) then finished else not_a_thread)
          (set_waiting_for_key_selection false (self w')))).
Proof.
  intros Hmsg Hty Hlocked Hwait Hthread Hrun.
  pose proof (key_selection_thread_returns data_ msg
                (with_key_selection_thread (started data_) w) w' Hmsg Hrun) as Hbody.
  assert (Hstarted : run_key_selection_thread
                       (with_key_selection_thread (started data_) w)
                     = (Ok tt,
                        mkWorld (km w')
                          (set_key_selection_thread finished
                             (set_waiting_for_key_selection false (self w'))))).
  { rewrite (run_key_selection_thread_started
               (with_key_selection_thread (started data_) w) data_ eq_refl).
    rewrite M_bind_eq, Hbody. reflexivity. }
  rewrite M_bind_eq.
  rewrite (processReal_request_identities now now' data_ msg w Hmsg Hty Hlocked).
  rewrite Hwait, Hthread. cbn [joinable].
  destruct (m_async_operation (self w)).
  - rewrite M_bind_eq, Hstarted. reflexivity.
  - rewrite M_bind_eq. unfold join_key_selection_thread at 1. rewrite M_bind_get.
    change (joinable (m_key_selection_thread
                        (self (with_key_selection_thread (started data_) w)))) with true.
    cbv iota. rewrite M_bind_eq, Hstarted. reflexivity.
Qed.

End WithEnvironment.

End ThreadFacts.

(** ** Session: a thread that was started stays joinable *)

Module JoinableFacts.
Import MonadFacts ThreadFacts.
Import RestrictDestination SessionState KeyBase Extension Message Session.

Section WithEnvironment.
Context `{KeyProvider} `{LockProvider} `{!Embedder}.
Context (kf : KeyFactory.t) (ef : ExtensionFactory).

Lemma unjoined_on_km {A} (m : M KeyManager.t A) : preserves unjoined (on_km m).
Proof. intros w Hw. exact Hw. Qed.

Lemma unjoined_modify_self (f : SessionState.t → SessionState.t) :
  (∀ s, m_async_operation (f s) = m_async_operation s) →
  (∀ s, joinable (m_confirmation_thread s) = true →
        joinable (m_confirmation_thread (f s)) = true) →
  preserves unjoined (modify_self f).
Proof.
  intros Ha Hj w [Hw1 Hw2]. split; cbn; [now rewrite Ha|now apply Hj].
Qed.

(** The assignment to a joinable thread object is the end: what comes
    after it in [processReal] does not run. *)
Lemma unjoined_assign_confirmation_thread {A} (msg_data : bytes)
    (rest : unit → M World A) :
  preserves unjoined (assign_confirmation_thread msg_data ≫= rest).
Proof.
  intros w Hw. rewrite M_bind_eq. unfold assign_confirmation_thread.
  rewrite M_bind_get. destruct Hw as [Ha Hj]. rewrite Hj. now split.
Qed.

Ltac stays_unjoined :=
  repeat first
    [ apply preserves_ret
    | apply preserves_throw
    | apply preserves_stop
    | apply preserves_lift
    | apply preserves_get
    | apply unjoined_on_km
    | apply unjoined_assign_confirmation_thread
    | apply unjoined_modify_self;
      [intros ?; reflexivity|intros ? Hj; first [exact Hj|reflexivity]]
    | apply preserves_in_thread
    | apply preserves_try_catch; [|intros ?]
    | apply preserves_bind; [|intros ?]
    | progress cbv zeta
    | match goal with
      | |- preserves _ (if ?c then _ else _) => destruct c
      | |- preserves _ (match ?x with _ => _ end) => destruct x
      end ].

Lemma unjoined_step (ev : event) : preserves unjoined (step kf ef ev).
Proof.
  destruct ev as [now now' data_| |]; cbn [step].
  - unfold process, processReal, processAddIdentity, processRemoveIdentity,
      processRemoveAllIdentity, processExtension, processExtension_try, processLock,
      processUnlock, assign_key_selection_thread, join_key_selection_thread,
      run_key_selection_thread, key_selection_thread, processRequestIdentities,
      successResponse, failureResponse, send.
    stays_unjoined.
  - unfold run_confirmation_thread, confirmation_thread, processSignRequest,
      processSignRequest_try, successResponse, failureResponse, send.
    stays_unjoined.
  - unfold run_key_selection_thread, key_selection_thread, processRequestIdentities,
      send.
    stays_unjoined.
Qed.

(** Nothing that happens to a living session joins the thread. *)
Lemma unjoined_feed (events : list event) (w w' : World) :
  unjoined w → feed kf ef events w = Ok w' → unjoined w'.
Proof.
  revert w. induction events as [|ev rest IH]; intros w Hw; cbn [feed].
  - now intros [= <-].
  - pose proof (unjoined_step ev w Hw) as Hstep.
    destruct (step kf ef ev w) as [[[]|e|why] w1]; cbn [snd] in Hstep;
      [now apply IH|now apply IH|discriminate].
Qed.

End WithEnvironment.

End JoinableFacts.

(** ** Session: a poisoned session refuses constrained keys *)

Module RefusalFacts.
Import Deserializer MonadFacts CodecFacts ExtensionFacts StickyFacts ThreadFacts
  JoinableFacts.
Import RestrictDestination SessionState KeyBase Extension Message Session.

Lemma UserAuthRequestMessage_of_bytes_total (data_ : bytes) (w : halt) :
  UserAuthRequestMessage.of_bytes data_ ≠ Stop w.
Proof.
  apply total_parse.
  repeat first
    [ apply total_readBlob | apply total_readString | apply total_readByte
    | apply total_ret | apply total_throw
    | apply total_bind; [|intros ?]
    | progress cbv zeta
    | match goal with |- total (if ?c then _ else _) => destruct c end ].
Qed.

Section WithEnvironment.
Context `{KeyProvider} `{LockProvider} `{!Embedder}.
Context (kf : KeyFactory.t) (ef : ExtensionFactory).

(** With the flag set, [permitted] refuses a constrained key before it
    looks at the bindings, and leaves the caller's [MatchInfo] alone. *)
Lemma permitted_binding_failed (k : KeyBase.t) (session : SessionState.t)
    (user_ : string) (mi : MatchInfoOpt) :
  destConstraints k ≠ [] → bindingFailed session = true →
  permitted k session user_ mi = (false, mi).
Proof.
  intros Hc Hf. unfold permitted, destConstraints in *.
  rewrite decide_False by assumption. now rewrite Hf.
Qed.

(** The [try] block of [processSignRequest] throws for a constrained key
    on a session whose flag is set, and the session is as it was. *)
Lemma processSignRequest_refuses (msg : Message.t) (sign_msg : SignRequestMessage.t)
    (key_ : KeyBase.t) (w : World) :
  failed w →
  SignRequestMessage.of_message msg = Ok sign_msg →
  KeyManager.getKey (SignRequestMessage.m_key_blob sign_msg) (km w) = Some key_ →
  destConstraints key_ ≠ [] →
  processSignRequest msg w = (Ok false, replied failure_frame w).
Proof.
  intros Hfailed Hsign Hkey Hc. unfold processSignRequest. rewrite try_catch_eq.
  unfold processSignRequest_try.
  rewrite (M_bind_lift_Ok _ _ _ _ Hsign), M_bind_get, Hkey.
  rewrite decide_True by assumption.
  destruct (decide (m_session_bindings (self w) = [])) as [Hnil|Hcons].
  { destruct w as [k s]. destruct s. reflexivity. }
  rewrite M_bind_eq.
  destruct (UserAuthRequestMessage.of_bytes (SignRequestMessage.m_data_sign sign_msg))
    as [ua|e|halt_] eqn:Hua.
  - rewrite (M_bind_lift_Ok (Ok ua) _ _ ua eq_refl). cbv zeta.
    rewrite permitted_binding_failed by assumption.
    destruct w as [k s]. destruct s. reflexivity.
  - rewrite (M_bind_lift_Throw (Throw e) _ _ e eq_refl).
    destruct w as [k s]. destruct s. reflexivity.
  - now apply UserAuthRequestMessage_of_bytes_total in Hua.
Qed.

(** The thread of a sign request for a constrained key, on a session
    whose flag is set: it answers FAILURE. No observer is told of a use,
    and nothing but the outbox changes. *)
Lemma confirmation_thread_refuses (data_ : bytes) (msg : Message.t)
    (sign_msg : SignRequestMessage.t) (key_ : KeyBase.t) (w : World) :
  failed w →
  Message.of_bytes data_ = Ok msg →
  SignRequestMessage.of_message msg = Ok sign_msg →
  KeyManager.getKey (SignRequestMessage.m_key_blob sign_msg) (km w) = Some key_ →
  destConstraints key_ ≠ [] →
  confirmation_thread data_ w
  = (Ok tt,
     replied failure_frame
       (mkWorld (km w) (set_waiting_for_confirmation false (self w)))).
Proof.
  intros Hfailed Hmsg Hsign Hkey Hc.
  rewrite (confirmation_thread_returns data_ msg w false
             (replied failure_frame
                (mkWorld (km w) (set_waiting_for_confirmation true (self w)))) Hmsg).
  - destruct w as [k s]. destruct s. reflexivity.
  - apply (processSignRequest_refuses msg sign_msg key_); assumption.
Qed.

(** How a session is poisoned, and what that does: an EXTENSION request
    whose parse throws (the signature check of session-bind is part of
    the parse) leaves the session with [binding_failed] set and no
    binding, and is answered with FAILURE; a session-bind request whose
    signature the host key does not accept over the session id is such
    a request; the flag, once set, stays set as long as the session
    lives; and the thread of a sign request for a key with destination
    constraints answers FAILURE on a session with the flag set. *)
Lemma extension_failure_poisons_session :
  (∀ (now now' : Z) (data_ : bytes) (msg : Message.t) (e : exn) (w : World),
     KeyManager.isLocked (km w) = false →
     Message.of_bytes data_ = Ok msg →
     Message.type msg = SSH_AGENTC_EXTENSION →
     ExtensionMessage.of_message ef kf msg = Throw e →
     processReal kf ef now now' data_ w
     = (Ok false, replied failure_frame (poisoned w))
     ∧ m_binding_failed (self (replied failure_frame (poisoned w))) = true
     ∧ m_session_bindings (self (replied failure_frame (poisoned w))) = [])
  ∧ (∀ (outer_length : Z) (fwd : byte) (key_type : string) (key_body hk_rest : bytes)
       (session_id_ : bytes) (sig_type : string) (sig_body sig_rest : bytes)
       (pubkey : PubKeyBase),
     let host_key_ := Serializer.string_bytes key_type
                      ++ Serializer.blob_bytes key_body ++ hk_rest in
     let signature := Serializer.string_bytes sig_type
                      ++ Serializer.blob_bytes sig_body ++ sig_rest in
     let data_ := ExtensionMessage.frame outer_length "session-bind@openssh.com"
                    (ExtensionMessage.session_bind_body host_key_ session_id_
                       signature fwd) in
     0 <= outer_length < 2 ^ 32 →
     Z.of_nat (length host_key_) < 2 ^ 32 →
     Z.of_nat (length session_id_) < 2 ^ 32 →
     Z.of_nat (length signature) < 2 ^ 32 →
     m_message_extension_creators ef !! "session-bind@openssh.com"
     = Some (Some OpenSSHSessionBind_deserialize) →
     KeyFactory.createPubKey kf key_type host_key_ = Ok pubkey →
     verify pubkey session_id_ signature = Ok false →
     Message.of_bytes data_ = Ok (Message.mk SSH_AGENTC_EXTENSION data_)
     ∧ ExtensionMessage.of_message ef kf (Message.mk SSH_AGENTC_EXTENSION data_)
       = Throw (runtime_error "OpenSSHSessionBind: signature verification failed"))
  ∧ (∀ (later : list event) (w w' : World),
     failed w → feed kf ef later w = Ok w' → failed w')
  ∧ (∀ (data_ : bytes) (msg : Message.t)
       (sign_msg : SignRequestMessage.t) (key_ : KeyBase.t) (w : World),
     failed w →
     Message.of_bytes data_ = Ok msg →
     SignRequestMessage.of_message msg = Ok sign_msg →
     KeyManager.getKey (SignRequestMessage.m_key_blob sign_msg) (km w) = Some key_ →
     destConstraints key_ ≠ [] →
     confirmation_thread data_ w
     = (Ok tt,
        replied failure_frame
          (mkWorld (km w) (set_waiting_for_confirmation false (self w))))).
Proof.
  split; [|split; [|split]].
  - intros now now' data_ msg e w Hlocked Hmsg Hty Hparse.
    split; [|split; reflexivity].
    rewrite (processReal_extension kf ef now now' data_ msg w Hmsg Hty Hlocked).
    exact (processExtension_parse_throws kf ef msg w e Hparse).
  - intros outer_length fwd key_type key_body hk_rest session_id_ sig_type sig_body
      sig_rest pubkey host_key_ signature data_ Hl Hhk Hsid Hsig Hreg Hpub Hverify.
    split; [exact (of_bytes_frame outer_length _ _ Hl)|].
    destruct (of_message_frame kf ef outer_length "session-bind@openssh.com"
                (ExtensionMessage.session_bind_body host_key_ session_id_ signature fwd)
                Hl) as (d & Hb & Hu & Heq); [reflexivity|].
    subst data_. rewrite Heq. unfold createMessageExtension. rewrite Hreg.
    destruct (OpenSSHSessionBind_deserialize_signed kf d fwd key_type key_body hk_rest
                session_id_ sig_type sig_body sig_rest pubkey false
                Hb Hu Hhk Hsid Hsig Hpub Hverify) as (d' & ->).
    reflexivity.
  - intros later w w'. apply failed_feed.
  - intros data_ msg sign_msg key_ w. apply confirmation_thread_refuses.
Qed.

(** A sign request that reaches the dispatch on a session whose
    [m_confirmation_thread] is joinable ends the process. *)
Lemma joinable_thread_ends_process (now now' : Z) (data_ : bytes) (msg : Message.t)
    (w : World) :
  Message.of_bytes data_ = Ok msg →
  Message.type msg = SSH_AGENTC_SIGN_REQUEST →
  KeyManager.isLocked (km w) = false →
  m_waiting_for_confirmation (self w) = false →
  joinable (m_confirmation_thread (self w)) = true →
  processReal kf ef now now' data_ w = (Stop aborted, w).
Proof.
  intros Hmsg Hty Hlocked Hwait Hj.
  rewrite (processReal_sign_request kf ef now now' data_ msg w Hmsg Hty Hlocked).
  now rewrite Hwait, Hj.
Qed.

(** After the first sign request, every later one that reaches the
    dispatch ends the process, whatever the session received in
    between. *)
Lemma later_sign_requests_end_process (events : list event) (now now' : Z)
    (data_ : bytes) (msg : Message.t) (w w' : World) :
  unjoined w →
  feed kf ef events w = Ok w' →
  Message.of_bytes data_ = Ok msg →
  Message.type msg = SSH_AGENTC_SIGN_REQUEST →
  KeyManager.isLocked (km w') = false →
  m_waiting_for_confirmation (self w') = false →
  processReal kf ef now now' data_ w' = (Stop aborted, w').
Proof.
  intros Hw Hfeed Hmsg Hty Hlocked Hwait.
  apply (joinable_thread_ends_process now now' data_ msg w'); try assumption.
  exact (proj2 (unjoined_feed kf ef events w w' Hw Hfeed)).
Qed.

(** C2. On a session with [binding_failed] set, the first sign request
    for a key with destination constraints is refused: [processReal]
    starts its thread and returns, and the thread answers FAILURE. The
    thread is not joined, so the second such request is not refused: the
    assignment to the joinable [m_confirmation_thread] calls
    [std::terminate] and the agent is gone. *)
Theorem second_sign_request_ends_process
    (now now' : Z) (data_ : bytes) (msg : Message.t)
    (sign_msg : SignRequestMessage.t) (key_ : KeyBase.t) (w : World) :
  failed w →
  KeyManager.isLocked (km w) = false →
  m_async_operation (self w) = true →
  m_waiting_for_confirmation (self w) = false →
  m_confirmation_thread (self w) = not_a_thread →
  Message.of_bytes data_ = Ok msg →
  Message.type msg = SSH_AGENTC_SIGN_REQUEST →
  SignRequestMessage.of_message msg = Ok sign_msg →
  KeyManager.getKey (SignRequestMessage.m_key_blob sign_msg) (km w) = Some key_ →
  destConstraints key_ ≠ [] →
  let dispatched := with_confirmation_thread (started data_) w in
  let refused := replied failure_frame (with_confirmation_thread finished w) in
  processReal kf ef now now' data_ w = (Ok true, dispatched)
  ∧ run_confirmation_thread dispatched = (Ok tt, refused)
  ∧ (processReal kf ef now now' data_ refused).1 = Stop aborted.
Proof.
  intros Hfailed Hlocked Hasync Hwait Hthread Hmsg Hty Hsign Hkey Hc dispatched refused.
  split; [|split].
  - rewrite (processReal_sign_request kf ef now now' data_ msg w Hmsg Hty Hlocked).
    now rewrite Hwait, Hthread, Hasync.
  - rewrite (run_confirmation_thread_started dispatched data_ eq_refl).
    rewrite M_bind_eq.
    rewrite (confirmation_thread_refuses data_ msg sign_msg key_ dispatched);
      try assumption.
    subst dispatched refused. destruct w as [k s]. destruct s.
    cbn in Hwait. subst. reflexivity.
  - rewrite (joinable_thread_ends_process now now' data_ msg refused);
      try assumption; reflexivity.
Qed.

End WithEnvironment.

(** A session bound to hostA is poisoned by a session-bind request with
    a signature that the host key rejects. The first sign request for
    the key restricted to hostA is then refused by its thread; the
    second ends the process. The last part is the same run as the
    reader sees it, from the bound session on. *)
Lemma second_sign_request_ends_process_witness :
  let run := @processReal Examples.test_provider Examples.test_lock_provider
               Examples.dummy_session Examples.rejecting_factory initializeExtensions in
  let w := replied failure_frame (poisoned Examples.bound_world) in
  let dispatched :=
    with_confirmation_thread (started Examples.sign_with_restricted_key) w in
  let refused := replied failure_frame (with_confirmation_thread finished w) in
  (run 0 0 Examples.sign_with_restricted_key w = (Ok true, dispatched)
   ∧ @run_confirmation_thread Examples.test_provider Examples.test_lock_provider
       Examples.dummy_session dispatched = (Ok tt, refused)
   ∧ (run 0 0 Examples.sign_with_restricted_key refused).1 = Stop aborted)
  ∧ @feed Examples.test_provider Examples.test_lock_provider Examples.dummy_session
      Examples.rejecting_factory initializeExtensions
      [receives 0 0 Examples.bad_session_bind;
       receives 0 0 Examples.sign_with_restricted_key;
       confirmation_thread_runs;
       receives 0 0 Examples.sign_with_restricted_key] Examples.bound_world
    = Stop aborted.
Proof.
  intros run w dispatched refused.
  split; [|vm_compute; reflexivity].
  refine (@second_sign_request_ends_process Examples.test_provider
            Examples.test_lock_provider Examples.dummy_session
            Examples.rejecting_factory initializeExtensions
            0 0 Examples.sign_with_restricted_key
            (Message.mk SSH_AGENTC_SIGN_REQUEST Examples.sign_with_restricted_key)
            (SignRequestMessage.mk [x6b; x31] [] 0) Examples.restricted_key w
            _ _ _ _ _ _ _ _ _ _).
  - reflexivity.
  - reflexivity.
  - reflexivity.
  - reflexivity.
  - reflexivity.
  - vm_compute. reflexivity.
  - reflexivity.
  - vm_compute. reflexivity.
  - vm_compute. reflexivity.
  - discriminate.
Defined.

End RefusalFacts.

(** ** KeyManager::unlock *)

Module UnlockFacts.
Import MonadFacts KeyBase KeyManager.

Lemma floor_pow_1_8_mono (m n : Z) :
  0 <= m <= n → floor_pow_1_8 m <= floor_pow_1_8 n.
Proof.
  intros Hmn. unfold floor_pow_1_8.
  replace n with (m + (n - m)) by lia.
  rewrite !Z.pow_add_r by lia.
  assert (H10 : 0 < 10 ^ (n - m)) by (apply Z.pow_pos_nonneg; lia).
  assert (Hle : 10 ^ (n - m) <= 18 ^ (n - m)) by (apply Z.pow_le_mono_l; lia).
  assert (Ha : 0 < 18 ^ m) by (apply Z.pow_pos_nonneg; lia).
  assert (Hb : 0 < 10 ^ m) by (apply Z.pow_pos_nonneg; lia).
  generalize dependent (18 ^ m). generalize dependent (10 ^ m).
  generalize dependent (10 ^ (n - m)). generalize dependent (18 ^ (n - m)).
  intros d c H10 Hle b Hb a Ha.
  rewrite <- (Z.div_mul_cancel_r a b c) by lia.
  apply Z.div_le_mono; [lia | nia].
Qed.

(** From the 37th power on, [floor(1.8^n)] is above every [int]. *)
Lemma floor_pow_1_8_above_int (n : Z) : 37 <= n → INT_MAX < floor_pow_1_8 n.
Proof.
  intros Hn. apply Z.lt_le_trans with (floor_pow_1_8 37); [vm_compute; reflexivity|].
  apply floor_pow_1_8_mono. lia.
Qed.

(** Up to the 36th power it is an [int]. *)
Lemma floor_pow_1_8_in_int (n : Z) :
  0 <= n <= 36 → INT_MIN <= floor_pow_1_8 n <= INT_MAX.
Proof.
  intros Hn. split.
  - apply Z.le_trans with (floor_pow_1_8 0); [vm_compute; discriminate|].
    apply floor_pow_1_8_mono. lia.
  - apply Z.le_trans with (floor_pow_1_8 36); [|vm_compute; discriminate].
    apply floor_pow_1_8_mono. lia.
Qed.

Section WithProviders.
Context `{KeyProvider} `{LockProvider}.

(** X16. Before [m_locked_until]: the attempt is counted and refused with the
    time left, and the passphrase is not looked at. *)
Lemma unlock_throttled (passphrase : bytes) (now now' : Z) (km : KeyManager.t)
    (lp : lock_state) :
  m_locked km = true →
  m_lock_provider km = Some lp →
  now < m_locked_until km →
  unlock passphrase now now' km
  = (Throw (runtime_error_fmt
              "Too many failed unlock attempts, please wait {} seconds before retrying"
              (to_seconds (m_locked_until km - now'))),
     incr_failed_attempts km).
Proof.
  intros Hlocked Hlp Hnow. unfold unlock.
  rewrite M_bind_get, Hlocked, Hlp. cbn [negb].
  rewrite decide_True by assumption. reflexivity.
Qed.

(** X17. A wrong passphrase, while the count stays within what [int] can
    hold of the back-off: the attempt is counted, from the third on
    [m_locked_until] moves to [floor(1.8^count)] seconds after the clock
    reading, and the error goes on to the caller. *)
Lemma unlock_wrong_passphrase (passphrase : bytes) (now now' : Z) (km : KeyManager.t)
    (lp : lock_state) :
  m_locked km = true →
  m_lock_provider km = Some lp →
  m_locked_until km <= now →
  provider_verify passphrase lp = Ok false →
  0 <= m_failed_attempts km < 36 →
  unlock passphrase now now' km
  = (Throw (runtime_error "Incorrect passphrase"),
     if decide (m_failed_attempts km + 1 > 2)
     then set_locked_until
            (now' + floor_pow_1_8 (m_failed_attempts km + 1) * ticks_per_second)
            (incr_failed_attempts km)
     else incr_failed_attempts km).
Proof.
  intros Hlocked Hlp Hnow Hverify Hn. unfold unlock.
  rewrite M_bind_get, Hlocked, Hlp. cbn [negb].
  rewrite decide_False by lia.
  rewrite M_bind_eq, try_catch_eq, (M_bind_lift_Ok _ _ _ _ Hverify). cbn [negb].
  unfold throw at 1. cbv iota beta.
  rewrite M_bind_modify, M_bind_get.
  assert (Hcount : m_failed_attempts (incr_failed_attempts km) = m_failed_attempts km + 1).
  { unfold incr_failed_attempts. cbn [m_failed_attempts set_failed_attempts].
    apply Z.mod_small. lia. }
  rewrite Hcount.
  destruct (decide (m_failed_attempts km + 1 > 2)) as [Hgt|Hle]; [|reflexivity].
  rewrite M_bind_eq.
  assert (Hcast : static_cast_int (floor_pow_1_8 (m_failed_attempts km + 1))
                  = Ok (floor_pow_1_8 (m_failed_attempts km + 1))).
  { unfold static_cast_int. apply decide_True. apply floor_pow_1_8_in_int. lia. }
  rewrite (M_bind_lift_Ok _ _ _ _ Hcast). reflexivity.
Qed.

(** An exception out of the unlocking of a key is handled in the same
    way; the keys that were unlocked before it stay unlocked. *)
Lemma unlock_key_error (passphrase : bytes) (now now' : Z) (km : KeyManager.t)
    (lp : lock_state) (e : exn) (keys : list KeyBase.t) :
  m_locked km = true →
  m_lock_provider km = Some lp →
  m_locked_until km <= now →
  provider_verify passphrase lp = Ok true →
  unlock_keys passphrase (m_keys km) = (Throw e, keys) →
  0 <= m_failed_attempts km < 36 →
  unlock passphrase now now' km
  = (Throw e,
     if decide (m_failed_attempts km + 1 > 2)
     then set_locked_until
            (now' + floor_pow_1_8 (m_failed_attempts km + 1) * ticks_per_second)
            (incr_failed_attempts (set_keys keys km))
     else incr_failed_attempts (set_keys keys km)).
Proof.
  intros Hlocked Hlp Hnow Hverify Hkeys Hn. unfold unlock.
  rewrite M_bind_get, Hlocked, Hlp. cbn [negb].
  rewrite decide_False by lia.
  rewrite M_bind_eq, try_catch_eq, (M_bind_lift_Ok _ _ _ _ Hverify). cbn [negb].
  rewrite Hkeys. cbn [fst snd].
  rewrite M_bind_modify, M_bind_get.
  assert (Hcount : m_failed_attempts (incr_failed_attempts (set_keys keys km))
                   = m_failed_attempts km + 1).
  { unfold incr_failed_attempts. cbn [m_failed_attempts set_failed_attempts set_keys].
    apply Z.mod_small. lia. }
  rewrite Hcount.
  destruct (decide (m_failed_attempts km + 1 > 2)) as [Hgt|Hle]; [|reflexivity].
  rewrite M_bind_eq.
  assert (Hcast : static_cast_int (floor_pow_1_8 (m_failed_attempts km + 1))
                  = Ok (floor_pow_1_8 (m_failed_attempts km + 1))).
  { unfold static_cast_int. apply decide_True. apply floor_pow_1_8_in_int. lia. }
  rewrite (M_bind_lift_Ok _ _ _ _ Hcast). reflexivity.
Qed.

(** X18. The right passphrase, every key unlocked: the observers are told,
    the agent is unlocked and the count starts again. *)
Lemma unlock_success (passphrase : bytes) (now now' : Z) (km : KeyManager.t)
    (lp : lock_state) (keys : list KeyBase.t) :
  m_locked km = true →
  m_lock_provider km = Some lp →
  m_locked_until km <= now →
  provider_verify passphrase lp = Ok true →
  unlock_keys passphrase (m_keys km) = (Ok tt, keys) →
  unlock passphrase now now' km
  = (Ok tt,
     set_failed_attempts 0 (set_locked false (emit onUnlocked (set_keys keys km)))).
Proof.
  intros Hlocked Hlp Hnow Hverify Hkeys. unfold unlock.
  rewrite M_bind_get, Hlocked, Hlp. cbn [negb].
  rewrite decide_False by lia.
  rewrite M_bind_eq, try_catch_eq, (M_bind_lift_Ok _ _ _ _ Hverify). cbn [negb].
  rewrite Hkeys. reflexivity.
Qed.

(** C4. The back-off is computed as [static_cast<int>(floor(pow(1.8,
    m_failed_attempts)))]. From the 37th counted attempt on, the power
    is above [INT_MAX] and the conversion has no defined result: a
    wrong passphrase given to an agent that has counted 36 attempts or
    more (and is past [m_locked_until]) does not set [m_locked_until]
    to the clock reading plus [floor(1.8^count)] seconds; the call
    leaves the defined behaviour of the program, with the attempt
    counted. *)
Theorem unlock_backoff_exceeds_int (passphrase : bytes) (now now' : Z)
    (km : KeyManager.t) (lp : lock_state) :
  m_locked km = true →
  m_lock_provider km = Some lp →
  m_locked_until km <= now →
  provider_verify passphrase lp = Ok false →
  36 <= m_failed_attempts km < 2 ^ 64 - 1 →
  INT_MAX < floor_pow_1_8 (m_failed_attempts km + 1)
  ∧ unlock passphrase now now' km = (Undefined, incr_failed_attempts km).
Proof.
  intros Hlocked Hlp Hnow Hverify Hn.
  assert (Habove : INT_MAX < floor_pow_1_8 (m_failed_attempts km + 1))
    by (apply floor_pow_1_8_above_int; lia).
  split; [exact Habove|]. unfold unlock.
  rewrite M_bind_get, Hlocked, Hlp. cbn [negb].
  rewrite decide_False by lia.
  rewrite M_bind_eq, try_catch_eq, (M_bind_lift_Ok _ _ _ _ Hverify). cbn [negb].
  unfold throw at 1. cbv iota beta.
  rewrite M_bind_modify, M_bind_get.
  assert (Hcount : m_failed_attempts (incr_failed_attempts km) = m_failed_attempts km + 1).
  { unfold incr_failed_attempts. cbn [m_failed_attempts set_failed_attempts].
    apply Z.mod_small. lia. }
  rewrite Hcount, decide_True by lia.
  rewrite M_bind_eq.
  assert (Hcast : static_cast_int (floor_pow_1_8 (m_failed_attempts km + 1)) = Undefined).
  { unfold static_cast_int. apply decide_False. lia. }
  unfold lift at 1. rewrite Hcast. reflexivity.
Qed.

End WithProviders.

(** Thirty-six wrong passphrases in a row while the clock reads 0: the
    third one locks the agent for five seconds, the others are counted
    all the same. The next wrong passphrase after the five seconds is
    the 37th. *)
Lemma unlock_backoff_exceeds_int_witness :
  let km := Examples.after_wrong_attempts 36 Examples.locked_agent in
  m_failed_attempts km = 36
  ∧ m_locked_until km = 5 * ticks_per_second
  ∧ @unlock Examples.test_provider Examples.test_lock_provider
      [x71] (5 * ticks_per_second) (5 * ticks_per_second) km
    = (Undefined, incr_failed_attempts km).
Proof.
  intros km. split; [vm_compute; reflexivity|]. split; [vm_compute; reflexivity|].
  refine (proj2 (@unlock_backoff_exceeds_int Examples.test_provider
                   Examples.test_lock_provider [x71] (5 * ticks_per_second)
                   (5 * ticks_per_second) km (Some [x70]) _ _ _ _ _)).
  - vm_compute. reflexivity.
  - vm_compute. reflexivity.
  - vm_compute. discriminate.
  - vm_compute. reflexivity.
  - split; vm_compute; [discriminate|reflexivity].
Defined.

End UnlockFacts.

(** ** KeyManager::addKey *)

Module AddKeyFacts.
Import MonadFacts KeyBase KeyManager.

Section WithProviders.
Context `{KeyProvider} `{LockProvider}.
Context (kf : KeyFactory.t).

Lemma findKey_None (blob : bytes) (keys : list KeyBase.t) :
  findKey blob keys = None ↔ blob ∉ pubBlob <$> keys.
Proof.
  unfold findKey. rewrite fmap_None, list_find_None, Forall_forall, list_elem_of_fmap.
  split.
  - intros Hall (k & -> & Hk). now apply (Hall k).
  - intros Hnot k Hk Heq. apply Hnot. now exists k.
Qed.

Lemma findKey_Some (blob : bytes) (keys : list KeyBase.t) (i : nat) :
  findKey blob keys = Some i →
  ∃ k, keys !! i = Some k ∧ pubBlob k = blob.
Proof.
  unfold findKey. rewrite fmap_Some. intros ([j k] & Hfind & ->).
  apply list_find_Some in Hfind as (Hk & Hblob & _). now exists k.
Qed.

(** The key list after [addKey], when the factory makes a key. *)
Lemma addKey_keys (type : string) (blob : bytes) (comment_ : string)
    (km : KeyManager.t) (pub : bytes) (k : KeyBase.t) :
  KeyFactory.extractPubKey kf type blob = Ok pub →
  KeyFactory.createKey kf type blob comment_ = Ok (Some k) →
  addKey kf type blob comment_ km
  = (Ok k,
     set_keys (match findKey pub (m_keys km) with
               | Some i => delete i (m_keys km)
               | None => m_keys km
               end ++ [k]) km).
Proof.
  intros Hpub Hkey. unfold addKey.
  rewrite (M_bind_lift_Ok _ _ _ _ Hpub), M_bind_get.
  destruct (findKey pub (m_keys km)) as [i|].
  - rewrite M_bind_modify, (M_bind_lift_Ok _ _ _ _ Hkey). now destruct km.
  - rewrite M_bind_ret, (M_bind_lift_Ok _ _ _ _ Hkey). now destruct km.
Qed.

(** Where the blob that [extractPubKey] gives is the blob of the key
    that [createKey] makes, [addKey] keeps the blobs distinct. *)
Lemma addKey_keeps_blobs_unique (type : string) (blob : bytes) (comment_ : string)
    (km : KeyManager.t) (pub : bytes) (k : KeyBase.t) :
  KeyFactory.extractPubKey kf type blob = Ok pub →
  KeyFactory.createKey kf type blob comment_ = Ok (Some k) →
  pubBlob k = pub →
  blobs_unique km →
  blobs_unique (addKey kf type blob comment_ km).2.
Proof.
  intros Hpub Hkey Hsame Huniq.
  rewrite (addKey_keys type blob comment_ km pub k Hpub Hkey).
  unfold blobs_unique in *. cbn [snd set_keys m_keys].
  rewrite fmap_app. cbn [fmap list_fmap]. rewrite Hsame.
  apply NoDup_app. destruct (findKey pub (m_keys km)) as [i|] eqn:Hfind.
  - destruct (findKey_Some pub (m_keys km) i Hfind) as (k0 & Hi & Hblob).
    assert (Hsplit : m_keys km = take i (m_keys km) ++ k0 :: drop (S i) (m_keys km)).
    { symmetry. now apply take_drop_middle. }
    rewrite Hsplit in Huniq. rewrite fmap_app, fmap_cons, Hblob in Huniq.
    apply NoDup_app in Huniq as (Hl & Hlr & Hr).
    apply NoDup_cons in Hr as (Hnot & Hr).
    rewrite delete_take_drop, fmap_app.
    split; [|split].
    + apply NoDup_app. split; [exact Hl|]. split; [|exact Hr].
      intros x Hx Hx'. apply (Hlr x Hx). now right.
    + intros x Hx Hx'. apply list_elem_of_singleton in Hx' as ->.
      apply elem_of_app in Hx as [Hx|Hx]; [|contradiction].
      apply (Hlr pub Hx). now left.
    + apply NoDup_singleton.
  - apply findKey_None in Hfind.
    split; [exact Huniq|]. split; [|apply NoDup_singleton].
    intros x Hx Hx'. apply list_elem_of_singleton in Hx' as ->. contradiction.
Qed.

(** C5. [addKey] looks for an old instance under the blob that
    [extractPubKey] gives, and the key it appends carries the blob that
    [createKey] gave it. Where the two blobs differ, the old instance
    is not found: adding the same key twice leaves two live keys with
    one public blob. *)
Theorem addKey_twice_keeps_both (type : string) (blob : bytes) (comment_ : string)
    (km : KeyManager.t) (pub : bytes) (k : KeyBase.t) :
  KeyFactory.extractPubKey kf type blob = Ok pub →
  KeyFactory.createKey kf type blob comment_ = Ok (Some k) →
  pubBlob k ≠ pub →
  pub ∉ pubBlob <$> m_keys km →
  let km' := (addKey kf type blob comment_ (addKey kf type blob comment_ km).2).2 in
  m_keys km' = m_keys km ++ [k; k] ∧ ¬ blobs_unique km'.
Proof.
  intros Hpub Hkey Hdiff Hfresh km'.
  assert (Hkeys : m_keys km' = m_keys km ++ [k; k]).
  { subst km'. rewrite (addKey_keys type blob comment_ km pub k Hpub Hkey).
    rewrite (addKey_keys type blob comment_ _ pub k Hpub Hkey).
    cbn [snd set_keys m_keys].
    rewrite (proj2 (findKey_None pub (m_keys km)) Hfresh).
    rewrite (proj2 (findKey_None pub (m_keys km ++ [k]))).
    - now rewrite <- app_assoc.
    - rewrite fmap_app, elem_of_app. intros [Hin|Hin]; [contradiction|].
      apply list_elem_of_singleton in Hin. congruence. }
  split; [exact Hkeys|].
  unfold blobs_unique. rewrite Hkeys, fmap_app. cbn [fmap list_fmap].
  intros Hnodup. apply NoDup_app in Hnodup as (_ & _ & Hkk).
  apply NoDup_cons in Hkk as (Hnot & _). apply Hnot. now left.
Qed.

End WithProviders.

(** ECDSA keys: [extractPub] names the type after the curve, the key
    itself keeps the type it was declared with. A nistp384 key that is
    declared as ecdsa-sha2-nistp256 and added twice is held twice. *)
Lemma addKey_twice_keeps_both_witness :
  let add := @addKey Examples.test_provider Examples.test_lock_provider
               Examples.ecdsa_factory "ecdsa-sha2-nistp256"
               Examples.nistp384_key_blob "a" in
  let km0 := @KeyManager.init Examples.test_provider Examples.test_lock_provider 0 in
  let km' := (add (add km0).2).2 in
  blobs_unique km0
  ∧ (pubBlob <$> m_keys km') !! 0%nat = (pubBlob <$> m_keys km') !! 1%nat
  ∧ length (m_keys km') = 2%nat
  ∧ ¬ blobs_unique km'.
Proof.
  intros add km0 km'.
  split; [apply NoDup_nil_2|].
  split; [vm_compute; reflexivity|].
  split; [vm_compute; reflexivity|].
  refine (proj2 (@addKey_twice_keeps_both Examples.test_provider
                   Examples.test_lock_provider Examples.ecdsa_factory
                   "ecdsa-sha2-nistp256" Examples.nistp384_key_blob "a"
                   km0 _ _ _ _ _ _)).
  - vm_compute. reflexivity.
  - vm_compute. reflexivity.
  - vm_compute. discriminate.
  - apply not_elem_of_nil.
Defined.

End AddKeyFacts.

(** ** Writers, and the frames of the typed messages *)

Module WireFacts.
Import Serializer Deserializer MonadFacts CodecFacts ExtensionFacts Message.

Lemma writeBE32_append (v : Z) (s s' : Serializer.t) :
  writeBE32 v SIZE_MAX s = Ok s' →
  Serializer.m_data s' = Serializer.m_data s ++ be32_bytes v
  ∧ size s' <= MAX_SERIALIZED_SIZE.
Proof.
  unfold writeBE32. rewrite decide_True by reflexivity.
  case_decide as Hsize; [discriminate|]. intros [= <-]. split; [reflexivity|].
  unfold size in *. cbn [Serializer.m_data]. rewrite length_app.
  change (length (be32_bytes v)) with 4%nat. lia.
Qed.

Lemma writeByte_append (b : byte) (s s' : Serializer.t) :
  writeByte b SIZE_MAX s = Ok s' →
  Serializer.m_data s' = Serializer.m_data s ++ [b]
  ∧ size s' <= MAX_SERIALIZED_SIZE.
Proof.
  unfold writeByte. rewrite decide_True by reflexivity.
  case_decide as Hsize; [discriminate|]. intros [= <-]. split; [reflexivity|].
  unfold size in *. cbn [Serializer.m_data]. rewrite length_app. cbn [length]. lia.
Qed.

Lemma writeBlob_append (blob : bytes) (s s' : Serializer.t) :
  writeBlob blob s = Ok s' →
  Serializer.m_data s' = Serializer.m_data s ++ blob_bytes blob
  ∧ size s' <= MAX_SERIALIZED_SIZE
  ∧ Z.of_nat (length blob) < 2 ^ 32.
Proof.
  unfold writeBlob. case_decide as Hsize; [discriminate|].
  assert (Hlen : Z.of_nat (length blob) < 2 ^ 32).
  { unfold size, MAX_SERIALIZED_SIZE in Hsize. lia. }
  unfold writeBE32. rewrite decide_True by reflexivity.
  rewrite decide_False by (unfold size in *; lia).
  cbn. intros [= <-]. cbn [Serializer.m_data].
  unfold to_uint32. rewrite Z.mod_small by lia.
  split; [now rewrite <- app_assoc|]. split; [|exact Hlen].
  unfold size in *. cbn [Serializer.m_data]. rewrite !length_app.
  change (length (be32_bytes (Z.of_nat (length blob)))) with 4%nat. lia.
Qed.

Lemma writeString_append (str : string) (s s' : Serializer.t) :
  writeString str s = Ok s' →
  Serializer.m_data s' = Serializer.m_data s ++ string_bytes str
  ∧ size s' <= MAX_SERIALIZED_SIZE
  ∧ Z.of_nat (String.length str) < 2 ^ 32.
Proof.
  unfold writeString. intros Hw. apply writeBlob_append in Hw as (Hd & Hs & Hl).
  rewrite length_list_byte_of_string in Hl. now repeat split.
Qed.

(** [finalize] puts the number of bytes that follow the first four into
    the first four, and leaves the rest alone. *)
Lemma finalize_prefix (s : Serializer.t) (b0 b1 b2 b3 : byte) (rest : bytes) :
  Serializer.m_data s = b0 :: b1 :: b2 :: b3 :: rest →
  Z.of_nat (length rest) < 2 ^ 32 →
  finalize s = Ok (Serializer.mk (be32_bytes (Z.of_nat (length rest)) ++ rest)).
Proof.
  intros Hdata Hlen. unfold finalize, size. rewrite Hdata. cbn [length].
  rewrite decide_False by lia.
  unfold writeBE32. rewrite decide_False by (unfold SIZE_MAX; lia).
  unfold size. rewrite Hdata. cbn [length].
  rewrite decide_False by (rewrite Z.mod_small by lia; lia).
  rewrite decide_True by lia.
  replace (to_uint32 (Z.of_nat (S (S (S (S (length rest))))) - 4))
    with (Z.of_nat (length rest)).
  2:{ unfold to_uint32. rewrite Z.mod_small by lia. lia. }
  reflexivity.
Qed.


Lemma result_bind_Ok {A B} (m : result A) (f : A → result B) (b : B) :
  m ≫= f = Ok b → ∃ a, m = Ok a ∧ f a = Ok b.
Proof. destruct m as [a| |]; [|discriminate..]. intros Hf. now exists a. Qed.

(** What [Message::serialize(s)] appends to an empty serializer. *)
Lemma serialize_header_empty (ty : byte) (s : Serializer.t) :
  serialize_header ty Serializer.empty = Ok s →
  Serializer.m_data s = be32_bytes 1 ++ [ty].
Proof.
  unfold serialize_header. intros Hw.
  apply result_bind_Ok in Hw as (s1 & H1 & H2).
  apply writeBE32_append in H1 as (H1 & _). apply writeByte_append in H2 as (H2 & _).
  rewrite H2, H1. reflexivity.
Qed.

(** The frame that [finalize] leaves when the serializer holds a header
    and a body: the length of what follows, the type, the body. *)
Lemma finalize_frame (ty : byte) (body : bytes) (s : Serializer.t) (frame : Serializer.t) :
  Serializer.m_data s = (be32_bytes 1 ++ [ty]) ++ body →
  size s <= MAX_SERIALIZED_SIZE →
  finalize s = Ok frame →
  Serializer.m_data frame = be32_bytes (Z.of_nat (length body) + 1) ++ [ty] ++ body
  ∧ 0 <= Z.of_nat (length body) + 1 < 2 ^ 32.
Proof.
  intros Hdata Hsize Hfin.
  assert (Hlen : Z.of_nat (length body) + 1 < 2 ^ 32).
  { unfold size, MAX_SERIALIZED_SIZE in Hsize. rewrite Hdata in Hsize.
    rewrite length_app in Hsize. lia. }
  erewrite (finalize_prefix s _ _ _ _ (ty :: body)) in Hfin.
  - injection Hfin as <-. cbn [Serializer.m_data length].
    split; [|lia].
    replace (Z.of_nat (S (length body))) with (Z.of_nat (length body) + 1) by lia.
    reflexivity.
  - rewrite Hdata. reflexivity.
  - cbn [length]. lia.
Qed.


(** A frame is read back as its type, with the body left to read. *)
Lemma frame_header_reads (n : Z) (ty : byte) (body : bytes) :
  0 <= n < 2 ^ 32 →
  ∃ d, Message.deserialize (Deserializer.of_bytes (be32_bytes n ++ [ty] ++ body))
       = Ok (ty, d)
       ∧ in_bounds d ∧ unread d = body.
Proof.
  intros Hn. set (data := be32_bytes n ++ [ty] ++ body).
  destruct (of_bytes_in_bounds data) as [Hb Hu].
  destruct (reads_bind readBE32 (λ _, readByte) (Deserializer.of_bytes data) n
              ([ty] ++ body)) as (d1 & Heq & _ & Hb1 & Hu1).
  { now apply reads_BE32. }
  destruct (reads_byte d1 ty body Hb1 Hu1) as (d2 & Heq2 & _ & Hb2 & Hu2).
  exists d2. split; [|now split].
  change (Message.deserialize (Deserializer.of_bytes data))
    with ((readBE32 ≫= (λ _, readByte)) (Deserializer.of_bytes data)).
  now rewrite Heq.
Qed.

Lemma of_bytes_framed (n : Z) (ty : byte) (body : bytes) :
  0 <= n < 2 ^ 32 →
  Message.of_bytes (be32_bytes n ++ [ty] ++ body)
  = Ok (Message.mk ty (be32_bytes n ++ [ty] ++ body)).
Proof.
  intros Hn. destruct (frame_header_reads n ty body Hn) as (d & Heq & _).
  unfold Message.of_bytes, parse. now rewrite Heq.
Qed.

Lemma length_prefix_framed (n : Z) (rest : bytes) :
  0 <= n < 2 ^ 32 → parse readBE32 (be32_bytes n ++ rest) = Ok n.
Proof.
  intros Hn. unfold parse. now rewrite readBE32_be32_bytes.
Qed.

Lemma sign_request_frame (m : SignRequestMessage.t) (frame : bytes) :
  0 <= SignRequestMessage.m_flags m < 2 ^ 32 →
  SignRequestMessage.serialize m = Ok frame →
  parse readBE32 frame = Ok (Z.of_nat (length frame) - 4)
  ∧ Message.of_bytes frame = Ok (Message.mk SSH_AGENTC_SIGN_REQUEST frame)
  ∧ SignRequestMessage.of_message (Message.mk SSH_AGENTC_SIGN_REQUEST frame) = Ok m.
Proof.
  intros Hflags Hser. destruct m as [key_blob data_sign flags].
  cbn [SignRequestMessage.m_flags] in Hflags.
  unfold SignRequestMessage.serialize, build in Hser.
  cbn [SignRequestMessage.m_key_blob SignRequestMessage.m_data_sign
       SignRequestMessage.m_flags] in Hser.
  apply result_bind_Ok in Hser as (s5 & Hser & [= <-]).
  apply result_bind_Ok in Hser as (s1 & H1 & Hser).
  apply result_bind_Ok in Hser as (s2 & H2 & Hser).
  apply result_bind_Ok in Hser as (s3 & H3 & Hser).
  apply result_bind_Ok in Hser as (s4 & H4 & H5).
  apply serialize_header_empty in H1.
  apply writeBlob_append in H2 as (H2 & _ & Hk).
  apply writeBlob_append in H3 as (H3 & _ & Hd).
  apply writeBE32_append in H4 as (H4 & Hsize).
  set (body := blob_bytes key_blob ++ blob_bytes data_sign ++ be32_bytes flags).
  assert (Hdata : Serializer.m_data s4 = (be32_bytes 1 ++ [SSH_AGENTC_SIGN_REQUEST]) ++ body).
  { rewrite H4, H3, H2, H1. subst body. now rewrite <- !app_assoc. }
  destruct (finalize_frame _ body s4 s5 Hdata Hsize H5) as (Hframe & Hn).
  unfold Serializer.data. rewrite Hframe.
  split; [|split].
  - rewrite length_prefix_framed by exact Hn. f_equal.
    rewrite length_app. change (length (be32_bytes _)) with 4%nat.
    cbn [app length]. lia.
  - now apply of_bytes_framed.
  - unfold SignRequestMessage.of_message, check_source.
    cbn [Message.type Message.m_type Message.m_data Message.data].
    rewrite bool_decide_eq_true_2 by reflexivity. cbn [negb].
    rewrite decide_False by discriminate. cbn.
    destruct (frame_header_reads _ SSH_AGENTC_SIGN_REQUEST body Hn) as (d & Hhdr & Hb & Hu).
    unfold parse, SignRequestMessage.deserialize.
    rewrite (Deser_bind_Ok _ _ _ _ _ Hhdr).
    rewrite decide_False by (intros Hne; now apply Hne).
    destruct (reads_blob d key_blob (blob_bytes data_sign ++ be32_bytes flags) Hb Hu Hk)
      as (d1 & Heq1 & _ & Hb1 & Hu1).
    destruct (reads_blob d1 data_sign (be32_bytes flags) Hb1 Hu1 Hd)
      as (d2 & Heq2 & _ & Hb2 & Hu2).
    destruct (reads_BE32 d2 flags [] Hb2) as (d3 & Heq3 & _);
      [now rewrite app_nil_r|exact Hflags|].
    rewrite (Deser_bind_Ok _ _ _ _ _ Heq1), (Deser_bind_Ok _ _ _ _ _ Heq2),
      (Deser_bind_Ok _ _ _ _ _ Heq3).
    reflexivity.
Qed.

(** X1. A sign request that [SignRequestMessage::serialize] encodes is
    a frame whose first four bytes count the bytes after them, which
    [Message] reads as a SIGN_REQUEST and [SignRequestMessage] decodes to
    the same key blob, data and flags. *)
Theorem SignRequestMessage_roundtrip (m : SignRequestMessage.t) (frame : bytes) :
  0 <= SignRequestMessage.m_flags m < 2 ^ 32 →
  SignRequestMessage.serialize m = Ok frame →
  parse readBE32 frame = Ok (Z.of_nat (length frame) - 4)
  ∧ Message.of_bytes frame = Ok (Message.mk SSH_AGENTC_SIGN_REQUEST frame)
  ∧ SignRequestMessage.of_message (Message.mk SSH_AGENTC_SIGN_REQUEST frame) = Ok m.
Proof. apply sign_request_frame. Qed.


Lemma reads_blob_secure (d : Deserializer.t) (v r : bytes) :
  in_bounds d → unread d = blob_bytes v ++ r →
  Z.of_nat (length v) < 2 ^ 32 →
  reads readBlobSecure d v r.
Proof.
  intros Hb Hu Hv. unfold blob_bytes in Hu. rewrite <- app_assoc in Hu.
  destruct (reads_bind readBE32 (take_blob "Not enough data to read secure blob") d
              (Z.of_nat (length v)) (v ++ r)) as (d1 & Heq & Hd1 & Hb1 & Hu1).
  { apply reads_BE32; [assumption|assumption|lia]. }
  destruct (reads_take_blob "Not enough data to read secure blob" d1 v r Hb1 Hu1)
    as (d2 & Heq2 & Hd2 & Hb2 & Hu2).
  exists d2.
  change (readBlobSecure d)
    with ((readBE32 ≫= take_blob "Not enough data to read secure blob") d).
  rewrite Heq, Heq2.
  split; [reflexivity|]. split; [congruence|]. split; assumption.
Qed.

(** The frame of a message whose body is one blob. *)
Lemma one_blob_frame (ty : byte) (blob frame : bytes) :
  Serializer.build (λ s, s1 ← serialize_header ty s;
                         s2 ← Serializer.writeBlob blob s1;
                         Serializer.finalize s2) = Ok frame →
  frame = be32_bytes (Z.of_nat (length (blob_bytes blob)) + 1) ++ [ty] ++ blob_bytes blob
  ∧ 0 <= Z.of_nat (length (blob_bytes blob)) + 1 < 2 ^ 32
  ∧ Z.of_nat (length blob) < 2 ^ 32.
Proof.
  unfold build. intros Hser.
  apply result_bind_Ok in Hser as (s3 & Hser & [= <-]).
  apply result_bind_Ok in Hser as (s1 & H1 & Hser).
  apply result_bind_Ok in Hser as (s2 & H2 & H3).
  apply serialize_header_empty in H1.
  apply writeBlob_append in H2 as (H2 & Hsize & Hk).
  assert (Hdata : Serializer.m_data s2 = (be32_bytes 1 ++ [ty]) ++ blob_bytes blob).
  { now rewrite H2, H1. }
  destruct (finalize_frame _ _ s2 s3 Hdata Hsize H3) as (Hframe & Hn).
  unfold Serializer.data. now rewrite Hframe.
Qed.

(** X2. A signature that [SignResponseMessage::serialize] encodes is a
    frame whose first four bytes count the bytes after them, and which
    decodes to the same signature. *)
Theorem SignResponseMessage_roundtrip (signature frame : bytes) :
  SignResponseMessage.serialize signature = Ok frame →
  parse readBE32 frame = Ok (Z.of_nat (length frame) - 4)
  ∧ Message.of_bytes frame = Ok (Message.mk SSH_AGENT_SIGN_RESPONSE frame)
  ∧ SignResponseMessage.of_message (Message.mk SSH_AGENT_SIGN_RESPONSE frame)
    = Ok signature.
Proof.
  intros Hser. apply one_blob_frame in Hser as (-> & Hn & Hlen).
  split; [|split].
  - rewrite length_prefix_framed by exact Hn. f_equal.
    rewrite length_app. change (length (be32_bytes _)) with 4%nat.
    cbn [app length]. lia.
  - now apply of_bytes_framed.
  - unfold SignResponseMessage.of_message, check_source.
    cbn [Message.type Message.m_type Message.m_data Message.data].
    rewrite bool_decide_eq_true_2 by reflexivity. cbn [negb].
    rewrite decide_False by discriminate. cbn.
    destruct (frame_header_reads _ SSH_AGENT_SIGN_RESPONSE (blob_bytes signature) Hn)
      as (d & Hhdr & Hb & Hu).
    unfold parse, SignResponseMessage.deserialize.
    rewrite (Deser_bind_Ok _ _ _ _ _ Hhdr).
    rewrite decide_False by (intros Hne; now apply Hne).
    destruct (reads_blob d signature [] Hb) as (d1 & Heq1 & _);
      [now rewrite app_nil_r|exact Hlen|].
    now rewrite Heq1.
Qed.



(** X3. A passphrase that [LockMessageBase<T>::serialize] encodes
    decodes to the same passphrase under the same type [T], and is
    refused under any other type: a LOCK frame is no UNLOCK frame. *)
Theorem LockMessage_roundtrip (msg_type other : byte) (m : LockMessageBase.t)
    (frame : bytes) :
  other ≠ msg_type →
  LockMessageBase.serialize msg_type m = Ok frame →
  Message.of_bytes frame = Ok (Message.mk msg_type frame)
  ∧ LockMessageBase.of_message msg_type (Message.mk msg_type frame) = Ok m
  ∧ LockMessageBase.of_message other (Message.mk msg_type frame)
    = Throw (runtime_error "LockMessage: incorrect message type").
Proof.
  destruct m as [password]. intros Hother Hser.
  apply one_blob_frame in Hser as (-> & Hn & Hlen).
  split; [now apply of_bytes_framed|]. split.
  - unfold LockMessageBase.of_message, check_source.
    cbn [Message.type Message.m_type Message.m_data Message.data].
    rewrite bool_decide_eq_true_2 by reflexivity. cbn [negb].
    rewrite decide_False by discriminate. cbn.
    destruct (frame_header_reads _ msg_type (blob_bytes password) Hn)
      as (d & Hhdr & Hb & Hu).
    unfold parse, LockMessageBase.deserialize.
    rewrite (Deser_bind_Ok _ _ _ _ _ Hhdr).
    rewrite decide_False by (intros Hne; now apply Hne).
    destruct (reads_blob_secure d password [] Hb) as (d1 & Heq1 & _);
      [now rewrite app_nil_r|exact Hlen|].
    rewrite (Deser_bind_Ok _ _ _ _ _ Heq1). reflexivity.
  - unfold LockMessageBase.of_message, check_source.
    cbn [Message.type Message.m_type].
    rewrite bool_decide_eq_false_2 by congruence. reflexivity.
Qed.


Lemma write_identities_append (ids : list (bytes * string)) (s s' : Serializer.t) :
  IdentitiesAnswerMessage.write_identities ids s = Ok s' →
  Serializer.m_data s'
  = Serializer.m_data s ++ concat ((λ i, blob_bytes i.1 ++ string_bytes i.2) <$> ids)
  ∧ (size s <= MAX_SERIALIZED_SIZE → size s' <= MAX_SERIALIZED_SIZE)
  ∧ Forall (λ i, Z.of_nat (length i.1) < 2 ^ 32
                 ∧ Z.of_nat (String.length i.2) < 2 ^ 32) ids.
Proof.
  revert s. induction ids as [|[blob comment_] ids IH]; intros s Hw.
  - injection Hw as <-. cbn [fmap list_fmap concat]. rewrite app_nil_r.
    split; [reflexivity|]. split; [tauto|constructor].
  - cbn [IdentitiesAnswerMessage.write_identities] in Hw.
    apply result_bind_Ok in Hw as (s1 & H1 & Hw).
    apply result_bind_Ok in Hw as (s2 & H2 & Hw).
    apply writeBlob_append in H1 as (H1 & _ & Hb).
    apply writeString_append in H2 as (H2 & Hsize2 & Hc).
    destruct (IH s2 Hw) as (Hd & Hs & Hall).
    split; [|split].
    + rewrite Hd, H2, H1. cbn [fmap list_fmap concat fst snd].
      now rewrite <- !app_assoc.
    + intros _. now apply Hs.
    + constructor; [now split|exact Hall].
Qed.

Lemma read_identities_reads (ids : list (bytes * string)) (d : Deserializer.t) (r : bytes) :
  in_bounds d →
  unread d = concat ((λ i, blob_bytes i.1 ++ string_bytes i.2) <$> ids) ++ r →
  Forall (λ i, Z.of_nat (length i.1) < 2 ^ 32
               ∧ Z.of_nat (String.length i.2) < 2 ^ 32) ids →
  reads (IdentitiesAnswerMessage.read_identities (length ids)) d ids r.
Proof.
  revert d. induction ids as [|[blob comment_] ids IH]; intros d Hb Hu Hall.
  - exists d. split; [reflexivity|]. split; [reflexivity|]. split; [exact Hb|exact Hu].
  - apply Forall_cons in Hall as ((Hlb & Hlc) & Hall).
    cbn [fmap list_fmap concat fst snd] in Hu. rewrite <- !app_assoc in Hu.
    destruct (reads_blob d blob _ Hb Hu Hlb) as (d1 & Heq1 & Hd1 & Hb1 & Hu1).
    destruct (reads_string d1 comment_ _ Hb1 Hu1 (string_size_bound _ Hlc))
      as (d2 & Heq2 & Hd2 & Hb2 & Hu2).
    destruct (IH d2 Hb2 Hu2 Hall) as (d3 & Heq3 & Hd3 & Hb3 & Hu3).
    exists d3. cbn [length IdentitiesAnswerMessage.read_identities].
    rewrite (Deser_bind_Ok _ _ _ _ _ Heq1), (Deser_bind_Ok _ _ _ _ _ Heq2),
      (Deser_bind_Ok _ _ _ _ _ Heq3).
    split; [reflexivity|]. split; [congruence|]. now split.
Qed.

Lemma length_concat_identities (ids : list (bytes * string)) :
  (length ids <= length (concat ((λ i, blob_bytes i.1 ++ string_bytes i.2) <$> ids)))%nat.
Proof.
  induction ids as [|i ids IH]; [reflexivity|].
  cbn [fmap list_fmap concat]. rewrite !length_app.
  unfold blob_bytes at 1. rewrite length_app.
  change (length (be32_bytes _)) with 4%nat. cbn [length]. lia.
Qed.

(** X4. The list of identities that [IdentitiesAnswerMessage::serialize]
    encodes decodes to the same list, in the same order. *)
Theorem IdentitiesAnswerMessage_roundtrip (ids : list (bytes * string)) (frame : bytes) :
  IdentitiesAnswerMessage.serialize ids = Ok frame →
  parse readBE32 frame = Ok (Z.of_nat (length frame) - 4)
  ∧ Message.of_bytes frame = Ok (Message.mk SSH_AGENT_IDENTITIES_ANSWER frame)
  ∧ IdentitiesAnswerMessage.of_message (Message.mk SSH_AGENT_IDENTITIES_ANSWER frame)
    = Ok ids.
Proof.
  intros Hser. unfold IdentitiesAnswerMessage.serialize, build in Hser.
  apply result_bind_Ok in Hser as (s4 & Hser & [= <-]).
  apply result_bind_Ok in Hser as (s1 & H1 & Hser).
  apply result_bind_Ok in Hser as (s2 & H2 & Hser).
  apply result_bind_Ok in Hser as (s3 & H3 & H4).
  apply serialize_header_empty in H1.
  apply writeBE32_append in H2 as (H2 & Hsize2).
  apply write_identities_append in H3 as (H3 & Hsize3 & Hall).
  specialize (Hsize3 Hsize2).
  set (items := concat ((λ i, blob_bytes i.1 ++ string_bytes i.2) <$> ids)) in *.
  assert (Hcount : 0 <= Z.of_nat (length ids) < 2 ^ 32).
  { pose proof (length_concat_identities ids) as Hle. fold items in Hle.
    unfold size, MAX_SERIALIZED_SIZE in Hsize3. rewrite H3, length_app in Hsize3. lia. }
  unfold to_uint32 in H2. rewrite Z.mod_small in H2 by exact Hcount.
  set (body := be32_bytes (Z.of_nat (length ids)) ++ items).
  assert (Hdata : Serializer.m_data s3
                  = (be32_bytes 1 ++ [SSH_AGENT_IDENTITIES_ANSWER]) ++ body).
  { rewrite H3, H2, H1. subst body. now rewrite <- !app_assoc. }
  destruct (finalize_frame _ body s3 s4 Hdata Hsize3 H4) as (Hframe & Hn).
  unfold Serializer.data. rewrite Hframe.
  split; [|split].
  - rewrite length_prefix_framed by exact Hn. f_equal.
    rewrite length_app. change (length (be32_bytes _)) with 4%nat.
    cbn [app length]. lia.
  - now apply of_bytes_framed.
  - unfold IdentitiesAnswerMessage.of_message.
    cbn [Message.type Message.m_type Message.m_data Message.data].
    rewrite bool_decide_eq_true_2 by reflexivity. cbn [negb].
    rewrite decide_False by discriminate.
    destruct (frame_header_reads _ SSH_AGENT_IDENTITIES_ANSWER body Hn)
      as (d & Hhdr & Hb & Hu).
    unfold parse, IdentitiesAnswerMessage.deserialize.
    rewrite (Deser_bind_Ok _ _ _ _ _ Hhdr).
    rewrite decide_False by (intros Hne; now apply Hne).
    assert (Hleft : Deserializer.remaining d = Ok (Z.of_nat (length body), d)).
    { unfold Deserializer.remaining. now rewrite <- (unread_length d Hb), Hu. }
    rewrite (Deser_bind_Ok _ _ _ _ _ Hleft).
    rewrite decide_False.
    2:{ subst body. rewrite length_app. change (length (be32_bytes _)) with 4%nat. lia. }
    destruct (reads_BE32 d (Z.of_nat (length ids)) items Hb Hu Hcount)
      as (d1 & Heq1 & _ & Hb1 & Hu1).
    rewrite (Deser_bind_Ok _ _ _ _ _ Heq1), Nat2Z.id.
    destruct (read_identities_reads ids d1 [] Hb1) as (d2 & Heq2 & _);
      [now rewrite app_nil_r|exact Hall|].
    now rewrite Heq2.
Qed.


Lemma SignRequestMessage_roundtrip_witness :
  ∃ frame,
    SignRequestMessage.serialize (SignRequestMessage.mk [x6b; x31] [x01; x02] 2) = Ok frame
    ∧ SignRequestMessage.of_message (Message.mk SSH_AGENTC_SIGN_REQUEST frame)
      = Ok (SignRequestMessage.mk [x6b; x31] [x01; x02] 2).
Proof.
  eexists. split; [vm_compute; reflexivity|].
  refine (proj2 (proj2 (SignRequestMessage_roundtrip
                          (SignRequestMessage.mk [x6b; x31] [x01; x02] 2) _ _ _))).
  - cbn [SignRequestMessage.m_flags]. lia.
  - vm_compute. reflexivity.
Defined.

Lemma SignResponseMessage_roundtrip_witness :
  ∃ frame,
    SignResponseMessage.serialize [x0a; x0b; x0c] = Ok frame
    ∧ SignResponseMessage.of_message (Message.mk SSH_AGENT_SIGN_RESPONSE frame)
      = Ok [x0a; x0b; x0c].
Proof.
  eexists. split; [vm_compute; reflexivity|].
  refine (proj2 (proj2 (SignResponseMessage_roundtrip [x0a; x0b; x0c] _ _))).
  vm_compute. reflexivity.
Defined.


Lemma LockMessage_roundtrip_witness :
  ∃ frame,
    LockMessageBase.serialize SSH_AGENTC_LOCK (LockMessageBase.mk [x70; x77]) = Ok frame
    ∧ LockMessageBase.of_message SSH_AGENTC_LOCK (Message.mk SSH_AGENTC_LOCK frame)
      = Ok (LockMessageBase.mk [x70; x77])
    ∧ LockMessageBase.of_message SSH_AGENTC_UNLOCK (Message.mk SSH_AGENTC_LOCK frame)
      = Throw (runtime_error "LockMessage: incorrect message type").
Proof.
  eexists. split; [vm_compute; reflexivity|].
  refine (proj2 (LockMessage_roundtrip SSH_AGENTC_LOCK SSH_AGENTC_UNLOCK
                   (LockMessageBase.mk [x70; x77]) _ _ _)).
  - discriminate.
  - vm_compute. reflexivity.
Defined.

Lemma IdentitiesAnswerMessage_roundtrip_witness :
  ∃ frame,
    IdentitiesAnswerMessage.serialize [([x6b; x31], "first"); ([x6b; x32], "")] = Ok frame
    ∧ IdentitiesAnswerMessage.of_message (Message.mk SSH_AGENT_IDENTITIES_ANSWER frame)
      = Ok [([x6b; x31], "first"); ([x6b; x32], "")].
Proof.
  eexists. split; [vm_compute; reflexivity|].
  refine (proj2 (proj2 (IdentitiesAnswerMessage_roundtrip
                          [([x6b; x31], "first"); ([x6b; x32], "")] _ _))).
  vm_compute. reflexivity.
Defined.

End WireFacts.

(** ** Destination constraints on the wire *)

Module DestinationWireFacts.
Import Serializer Deserializer MonadFacts CodecFacts ExtensionFacts WireFacts.
Import RestrictDestination Extension.

Lemma write_hop_keys_append (keys : list OpenSSHHopKey) (s s' : Serializer.t) :
  write_hop_keys keys s = Ok s' →
  Serializer.m_data s'
  = Serializer.m_data s
    ++ concat ((λ k, blob_bytes (key k) ++ [if key_is_ca k then x01 else x00]) <$> keys)
  ∧ Forall (λ k, Z.of_nat (length (key k)) < 2 ^ 32) keys.
Proof.
  revert s. induction keys as [|k keys IH]; intros s Hw.
  - injection Hw as <-. cbn [fmap list_fmap concat]. rewrite app_nil_r.
    split; [reflexivity|constructor].
  - cbn [write_hop_keys] in Hw.
    apply result_bind_Ok in Hw as (s1 & H1 & Hw).
    apply result_bind_Ok in Hw as (s2 & H2 & Hw).
    apply writeBlob_append in H1 as (H1 & _ & Hk).
    apply writeByte_append in H2 as (H2 & _).
    destruct (IH s2 Hw) as (Hd & Hall).
    split; [|now constructor].
    rewrite Hd, H2, H1. cbn [fmap list_fmap concat]. now rewrite <- !app_assoc.
Qed.

(** The key loop of the hop constructor reads back what the key loop of
    [serialize] wrote, when it is given the rounds it needs. *)
Lemma read_hop_keys_reads (keys : list OpenSSHHopKey) (fuel : nat) (d : Deserializer.t) :
  in_bounds d →
  unread d
  = concat ((λ k, blob_bytes (key k) ++ [if key_is_ca k then x01 else x00]) <$> keys) →
  Forall (λ k, Z.of_nat (length (key k)) < 2 ^ 32) keys →
  (length keys <= fuel)%nat →
  ∃ d', read_hop_keys fuel d = Ok (keys, d').
Proof.
  revert fuel d. induction keys as [|k keys IH]; intros fuel d Hb Hu Hall Hfuel.
  - exists d. pose proof (unread_length d Hb) as Hlen. rewrite Hu in Hlen.
    cbn [fmap list_fmap concat length] in Hlen.
    destruct fuel; cbn [read_hop_keys]; rewrite decide_False by lia; reflexivity.
  - apply Forall_cons in Hall as (Hk & Hall).
    cbn [fmap list_fmap concat] in Hu. rewrite <- !app_assoc in Hu.
    pose proof (unread_length d Hb) as Hlen. rewrite Hu in Hlen.
    unfold blob_bytes at 1 in Hlen. rewrite !length_app in Hlen.
    change (length (be32_bytes _)) with 4%nat in Hlen.
    destruct fuel as [|fuel]; [cbn [length] in Hfuel; lia|].
    cbn [read_hop_keys]. rewrite decide_True by lia.
    destruct (reads_blob d (key k) _ Hb Hu Hk) as (d1 & Heq1 & _ & Hb1 & Hu1).
    destruct (reads_byte d1 _ _ Hb1 Hu1) as (d2 & Heq2 & _ & Hb2 & Hu2).
    destruct (IH fuel d2 Hb2 Hu2 Hall) as (d3 & Heq3).
    { cbn [length] in Hfuel. lia. }
    exists d3.
    rewrite (Deser_bind_Ok _ _ _ _ _ Heq1), (Deser_bind_Ok _ _ _ _ _ Heq2),
      (Deser_bind_Ok _ _ _ _ _ Heq3).
    destruct k as [kk ca]. cbn [key key_is_ca]. destruct ca; reflexivity.
Qed.

Lemma length_concat_hop_keys (keys : list OpenSSHHopKey) :
  (length keys
   <= length (concat ((λ k, blob_bytes (key k) ++ [if key_is_ca k then x01 else x00])
                        <$> keys)))%nat.
Proof.
  induction keys as [|k keys IH]; [reflexivity|].
  cbn [fmap list_fmap concat]. rewrite !length_app. cbn [length]. lia.
Qed.

Lemma hop_of_bytes_serialize (h : OpenSSHHopDescriptor) (data : bytes) :
  OpenSSHHopDescriptor_serialize h = Ok data →
  OpenSSHHopDescriptor_of_bytes data = Ok h.
Proof.
  destruct h as [user_ hostname keys].
  unfold OpenSSHHopDescriptor_serialize, build. cbn [m_user m_hostname m_keys].
  intros Hser.
  apply result_bind_Ok in Hser as (s4 & Hser & [= <-]).
  apply result_bind_Ok in Hser as (s1 & H1 & Hser).
  apply result_bind_Ok in Hser as (s2 & H2 & Hser).
  apply result_bind_Ok in Hser as (s3 & H3 & H4).
  apply writeString_append in H1 as (H1 & _ & Hu).
  apply writeString_append in H2 as (H2 & _ & Hh).
  apply writeBlob_append in H3 as (H3 & _ & _).
  apply write_hop_keys_append in H4 as (H4 & Hall).
  set (tail := concat ((λ k, blob_bytes (key k) ++ [if key_is_ca k then x01 else x00])
                         <$> keys)) in *.
  assert (Hdata : Serializer.data s4
                  = string_bytes user_ ++ string_bytes hostname ++ blob_bytes [] ++ tail).
  { unfold Serializer.data. rewrite H4, H3, H2, H1. cbn [Serializer.m_data Serializer.empty app].
    now rewrite <- !app_assoc. }
  rewrite Hdata. unfold OpenSSHHopDescriptor_of_bytes, parse.
  set (data := string_bytes user_ ++ string_bytes hostname ++ blob_bytes [] ++ tail).
  destruct (of_bytes_in_bounds data) as [Hb0 Hu0].
  destruct (reads_string _ user_ _ Hb0 Hu0 (string_size_bound _ Hu))
    as (d1 & Heq1 & _ & Hb1 & Hu1).
  destruct (reads_string d1 hostname _ Hb1 Hu1 (string_size_bound _ Hh))
    as (d2 & Heq2 & _ & Hb2 & Hu2).
  destruct (reads_blob d2 [] tail Hb2 Hu2) as (d3 & Heq3 & _ & Hb3 & Hu3);
    [cbn [length]; lia|].
  destruct (read_hop_keys_reads keys (length data) d3 Hb3 Hu3 Hall) as (d4 & Heq4).
  { pose proof (length_concat_hop_keys keys) as Hle. fold tail in Hle.
    subst data. rewrite !length_app. lia. }
  rewrite (Deser_bind_Ok _ _ _ _ _ Heq1), (Deser_bind_Ok _ _ _ _ _ Heq2),
    (Deser_bind_Ok _ _ _ _ _ Heq3).
  rewrite decide_False by (intros Hne; now apply Hne).
  rewrite (Deser_bind_Ok _ _ _ _ _ Heq4). reflexivity.
Qed.

(** X5. A hop descriptor that [OpenSSHHopDescriptor::serialize] encodes
    is decoded by the constructor to the same user, host name and keys,
    CA flags included; the encoding never carries extensions. *)
Theorem OpenSSHHopDescriptor_roundtrip (h : OpenSSHHopDescriptor) (data : bytes) :
  OpenSSHHopDescriptor_serialize h = Ok data →
  OpenSSHHopDescriptor_of_bytes data = Ok h.
Proof. apply hop_of_bytes_serialize. Qed.

Lemma OpenSSHHopDescriptor_roundtrip_witness :
  ∃ data,
    OpenSSHHopDescriptor_serialize
      (mkHop "alice" "hostA" [mkHopKey [x01; x02] false; mkHopKey [x03] true]) = Ok data
    ∧ OpenSSHHopDescriptor_of_bytes data
      = Ok (mkHop "alice" "hostA" [mkHopKey [x01; x02] false; mkHopKey [x03] true]).
Proof.
  eexists. split; [vm_compute; reflexivity|].
  apply OpenSSHHopDescriptor_roundtrip. vm_compute. reflexivity.
Defined.

End DestinationWireFacts.

Module ConstraintWireFacts.
Import Serializer Deserializer MonadFacts CodecFacts ExtensionFacts WireFacts.
Import RestrictDestination Extension DestinationWireFacts.

(** A constraint that the constructor accepts is well formed. *)
Lemma constraint_of_bytes_well_formed
    (data : bytes) (c : OpenSSHSDestinationConstraint) :
  OpenSSHSDestinationConstraint_of_bytes data = Ok c → well_formed c.
Proof.
  unfold OpenSSHSDestinationConstraint_of_bytes. intros Hparse.
  apply result_bind_Ok in Hparse as ([[from_hop to_hop] extensions] & _ & Hparse).
  case_decide as Hext; [discriminate|].
  apply result_bind_Ok in Hparse as (from_ & _ & Hparse).
  apply result_bind_Ok in Hparse as (to_ & _ & Hparse).
  destruct (bool_decide (bool_decide (m_hostname from_ = "") ≠ bool_decide (m_keys from_ = [])))
    eqn:Hfrom; [discriminate|].
  destruct (bool_decide (m_user from_ = "")) eqn:Huser; [|discriminate].
  destruct (bool_decide (m_hostname to_ = "")) eqn:Hto; [discriminate|].
  destruct (bool_decide (m_keys to_ = [])) eqn:Hkeys; [discriminate|].
  cbn in Hparse. injection Hparse as <-.
  apply bool_decide_eq_false in Hfrom. apply bool_decide_eq_true in Huser.
  apply bool_decide_eq_false in Hto. apply bool_decide_eq_false in Hkeys.
  unfold well_formed. cbn [m_from_hop m_to_hop].
  split; [|now repeat split].
  apply dec_stable in Hfrom.
  rewrite <- (bool_decide_spec (m_hostname from_ = "")).
  rewrite <- (bool_decide_spec (m_keys from_ = [])).
  rewrite Hfrom. reflexivity.
Qed.


Lemma well_formed_checks (c : OpenSSHSDestinationConstraint) :
  well_formed c →
  bool_decide (bool_decide (m_hostname (m_from_hop c) = "")
               ≠ bool_decide (m_keys (m_from_hop c) = []))
  || negb (bool_decide (m_user (m_from_hop c) = "")) = false
  ∧ bool_decide (m_hostname (m_to_hop c) = "") || bool_decide (m_keys (m_to_hop c) = [])
    = false.
Proof.
  intros (Hiff & Huser & Hto & Hkeys).
  rewrite (bool_decide_eq_true_2 _ Huser), (bool_decide_eq_false_2 _ Hto),
    (bool_decide_eq_false_2 _ Hkeys).
  split; [|reflexivity]. cbn [negb]. rewrite orb_false_r.
  apply bool_decide_eq_false_2. intros Hne. apply Hne.
  apply bool_decide_ext. exact Hiff.
Qed.

(** The three blobs of an encoded constraint. *)
Lemma constraint_serialize_blobs (c : OpenSSHSDestinationConstraint) (data : bytes) :
  OpenSSHSDestinationConstraint_serialize c = Ok data →
  ∃ fb tb,
    OpenSSHHopDescriptor_serialize (m_from_hop c) = Ok fb
    ∧ OpenSSHHopDescriptor_serialize (m_to_hop c) = Ok tb
    ∧ parse (from_hop ← readBlob; to_hop ← readBlob; extensions ← readBlob;
             mret (from_hop, to_hop, extensions)) data = Ok (fb, tb, []).
Proof.
  unfold OpenSSHSDestinationConstraint_serialize, build. intros Hser.
  apply result_bind_Ok in Hser as (fb & Hfb & Hser).
  apply result_bind_Ok in Hser as (tb & Htb & Hser).
  apply result_bind_Ok in Hser as (s3 & Hser & [= <-]).
  apply result_bind_Ok in Hser as (s1 & H1 & Hser).
  apply result_bind_Ok in Hser as (s2 & H2 & H3).
  apply writeBlob_append in H1 as (H1 & _ & Hlf).
  apply writeBlob_append in H2 as (H2 & _ & Hlt).
  apply writeBlob_append in H3 as (H3 & _ & _).
  exists fb, tb. split; [exact Hfb|]. split; [exact Htb|].
  assert (Hdata : Serializer.data s3 = blob_bytes fb ++ blob_bytes tb ++ blob_bytes [] ++ []).
  { unfold Serializer.data. rewrite H3, H2, H1.
    cbn [Serializer.m_data Serializer.empty app]. rewrite <- !app_assoc.
    now rewrite app_nil_r. }
  rewrite Hdata. unfold parse.
  set (data := blob_bytes fb ++ blob_bytes tb ++ blob_bytes [] ++ []).
  destruct (of_bytes_in_bounds data) as [Hb0 Hu0].
  destruct (reads_blob _ fb _ Hb0 Hu0 Hlf) as (d1 & Heq1 & _ & Hb1 & Hu1).
  destruct (reads_blob d1 tb _ Hb1 Hu1 Hlt) as (d2 & Heq2 & _ & Hb2 & Hu2).
  destruct (reads_blob d2 [] [] Hb2 Hu2) as (d3 & Heq3 & _); [cbn [length]; lia|].
  rewrite (Deser_bind_Ok _ _ _ _ _ Heq1), (Deser_bind_Ok _ _ _ _ _ Heq2),
    (Deser_bind_Ok _ _ _ _ _ Heq3).
  reflexivity.
Qed.

Lemma constraint_of_bytes_serialize (c : OpenSSHSDestinationConstraint) (data : bytes) :
  OpenSSHSDestinationConstraint_serialize c = Ok data →
  well_formed c →
  OpenSSHSDestinationConstraint_of_bytes data = Ok c.
Proof.
  intros Hser Hwf.
  destruct (constraint_serialize_blobs c data Hser) as (fb & tb & Hfb & Htb & Hparse).
  unfold OpenSSHSDestinationConstraint_of_bytes. rewrite Hparse. cbn [mbind result_bind].
  rewrite decide_False by (intros Hne; now apply Hne).
  rewrite (hop_of_bytes_serialize _ _ Hfb), (hop_of_bytes_serialize _ _ Htb).
  cbn [mbind result_bind].
  destruct (well_formed_checks c Hwf) as (-> & ->). now destruct c.
Qed.

(** X6. An encoded constraint is decoded to the same constraint when
    it is well formed, and is refused otherwise: the constructor that
    builds a constraint from two hops does not check them, the one that
    decodes does. *)
Theorem OpenSSHSDestinationConstraint_roundtrip
    (c : OpenSSHSDestinationConstraint) (data : bytes) :
  OpenSSHSDestinationConstraint_serialize c = Ok data →
  (well_formed c → OpenSSHSDestinationConstraint_of_bytes data = Ok c)
  ∧ (¬ well_formed c →
     ∃ what, OpenSSHSDestinationConstraint_of_bytes data = Throw (runtime_error what)).
Proof.
  intros Hser. split; [now apply constraint_of_bytes_serialize|].
  intros Hbad.
  destruct (constraint_serialize_blobs c data Hser) as (fb & tb & Hfb & Htb & Hparse).
  unfold OpenSSHSDestinationConstraint_of_bytes. rewrite Hparse. cbn [mbind result_bind].
  rewrite decide_False by (intros Hne; now apply Hne).
  rewrite (hop_of_bytes_serialize _ _ Hfb), (hop_of_bytes_serialize _ _ Htb).
  cbn [mbind result_bind].
  destruct (bool_decide (bool_decide (m_hostname (m_from_hop c) = "")
                         ≠ bool_decide (m_keys (m_from_hop c) = []))
            || negb (bool_decide (m_user (m_from_hop c) = ""))) eqn:Hfrom;
    [eexists; reflexivity|].
  destruct (bool_decide (m_hostname (m_to_hop c) = "")
            || bool_decide (m_keys (m_to_hop c) = [])) eqn:Hto;
    [eexists; reflexivity|].
  exfalso. apply Hbad.
  apply (constraint_of_bytes_well_formed data).
  unfold OpenSSHSDestinationConstraint_of_bytes. rewrite Hparse. cbn [mbind result_bind].
  rewrite decide_False by (intros Hne; now apply Hne).
  rewrite (hop_of_bytes_serialize _ _ Hfb), (hop_of_bytes_serialize _ _ Htb).
  cbn [mbind result_bind]. rewrite Hfrom, Hto. now destruct c.
Qed.


Lemma OpenSSHSDestinationConstraint_roundtrip_witness :
  ∃ data,
    OpenSSHSDestinationConstraint_serialize Examples.to_host_A = Ok data
    ∧ OpenSSHSDestinationConstraint_of_bytes data = Ok Examples.to_host_A.
Proof.
  eexists. split; [vm_compute; reflexivity|].
  refine (proj1 (OpenSSHSDestinationConstraint_roundtrip Examples.to_host_A _ _) _).
  - vm_compute. reflexivity.
  - unfold well_formed, Examples.to_host_A. cbn [m_from_hop m_to_hop m_hostname m_keys m_user].
    split; [tauto|]. split; [reflexivity|]. split; discriminate.
Defined.

End ConstraintWireFacts.

(** ** Readers stay inside the buffer *)

Module ReaderFacts.
Import Serializer Deserializer MonadFacts CodecFacts.

Lemma Deser_bind_inv {A B} (p : Deser A) (f : A → Deser B)
    (d : Deserializer.t) (r : B * Deserializer.t) :
  (p ≫= f) d = Ok r → ∃ a d1, p d = Ok (a, d1) ∧ f a d1 = Ok r.
Proof.
  unfold mbind, Deser_bind. destruct (p d) as [[a d1]| |]; [|discriminate..].
  intros Hf. now exists a, d1.
Qed.

Lemma at_nonneg (d : Deserializer.t) (i : Z) : 0 <= at_ d i.
Proof. unfold at_. apply Z_of_byte_range. Qed.

Lemma readBE32_advances (d d' : Deserializer.t) (v : Z) :
  readBE32 d = Ok (v, d') →
  d' = advance d 4 ∧ m_offset d + 4 <= m_length d ∧ 0 <= v.
Proof.
  unfold readBE32. case_decide as Hlen; [discriminate|]. intros [= <- <-].
  split; [reflexivity|]. split; [lia|].
  repeat (apply Z.lor_nonneg; split); try apply Z.shiftl_nonneg; apply at_nonneg.
Qed.

Lemma take_blob_advances (what : string) (len : Z) (d d' : Deserializer.t) (v : bytes) :
  in_bounds d → 0 <= len →
  take_blob what len d = Ok (v, d') →
  d' = advance d len ∧ m_offset d + len <= m_length d
  ∧ v = take (Z.to_nat len) (unread d) ∧ Z.of_nat (length v) = len.
Proof.
  intros Hb Hlen. unfold take_blob. case_decide as Hfit; [discriminate|].
  intros Heq. injection Heq as <- <-. split; [reflexivity|]. split; [lia|].
  unfold range, unread. split; [reflexivity|].
  rewrite length_take, length_drop. unfold in_bounds, m_length in *. lia.
Qed.

(** A blob that [readBlob] returns is the stretch of the buffer after
    the four length bytes, as long as they say, and the read position
    moves by exactly that much, staying inside the buffer. *)
Lemma readBlob_advances (d d' : Deserializer.t) (v : bytes) :
  in_bounds d →
  readBlob d = Ok (v, d') →
  d' = advance d (4 + Z.of_nat (length v))
  ∧ in_bounds d'
  ∧ unread d = take 4 (unread d) ++ v ++ unread d'.
Proof.
  intros Hb Hread. unfold readBlob in Hread.
  apply Deser_bind_inv in Hread as (len & d1 & H1 & Hread). revert Hread.
  apply readBE32_advances in H1 as (-> & Hfit1 & Hlen).
  assert (Hb1 : in_bounds (advance d 4)).
  { unfold in_bounds, advance, m_length in *. cbn [m_offset Deserializer.m_data]. lia. }
  intros H2. apply (take_blob_advances _ _ _ _ _ Hb1 Hlen) in H2 as (-> & Hfit2 & Hv & Hl).
  assert (Hu1 : unread (advance d 4) = drop 4 (unread d)).
  { unfold unread, advance. cbn [m_offset Deserializer.m_data].
    rewrite drop_drop. f_equal. unfold in_bounds in Hb. lia. }
  split; [|split].
  - unfold advance. cbn [m_offset Deserializer.m_data]. f_equal. lia.
  - unfold in_bounds, advance, m_length in *. cbn [m_offset Deserializer.m_data] in *. lia.
  - assert (Hu2 : unread (advance (advance d 4) len) = drop (Z.to_nat len) (drop 4 (unread d))).
    { rewrite <- Hu1. unfold unread, advance. cbn [m_offset Deserializer.m_data].
      rewrite drop_drop. f_equal. unfold in_bounds in Hb. lia. }
    rewrite Hu2, Hv, Hu1. now rewrite !take_drop.
Qed.


Lemma readByte_advances (d d' : Deserializer.t) (b : byte) :
  in_bounds d →
  readByte d = Ok (b, d') →
  in_bounds d' ∧ (length (unread d') < length (unread d))%nat.
Proof.
  intros Hb. unfold readByte. case_decide as Hfit; [discriminate|].
  intros Heq. injection Heq as _ <-.
  unfold in_bounds, advance, unread, m_length in *.
  cbn [m_offset Deserializer.m_data]. rewrite !length_drop. lia.
Qed.

Lemma readBlob_shortens (d d' : Deserializer.t) (v : bytes) :
  in_bounds d →
  readBlob d = Ok (v, d') →
  in_bounds d' ∧ (length (unread d') + 4 <= length (unread d))%nat.
Proof.
  intros Hb Hread. destruct (readBlob_advances d d' v Hb Hread) as (-> & Hb' & Hu).
  split; [exact Hb'|].
  pose proof (unread_length _ Hb) as H1. pose proof (unread_length _ Hb') as H2.
  unfold in_bounds, advance, m_length in *. cbn [m_offset Deserializer.m_data] in *. lia.
Qed.




End ReaderFacts.

(** ** The parsers of destination constraints end *)

Module ParserFacts.
Import Serializer Deserializer MonadFacts CodecFacts ReaderFacts.
Import RestrictDestination Extension.

Lemma total_lift {A} (r : result A) :
  (∀ w, r ≠ Stop w) → total (Deserializer.lift r).
Proof.
  intros Hr d w. unfold Deserializer.lift. destruct r as [a| |w']; cbn; try discriminate.
  now destruct (Hr w').
Qed.

(** The key loop of the hop constructor ends: each round takes bytes
    off the buffer. *)
Lemma read_hop_keys_ends (fuel : nat) (d : Deserializer.t) (w : halt) :
  in_bounds d → (length (unread d) <= fuel)%nat → read_hop_keys fuel d ≠ Stop w.
Proof.
  revert d w. induction fuel as [|fuel IH]; intros d w Hb Hfuel.
  - cbn [read_hop_keys]. pose proof (unread_length d Hb).
    rewrite decide_False by lia. discriminate.
  - cbn [read_hop_keys]. case_decide as Hleft; [|discriminate].
    destruct (readBlob d) as [[key_ d1]|e|w1] eqn:H1.
    + rewrite (Deser_bind_Ok _ _ _ _ _ H1).
      destruct (readBlob_shortens _ _ _ Hb H1) as (Hb1 & Hlen1).
      destruct (readByte d1) as [[ca d2]|e|w2] eqn:H2.
      * rewrite (Deser_bind_Ok _ _ _ _ _ H2).
        destruct (readByte_advances _ _ _ Hb1 H2) as (Hb2 & Hlen2).
        unfold mbind, Deser_bind.
        destruct (read_hop_keys fuel d2) as [[rest d3]|e|w3] eqn:H3; try discriminate.
        exfalso. apply (IH d2 w3 Hb2); [lia|exact H3].
      * rewrite (Deser_bind_Throw _ _ _ _ H2). discriminate.
      * now apply total_readByte in H2.
    + rewrite (Deser_bind_Throw _ _ _ _ H1). discriminate.
    + now apply total_readBlob in H1.
Qed.

Lemma hop_of_bytes_ends (data : bytes) (w : halt) :
  OpenSSHHopDescriptor_of_bytes data ≠ Stop w.
Proof.
  unfold OpenSSHHopDescriptor_of_bytes, parse.
  destruct (of_bytes_in_bounds data) as [Hb0 Hu0].
  destruct (readString (Deserializer.of_bytes data)) as [[user_ d1]|e|w1] eqn:H1.
  2:{ rewrite (Deser_bind_Throw _ _ _ _ H1). discriminate. }
  2:{ now apply total_readString in H1. }
  rewrite (Deser_bind_Ok _ _ _ _ _ H1).
  assert (Hd1 : in_bounds d1 ∧ (length (unread d1) <= length data)%nat).
  { unfold readString, fmap, Deser_fmap in H1.
    destruct (readBlob (Deserializer.of_bytes data)) as [[b d1']| |] eqn:Hr; [|discriminate..].
    injection H1 as _ <-. destruct (readBlob_shortens _ _ _ Hb0 Hr) as (? & Hl).
    rewrite Hu0 in Hl. split; [assumption|lia]. }
  destruct Hd1 as (Hb1 & Hl1).
  destruct (readString d1) as [[hostname d2]|e|w2] eqn:H2.
  2:{ rewrite (Deser_bind_Throw _ _ _ _ H2). discriminate. }
  2:{ now apply total_readString in H2. }
  rewrite (Deser_bind_Ok _ _ _ _ _ H2).
  assert (Hd2 : in_bounds d2 ∧ (length (unread d2) <= length data)%nat).
  { unfold readString, fmap, Deser_fmap in H2.
    destruct (readBlob d1) as [[b d2']| |] eqn:Hr; [|discriminate..].
    injection H2 as _ <-. destruct (readBlob_shortens _ _ _ Hb1 Hr) as (? & Hl).
    split; [assumption|lia]. }
  destruct Hd2 as (Hb2 & Hl2).
  destruct (readBlob d2) as [[extensions d3]|e|w3] eqn:H3.
  2:{ rewrite (Deser_bind_Throw _ _ _ _ H3). discriminate. }
  2:{ now apply total_readBlob in H3. }
  rewrite (Deser_bind_Ok _ _ _ _ _ H3).
  destruct (readBlob_shortens _ _ _ Hb2 H3) as (Hb3 & Hl3).
  case_decide as Hext; [discriminate|].
  destruct (read_hop_keys (length data) d3) as [[keys d4]|e|w4] eqn:H4.
  - rewrite (Deser_bind_Ok _ _ _ _ _ H4). discriminate.
  - rewrite (Deser_bind_Throw _ _ _ _ H4). discriminate.
  - exfalso. apply (read_hop_keys_ends (length data) d3 w4 Hb3); [lia|exact H4].
Qed.


Lemma constraint_of_bytes_ends (data : bytes) (w : halt) :
  OpenSSHSDestinationConstraint_of_bytes data ≠ Stop w.
Proof.
  unfold OpenSSHSDestinationConstraint_of_bytes.
  destruct (parse _ data) as [[[from_hop to_hop] extensions]|e|w1] eqn:Hparse.
  - cbn [mbind result_bind]. case_decide; [discriminate|].
    destruct (OpenSSHHopDescriptor_of_bytes from_hop) as [from_|e|w2] eqn:Hfrom;
      [|discriminate|now apply hop_of_bytes_ends in Hfrom].
    destruct (OpenSSHHopDescriptor_of_bytes to_hop) as [to_|e|w3] eqn:Hto;
      [|discriminate|now apply hop_of_bytes_ends in Hto].
    cbn [mbind result_bind].
    destruct (_ || _); [discriminate|]. destruct (_ || _); discriminate.
  - discriminate.
  - exfalso. revert Hparse. apply total_parse.
    repeat (apply total_bind; [apply total_readBlob|intros ?]). apply total_ret.
Qed.

(** The loop of [OpenSSHSRestrictDestination::deserialize] ends, and
    what it returns is never empty and holds well-formed constraints
    only. *)
Lemma read_constraints_ends (fuel : nat) (dd : Deserializer.t) (w : halt) :
  in_bounds dd → (length (unread dd) < fuel)%nat → read_constraints fuel dd ≠ Stop w.
Proof.
  revert dd w. induction fuel as [|fuel IH]; intros dd w Hb Hfuel; [lia|].
  cbn [read_constraints].
  destruct (readBlob dd) as [[b d1]|e|w1] eqn:H1.
  2:{ rewrite (Deser_bind_Throw _ _ _ _ H1). discriminate. }
  2:{ now apply total_readBlob in H1. }
  rewrite (Deser_bind_Ok _ _ _ _ _ H1).
  destruct (readBlob_shortens _ _ _ Hb H1) as (Hb1 & Hlen1).
  destruct (OpenSSHSDestinationConstraint_of_bytes b) as [c|e|w2] eqn:Hc.
  2:{ unfold mbind, Deser_bind, Deserializer.lift. cbn. discriminate. }
  2:{ now apply constraint_of_bytes_ends in Hc. }
  unfold mbind at 1, Deser_bind at 1, Deserializer.lift. cbn [mbind result_bind].
  unfold mbind at 1, Deser_bind at 1, remaining.
  case_decide as Hleft; [|discriminate].
  destruct (read_constraints fuel d1) as [[rest d2]|e|w3] eqn:H3.
  - rewrite (Deser_bind_Ok _ _ _ _ _ H3). discriminate.
  - rewrite (Deser_bind_Throw _ _ _ _ H3). discriminate.
  - exfalso. apply (IH d1 w3 Hb1); [lia|exact H3].
Qed.

Lemma read_constraints_well_formed (fuel : nat) (dd dd' : Deserializer.t)
    (cs : list OpenSSHSDestinationConstraint) :
  read_constraints fuel dd = Ok (cs, dd') → cs ≠ [] ∧ Forall well_formed cs.
Proof.
  revert dd dd' cs. induction fuel as [|fuel IH]; intros dd dd' cs; [discriminate|].
  cbn [read_constraints]. intros Hread.
  apply Deser_bind_inv in Hread as (b & d1 & _ & Hread).
  apply Deser_bind_inv in Hread as (c & d2 & Hc & Hread).
  apply Deser_bind_inv in Hread as (left & d3 & _ & Hread).
  assert (Hwf : well_formed c).
  { unfold Deserializer.lift in Hc.
    destruct (OpenSSHSDestinationConstraint_of_bytes b) as [c'| |] eqn:Hb; [|discriminate..].
    injection Hc as -> _.
    now apply (ConstraintWireFacts.constraint_of_bytes_well_formed b). }
  case_decide as Hleft.
  - apply Deser_bind_inv in Hread as (rest & d4 & Hrest & Hret).
    injection Hret as <- _. split; [discriminate|].
    constructor; [exact Hwf|]. now apply (IH d3 d4 rest).
  - injection Hread as <- _. split; [discriminate|].
    constructor; [exact Hwf|constructor].
Qed.

(** X7. [OpenSSHSRestrictDestination::deserialize] returns or throws on
    every input (its loops end), and what it returns is a non-empty
    list of well-formed constraints. *)
Theorem OpenSSHSRestrictDestination_deserialize_sound :
  total OpenSSHSRestrictDestination_deserialize
  ∧ ∀ (d d' : Deserializer.t) (ext : ExtensionBase),
      OpenSSHSRestrictDestination_deserialize d = Ok (ext, d') →
      ∃ cs, ext = OpenSSHSRestrictDestination cs ∧ cs ≠ [] ∧ Forall well_formed cs.
Proof.
  split.
  - unfold OpenSSHSRestrictDestination_deserialize.
    apply total_bind; [apply total_readBlob|intros data].
    apply total_bind; [|intros cs; apply total_ret].
    apply total_lift. intros w. unfold parse.
    destruct (of_bytes_in_bounds data) as [Hb Hu].
    destruct (read_constraints (S (length data)) (Deserializer.of_bytes data))
      as [[cs dd']|e|w'] eqn:Hread; [discriminate..|].
    exfalso.
    apply (read_constraints_ends (S (length data)) (Deserializer.of_bytes data) w' Hb);
      [rewrite Hu; lia|exact Hread].
  - intros d d' ext Hread. unfold OpenSSHSRestrictDestination_deserialize in Hread.
    apply Deser_bind_inv in Hread as (data & d1 & _ & Hread).
    apply Deser_bind_inv in Hread as (cs & d2 & Hcs & Hret).
    injection Hret as <- _. exists cs. split; [reflexivity|].
    unfold Deserializer.lift, parse in Hcs.
    destruct (read_constraints (S (length data)) (Deserializer.of_bytes data))
      as [[cs' dd']| |] eqn:Hloop; [|discriminate..].
    cbn in Hcs. injection Hcs as -> _.
    now apply (read_constraints_well_formed _ _ _ _ Hloop).
Qed.

End ParserFacts.

(** ** The restrict-destination extension on the wire *)

Module RestrictDestinationWireFacts.
Import Serializer Deserializer MonadFacts CodecFacts ReaderFacts WireFacts.
Import RestrictDestination Extension ConstraintWireFacts.

Lemma write_constraints_append (cs : list OpenSSHSDestinationConstraint)
    (out out' : Serializer.t) :
  write_constraints cs out = Ok out' →
  ∃ blobs,
    Forall2 (λ c b, OpenSSHSDestinationConstraint_serialize c = Ok b
                    ∧ Z.of_nat (length b) < 2 ^ 32) cs blobs
    ∧ Serializer.m_data out' = Serializer.m_data out ++ concat (blob_bytes <$> blobs).
Proof.
  revert out. induction cs as [|c cs IH]; intros out Hw.
  - injection Hw as <-. exists []. split; [constructor|].
    cbn [fmap list_fmap concat]. now rewrite app_nil_r.
  - cbn [write_constraints] in Hw.
    apply result_bind_Ok in Hw as (cb & Hcb & Hw).
    apply result_bind_Ok in Hw as (out1 & H1 & Hw).
    apply writeBlob_append in H1 as (H1 & _ & Hl).
    destruct (IH out1 Hw) as (blobs & Hall & Hd).
    exists (cb :: blobs). split; [now constructor|].
    rewrite Hd, H1. cbn [fmap list_fmap concat]. now rewrite <- app_assoc.
Qed.

Lemma read_constraints_reads (cs : list OpenSSHSDestinationConstraint) :
  ∀ (c : OpenSSHSDestinationConstraint) (blobs : list bytes) (fuel : nat)
    (d : Deserializer.t),
  Forall2 (λ c b, OpenSSHSDestinationConstraint_serialize c = Ok b
                  ∧ Z.of_nat (length b) < 2 ^ 32) (c :: cs) blobs →
  Forall well_formed (c :: cs) →
  in_bounds d →
  unread d = concat (blob_bytes <$> blobs) →
  (length (c :: cs) <= fuel)%nat →
  ∃ d', read_constraints fuel d = Ok (c :: cs, d').
Proof.
  induction cs as [|c2 cs IH]; intros c blobs fuel d Hall Hwf Hb Hu Hfuel.
  - apply Forall2_cons_inv_l in Hall as (b & blobs' & (Hser & Hl) & Hrest & ->).
    apply Forall2_nil_inv_l in Hrest as ->.
    apply Forall_cons in Hwf as (Hc & _).
    destruct fuel as [|fuel]; [cbn [length] in Hfuel; lia|].
    cbn [fmap list_fmap concat] in Hu.
    destruct (reads_blob d b [] Hb Hu Hl) as (d1 & Heq1 & _ & Hb1 & Hu1).
    exists d1. cbn [read_constraints].
    rewrite (Deser_bind_Ok _ _ _ _ _ Heq1).
    unfold mbind at 1, Deser_bind at 1, Deserializer.lift.
    rewrite (constraint_of_bytes_serialize c b Hser Hc). cbn [mbind result_bind].
    unfold mbind at 1, Deser_bind at 1, remaining.
    pose proof (unread_length d1 Hb1) as Hlen. rewrite Hu1 in Hlen. cbn [length] in Hlen.
    rewrite decide_False by lia. reflexivity.
  - apply Forall2_cons_inv_l in Hall as (b & blobs' & (Hser & Hl) & Hrest & ->).
    apply Forall_cons in Hwf as (Hc & Hwf).
    destruct fuel as [|fuel]; [cbn [length] in Hfuel; lia|].
    cbn [fmap list_fmap concat] in Hu.
    destruct (reads_blob d b _ Hb Hu Hl) as (d1 & Heq1 & _ & Hb1 & Hu1).
    destruct (IH c2 blobs' fuel d1 Hrest Hwf Hb1 Hu1) as (d2 & Heq2).
    { cbn [length] in *. lia. }
    exists d2. cbn [read_constraints].
    rewrite (Deser_bind_Ok _ _ _ _ _ Heq1).
    unfold mbind at 1, Deser_bind at 1, Deserializer.lift.
    rewrite (constraint_of_bytes_serialize c b Hser Hc). cbn [mbind result_bind].
    unfold mbind at 1, Deser_bind at 1, remaining.
    pose proof (unread_length d1 Hb1) as Hlen. rewrite Hu1 in Hlen.
    apply Forall2_cons_inv_l in Hrest as (b2 & blobs2 & _ & _ & ->).
    cbn [fmap list_fmap concat] in Hlen. unfold blob_bytes at 1 in Hlen.
    rewrite !length_app in Hlen. change (length (be32_bytes _)) with 4%nat in Hlen.
    rewrite decide_True by lia.
    rewrite (Deser_bind_Ok _ _ _ _ _ Heq2). reflexivity.
Qed.

Lemma length_concat_blobs (blobs : list bytes) :
  (length blobs <= length (concat (blob_bytes <$> blobs)))%nat.
Proof.
  induction blobs as [|b blobs IH]; [reflexivity|].
  cbn [fmap list_fmap concat]. unfold blob_bytes at 1. rewrite !length_app.
  change (length (be32_bytes _)) with 4%nat. cbn [length]. lia.
Qed.

(** X8. A non-empty list of well-formed constraints that
    [OpenSSHSRestrictDestination::serialize] encodes is decoded to the
    same list. The empty list is encoded as an empty blob, which
    [deserialize] does not accept: its loop reads one constraint before
    it looks at what is left. *)
Theorem OpenSSHSRestrictDestination_roundtrip
    (cs : list OpenSSHSDestinationConstraint) (s : Serializer.t) :
  OpenSSHSRestrictDestination_serialize cs Serializer.empty = Ok s →
  (cs ≠ [] → Forall well_formed cs →
   parse OpenSSHSRestrictDestination_deserialize (Serializer.data s)
   = Ok (OpenSSHSRestrictDestination cs))
  ∧ (cs = [] →
     parse OpenSSHSRestrictDestination_deserialize (Serializer.data s)
     = Throw (out_of_range "Not enough data to read uint32_t")).
Proof.
  unfold OpenSSHSRestrictDestination_serialize. intros Hser.
  apply result_bind_Ok in Hser as (out & Hout & Hser).
  apply writeBlob_append in Hser as (Hs & _ & Hl).
  apply write_constraints_append in Hout as (blobs & Hall & Hd).
  cbn [Serializer.m_data Serializer.empty app] in Hs, Hd.
  unfold Serializer.data in Hs, Hl. rewrite Hd in Hs, Hl.
  set (inner := concat (blob_bytes <$> blobs)) in *.
  unfold Serializer.data. rewrite Hs. unfold parse.
  destruct (of_bytes_in_bounds (blob_bytes inner)) as [Hb0 Hu0].
  destruct (reads_blob _ inner [] Hb0) as (d1 & Heq1 & _);
    [now rewrite app_nil_r|exact Hl|].
  unfold OpenSSHSRestrictDestination_deserialize.
  rewrite (Deser_bind_Ok _ _ _ _ _ Heq1).
  unfold mbind at 1, Deser_bind at 1, Deserializer.lift, parse.
  destruct (of_bytes_in_bounds inner) as [Hb Hu].
  split.
  - intros Hne Hwf. destruct cs as [|c cs]; [now destruct Hne|].
    destruct (read_constraints_reads cs c blobs (S (length inner))
                (Deserializer.of_bytes inner) Hall Hwf Hb Hu) as (d2 & Heq2).
    { pose proof (length_concat_blobs blobs) as Hle. fold inner in Hle.
      rewrite <- (Forall2_length _ _ _ Hall) in Hle. lia. }
    rewrite Heq2. reflexivity.
  - intros ->. apply Forall2_nil_inv_l in Hall as ->. reflexivity.
Qed.


Lemma OpenSSHSRestrictDestination_roundtrip_witness :
  ∃ s,
    OpenSSHSRestrictDestination_serialize [Examples.to_host_A] Serializer.empty = Ok s
    ∧ parse OpenSSHSRestrictDestination_deserialize (Serializer.data s)
      = Ok (OpenSSHSRestrictDestination [Examples.to_host_A]).
Proof.
  eexists. split; [vm_compute; reflexivity|].
  refine (proj1 (OpenSSHSRestrictDestination_roundtrip [Examples.to_host_A] _ _) _ _).
  - vm_compute. reflexivity.
  - discriminate.
  - constructor; [|constructor].
    unfold well_formed, Examples.to_host_A. cbn [m_from_hop m_to_hop m_hostname m_keys m_user].
    split; [tauto|]. split; [reflexivity|]. split; discriminate.
Defined.

End RestrictDestinationWireFacts.

(** ** Multiple-precision integers *)

Module MPIntFacts.
Import Serializer Deserializer MonadFacts CodecFacts WireFacts.

Lemma reads_mpint_raw (d : Deserializer.t) (v r : bytes) :
  in_bounds d → unread d = blob_bytes v ++ r →
  Z.of_nat (length v) < 2 ^ 32 →
  ∃ d', readMPInt d = Ok (strip_mpint v, d').
Proof.
  intros Hb Hu Hv. unfold blob_bytes in Hu. rewrite <- app_assoc in Hu.
  destruct (reads_BE32 d (Z.of_nat (length v)) (v ++ r) Hb Hu) as (d1 & Heq1 & _ & Hb1 & Hu1);
    [lia|].
  destruct (reads_take_blob "Not enough data to read mpint" d1 v r Hb1 Hu1)
    as (d2 & Heq2 & _).
  exists d2. unfold readMPInt.
  rewrite (Deser_bind_Ok _ _ _ _ _ Heq1), (Deser_bind_Ok _ _ _ _ _ Heq2). reflexivity.
Qed.

(** What [writeMPInt] puts into an empty serializer. *)
Lemma writeMPInt_empty (mpint : bytes) (s : Serializer.t) :
  writeMPInt mpint Serializer.empty = Ok s →
  ∃ v, Serializer.data s = blob_bytes v ∧ Z.of_nat (length v) < 2 ^ 32
       ∧ v = match mpint with
             | [] => []
             | b0 :: _ => if Z.land (Z_of_byte b0) 128 =? 0 then mpint else x00 :: mpint
             end.
Proof.
  destruct mpint as [|b0 rest]; cbn [writeMPInt].
  - intros Hw. apply writeBE32_append in Hw as (Hw & _).
    exists []. unfold Serializer.data. rewrite Hw. now repeat split.
  - cbv zeta. case_decide as Hsize; [discriminate|]. intros Hw.
    apply result_bind_Ok in Hw as (s1 & H1 & [= <-]).
    apply writeBE32_append in H1 as (H1 & _).
    unfold Serializer.data. cbn [Serializer.m_data]. rewrite H1.
    cbn [Serializer.m_data Serializer.empty app].
    unfold size, MAX_SERIALIZED_SIZE in Hsize. cbn [Serializer.m_data Serializer.empty length] in Hsize.
    destruct (Z.land (Z_of_byte b0) 128 =? 0) eqn:Htop; cbn [negb] in *.
    + exists (b0 :: rest). split; [|split; [cbn [length] in *; lia|reflexivity]].
      unfold blob_bytes, to_uint32. rewrite Z.mod_small by (cbn [length] in *; lia).
      rewrite Z.add_0_r. reflexivity.
    + exists (x00 :: b0 :: rest). split; [|split; [cbn [length] in *; lia|reflexivity]].
      unfold blob_bytes, to_uint32. rewrite Z.mod_small by (cbn [length] in *; lia).
      cbn [length app]. do 2 f_equal. lia.
Qed.

(** X9. A magnitude written by [writeMPInt] is read back by
    [readMPInt] unchanged (a zero byte is put in front of a set top bit
    and taken off again), unless the magnitude itself starts with a zero
    byte that is followed by a byte with the top bit set: then the zero
    byte is lost. *)
Theorem writeMPInt_readMPInt_roundtrip (mpint : bytes) (s : Serializer.t) :
  writeMPInt mpint Serializer.empty = Ok s →
  (head mpint ≠ Some x00 → parse readMPInt (Serializer.data s) = Ok mpint)
  ∧ (∀ b rest, mpint = x00 :: b :: rest → Z.land (Z_of_byte b) 128 ≠ 0 →
     parse readMPInt (Serializer.data s) = Ok (b :: rest)).
Proof.
  intros Hw. apply writeMPInt_empty in Hw as (v & Hdata & Hlen & Hv).
  rewrite Hdata. unfold parse.
  destruct (of_bytes_in_bounds (blob_bytes v)) as [Hb Hu].
  destruct (reads_mpint_raw _ v [] Hb) as (d' & Heq); [now rewrite app_nil_r|exact Hlen|].
  rewrite Heq. cbn [mbind result_bind fst]. split.
  - intros Hhead. f_equal. subst v. destruct mpint as [|b0 rest]; [reflexivity|].
    destruct (Z.land (Z_of_byte b0) 128 =? 0) eqn:Htop.
    + cbn [strip_mpint]. destruct rest as [|b1 rest]; [reflexivity|].
      rewrite decide_False; [reflexivity|]. intros ->. now apply Hhead.
    + cbn [strip_mpint]. rewrite decide_True by reflexivity. now rewrite Htop.
  - intros b rest -> Htop. f_equal. subst v.
    change (Z.land (Z_of_byte x00) 128 =? 0) with true. cbv iota.
    cbn [strip_mpint]. rewrite decide_True by reflexivity.
    now rewrite (proj2 (Z.eqb_neq _ _) Htop).
Qed.


Lemma writeMPInt_readMPInt_roundtrip_witness :
  ∃ s,
    writeMPInt [x80; x01] Serializer.empty = Ok s
    ∧ Serializer.data s = [x00; x00; x00; x03; x00; x80; x01]
    ∧ parse readMPInt (Serializer.data s) = Ok [x80; x01].
Proof.
  eexists. split; [vm_compute; reflexivity|]. split; [reflexivity|].
  refine (proj1 (writeMPInt_readMPInt_roundtrip [x80; x01] _ _) _).
  - vm_compute. reflexivity.
  - discriminate.
Defined.

End MPIntFacts.

(** ** KeyManager: the key list *)

Module KeyListFacts.
Import MonadFacts KeyBase KeyManager AddKeyFacts.

Lemma find_first_app {A} (P : A → Prop) `{∀ x, Decision (P x)} (l1 l2 : list A) :
  snd <$> list_find P (l1 ++ l2)
  = match snd <$> list_find P l1 with
    | Some x => Some x
    | None => snd <$> list_find P l2
    end.
Proof.
  destruct (list_find P l1) as [[i x]|] eqn:H1.
  - now rewrite (list_find_app_l _ _ _ _ _ H1).
  - rewrite (list_find_app_r _ _ _ H1). cbn.
    now destruct (list_find P l2) as [[j y]|].
Qed.

Lemma find_first_cons {A} (P : A → Prop) `{∀ x, Decision (P x)} (x : A) (l : list A) :
  snd <$> list_find P (x :: l)
  = if decide (P x) then Some x else snd <$> list_find P l.
Proof.
  cbn. case_decide; [reflexivity|]. now destruct (list_find P l) as [[j y]|].
Qed.

Lemma filter_all {A} (P : A → Prop) `{∀ x, Decision (P x)} (l : list A) :
  (∀ x, P x) → filter P l = l.
Proof.
  intros HP. induction l as [|x l IH]; [reflexivity|].
  rewrite filter_cons_True by apply HP. now rewrite IH.
Qed.

Section WithProviders.
Context `{KeyProvider} `{LockProvider}.

(** [getKey] returns the first key of the list that carries the blob. *)
Lemma getKey_find (blob : bytes) (km : KeyManager.t) :
  getKey blob km = snd <$> list_find (λ k, pubBlob k = blob) (m_keys km).
Proof.
  unfold getKey, findKey.
  destruct (list_find _ (m_keys km)) as [[i k]|] eqn:Hfind; [|reflexivity].
  apply list_find_Some in Hfind as (Hi & _). cbn. exact Hi.
Qed.

Lemma getKey_None (blob : bytes) (km : KeyManager.t) :
  getKey blob km = None ↔ blob ∉ pubBlob <$> m_keys km.
Proof.
  rewrite <- findKey_None. unfold getKey.
  destruct (findKey blob (m_keys km)) as [i|] eqn:Hfind; [|tauto].
  destruct (findKey_Some _ _ _ Hfind) as (k & Hk & _). cbn. rewrite Hk.
  split; discriminate.
Qed.

Lemma getKey_Some_elem (blob : bytes) (km : KeyManager.t) (k : KeyBase.t) :
  getKey blob km = Some k → k ∈ m_keys km ∧ pubBlob k = blob.
Proof.
  rewrite getKey_find. rewrite fmap_Some. intros ([i k'] & Hfind & ->).
  apply list_find_Some in Hfind as (Hi & Hblob & _).
  split; [now apply (list_elem_of_lookup_2 _ i)|exact Hblob].
Qed.

(** Under distinct blobs, a key of the list is the one [getKey] finds
    under its blob. *)
Lemma getKey_unique (km : KeyManager.t) (k : KeyBase.t) :
  blobs_unique km → k ∈ m_keys km → getKey (pubBlob k) km = Some k.
Proof.
  unfold blobs_unique. intros Huniq Hin.
  destruct (getKey (pubBlob k) km) as [k'|] eqn:Hget.
  - apply getKey_Some_elem in Hget as (Hin' & Hblob). f_equal.
    apply list_elem_of_lookup in Hin as (i & Hi), Hin' as (j & Hj).
    assert (i = j) as ->.
    { apply (NoDup_lookup _ i j (pubBlob k) Huniq);
        rewrite list_lookup_fmap; [now rewrite Hi|rewrite Hj; cbn; now rewrite Hblob]. }
    congruence.
  - apply getKey_None in Hget. exfalso. apply Hget.
    apply list_elem_of_fmap. now exists k.
Qed.

Section AddKey.
Context (kf : KeyFactory.t).

(** X10. Where the factory's [extractPubKey] and [createKey] agree on
    the blob, [addKey] on a list of distinct blobs leaves a list of
    distinct blobs whose last entry is the new key, found by [getKey]
    under its blob; an old key with that blob is gone, every other key
    stays. *)
Theorem addKey_installs_key (type : string) (blob : bytes) (comment_ : string)
    (km : KeyManager.t) (pub : bytes) (k : KeyBase.t) :
  KeyFactory.extractPubKey kf type blob = Ok pub →
  KeyFactory.createKey kf type blob comment_ = Ok (Some k) →
  pubBlob k = pub →
  blobs_unique km →
  let km' := (addKey kf type blob comment_ km).2 in
  (addKey kf type blob comment_ km).1 = Ok k
  ∧ blobs_unique km'
  ∧ last (m_keys km') = Some k
  ∧ getKey pub km' = Some k
  ∧ ∀ k0, pubBlob k0 ≠ pub → (k0 ∈ m_keys km' ↔ k0 ∈ m_keys km).
Proof.
  intros Hpub Hkey Hsame Huniq km'.
  pose proof (addKey_keeps_blobs_unique kf type blob comment_ km pub k
                Hpub Hkey Hsame Huniq) as Huniq'. fold km' in Huniq'.
  assert (Hkeys : m_keys km'
                  = match findKey pub (m_keys km) with
                    | Some i => delete i (m_keys km)
                    | None => m_keys km
                    end ++ [k]).
  { subst km'. now rewrite (addKey_keys kf type blob comment_ km pub k Hpub Hkey). }
  split; [now rewrite (addKey_keys kf type blob comment_ km pub k Hpub Hkey)|].
  split; [exact Huniq'|]. split; [rewrite Hkeys; apply last_snoc|]. split.
  - rewrite <- Hsame. apply getKey_unique; [exact Huniq'|].
    rewrite Hkeys. apply elem_of_app. right. now left.
  - intros k0 Hk0. rewrite Hkeys, elem_of_app, list_elem_of_singleton.
    destruct (findKey pub (m_keys km)) as [i|] eqn:Hfind.
    + destruct (findKey_Some _ _ _ Hfind) as (kold & Hi & Hold).
      rewrite <- (take_drop_middle (m_keys km) i kold Hi) at 2.
      rewrite delete_take_drop, !elem_of_app, elem_of_cons.
      split; [intros [[?|?]| ->]|intros [?|[ ->|?]]]; try tauto; congruence.
    + split; [intros [?| ->]|]; tauto || congruence.
Qed.

End AddKey.

(** X11. [removeKey] of a blob that no key carries changes nothing and
    tells no observer. Of a blob that a key carries (on a list of
    distinct blobs) it takes that key off the list, tells the observers
    before and after, and leaves every other key findable as before. *)
Theorem removeKey_removes (blob : bytes) (km : KeyManager.t) :
  blobs_unique km →
  let km' := (removeKey blob km).2 in
  (removeKey blob km).1 = Ok tt
  ∧ getKey blob km' = None
  ∧ blobs_unique km'
  ∧ (∀ blob', blob' ≠ blob → getKey blob' km' = getKey blob' km)
  ∧ match getKey blob km with
    | Some k => emitted km' = emitted km ++ [onKeyPreRemove k; onKeyRemoved (fingerprint k)]
    | None => km' = km
    end.
Proof.
  intros Huniq km'. subst km'.
  destruct (findKey blob (m_keys km)) as [i|] eqn:Hfind.
  - destruct (findKey_Some _ _ _ Hfind) as (k & Hi & Hblob).
    assert (Hget : getKey blob km = Some k).
    { unfold getKey. rewrite Hfind. exact Hi. }
    assert (Hrun : removeKey blob km
                   = (Ok tt, emit (onKeyRemoved (fingerprint k))
                               (set_keys (delete i (m_keys km))
                                  (emit (onKeyPreRemove k) km)))).
    { unfold removeKey. rewrite M_bind_get, Hfind, Hi. reflexivity. }
    rewrite Hrun, Hget. cbn [fst snd].
    set (km1 := emit _ _).
    assert (Hkeys1 : m_keys km1 = delete i (m_keys km)) by reflexivity.
    assert (Hsplit : m_keys km = take i (m_keys km) ++ k :: drop (S i) (m_keys km)).
    { symmetry. now apply take_drop_middle. }
    unfold blobs_unique in Huniq. rewrite Hsplit in Huniq.
    rewrite fmap_app, fmap_cons, Hblob in Huniq.
    apply NoDup_app in Huniq as (Hl & Hlr & Hr). apply NoDup_cons in Hr as (Hnot & Hr).
    split; [reflexivity|]. split; [|split; [|split]].
    + apply getKey_None. rewrite Hkeys1, delete_take_drop, fmap_app, elem_of_app.
      intros [Hin|Hin]; [apply (Hlr blob Hin); now left|contradiction].
    + unfold blobs_unique. rewrite Hkeys1, delete_take_drop, fmap_app.
      apply NoDup_app. split; [exact Hl|]. split; [|exact Hr].
      intros x Hx Hx'. apply (Hlr x Hx). now right.
    + intros blob' Hne. rewrite !getKey_find, Hkeys1.
      rewrite delete_take_drop. rewrite Hsplit at 3.
      rewrite !find_first_app, find_first_cons.
      now rewrite decide_False by congruence.
    + subst km1. cbn [emitted emit set_keys]. now rewrite <- app_assoc.
  - assert (Hget : getKey blob km = None).
    { unfold getKey. now rewrite Hfind. }
    assert (Hrun : removeKey blob km = (Ok tt, km)).
    { unfold removeKey. rewrite M_bind_get, Hfind. reflexivity. }
    rewrite Hrun, Hget. cbn [fst snd].
    split; [reflexivity|]. split; [exact Hget|]. split; [exact Huniq|].
    split; reflexivity.
Qed.

Lemma foldl_emit (f : KeyBase.t → Event) (keys : list KeyBase.t) (km : KeyManager.t) :
  foldl (λ km k, emit (f k) km) km keys
  = KeyManager.mk (m_keys km) (m_locked km) (m_failed_attempts km) (m_locked_until km)
      (m_lock_provider km) (emitted km ++ (f <$> keys)).
Proof.
  revert km. induction keys as [|k keys IH]; intros km.
  - cbn. rewrite app_nil_r. now destruct km.
  - cbn [foldl]. rewrite IH. cbn [emit m_keys m_locked m_failed_attempts m_locked_until
      m_lock_provider emitted fmap list_fmap]. now rewrite <- app_assoc.
Qed.

(** X12. [removeAllKeys] empties the list and tells the observers in
    three rounds: before the removal of every key, in the order of the
    list; then the removal of every key, by fingerprint, in the same
    order; then that the list is clear. The lock state is not touched. *)
Theorem removeAllKeys_clears (km : KeyManager.t) :
  removeAllKeys km
  = (Ok tt,
     KeyManager.mk [] (m_locked km) (m_failed_attempts km) (m_locked_until km)
       (m_lock_provider km)
       (emitted km ++ (onKeyPreRemove <$> m_keys km)
        ++ ((λ k, onKeyRemoved (fingerprint k)) <$> m_keys km) ++ [onKeysCleared])).
Proof.
  unfold removeAllKeys. rewrite M_bind_get. cbv zeta.
  rewrite !M_bind_modify. unfold modify. rewrite !foldl_emit.
  cbn [set_keys emit m_keys m_locked m_failed_attempts m_locked_until
       m_lock_provider emitted].
  unfold emit. cbn [m_keys m_locked m_failed_attempts m_locked_until
       m_lock_provider emitted].
  now rewrite <- !app_assoc.
Qed.

Lemma cleanup_loop_spec (now : Z) (todo kept : list KeyBase.t) (km : KeyManager.t) :
  cleanup_loop now todo kept km
  = KeyManager.mk (kept ++ filter (λ k, expired now k = false) todo)
      (m_locked km) (m_failed_attempts km) (m_locked_until km) (m_lock_provider km)
      (emitted km
       ++ concat ((λ k, [onKeyPreRemove k; onKeyRemoved (fingerprint k)])
                    <$> filter (λ k, expired now k = true) todo)).
Proof.
  revert kept km. induction todo as [|k todo IH]; intros kept km.
  - cbn. rewrite !app_nil_r. now destruct km.
  - cbn [cleanup_loop]. destruct (expired now k) eqn:Hexp.
    + rewrite IH. rewrite (filter_cons_False _ k) by congruence.
      rewrite (filter_cons_True _ k) by exact Hexp.
      cbn [emit m_keys m_locked m_failed_attempts m_locked_until m_lock_provider emitted
           fmap list_fmap concat].
      now rewrite <- !app_assoc.
    + rewrite IH. rewrite (filter_cons_True _ k) by exact Hexp.
      rewrite (filter_cons_False _ k) by congruence.
      now rewrite <- app_assoc.
Qed.

(** X13. When the clock reads [now], [cleanupExpiredKeys] keeps exactly
    the keys that have not expired, in their order, and tells the
    observers before and after the removal of each expired key; no
    expired key is left, and distinct blobs stay distinct. *)
Theorem cleanupExpiredKeys_keeps_live_keys (now : Z) (km : KeyManager.t) :
  let km' := (cleanupExpiredKeys now km).2 in
  (cleanupExpiredKeys now km).1 = Ok tt
  ∧ m_keys km' = filter (λ k, expired now k = false) (m_keys km)
  ∧ Forall (λ k, expired now k = false) (m_keys km')
  ∧ emitted km'
    = emitted km
      ++ concat ((λ k, [onKeyPreRemove k; onKeyRemoved (fingerprint k)])
                   <$> filter (λ k, expired now k = true) (m_keys km))
  ∧ (blobs_unique km → blobs_unique km').
Proof.
  intros km'. subst km'. unfold cleanupExpiredKeys, modify. cbn [fst snd].
  rewrite cleanup_loop_spec. cbn [m_keys emitted app].
  split; [reflexivity|]. split; [reflexivity|]. split; [|split; [reflexivity|]].
  - apply Forall_forall. intros k Hk. now apply list_elem_of_filter in Hk as (Hk & _).
  - unfold blobs_unique. cbn [m_keys]. intros Huniq.
    apply (sublist_NoDup _ _ Huniq). apply fmap_sublist. apply sublist_filter.
Qed.

(** X14. What [listKeys] shows to a session: every key when the session
    has no binding and no failed binding, and only the keys without
    destination constraints once a binding failed. *)
Theorem listKeys_by_session (session : SessionState.t) (km : KeyManager.t) :
  let item := λ k, mkItem (fingerprint k) (type_name k) (comment k) (pubBlob k) in
  (SessionState.bindingFailed session = true →
   listKeys session km = item <$> filter (λ k, destConstraints k = []) (m_keys km))
  ∧ (SessionState.bindingFailed session = false →
     SessionState.sessionBindings session = [] →
     listKeys session km = item <$> m_keys km).
Proof.
  intros item. unfold listKeys. split.
  - intros Hfailed. f_equal. apply list_filter_iff. intros k.
    unfold permitted, destConstraints. case_decide as Hc; [tauto|].
    rewrite Hfailed. cbn. split; [discriminate|contradiction].
  - intros Hok Hnone. f_equal. apply filter_all. intros k.
    unfold permitted. case_decide; [reflexivity|].
    rewrite Hok. now rewrite decide_True by exact Hnone.
Qed.

End WithProviders.

(** A nistp384 key declared under its own type, added to an empty
    agent. *)
Lemma addKey_installs_key_witness :
  let add := @addKey Examples.test_provider Examples.test_lock_provider
               Examples.ecdsa_factory "ecdsa-sha2-nistp384"
               Examples.nistp384_key_blob "a" in
  let km0 := @KeyManager.init Examples.test_provider Examples.test_lock_provider 0 in
  blobs_unique (add km0).2
  ∧ length (m_keys (add km0).2) = 1%nat.
Proof.
  intros add km0. split; [|vm_compute; reflexivity].
  refine (proj1 (proj2 (@addKey_installs_key Examples.test_provider
                          Examples.test_lock_provider Examples.ecdsa_factory
                          "ecdsa-sha2-nistp384" Examples.nistp384_key_blob "a"
                          km0 _ _ _ _ _ _))).
  - vm_compute. reflexivity.
  - vm_compute. reflexivity.
  - vm_compute. reflexivity.
  - apply NoDup_nil_2.
Defined.

Lemma removeKey_removes_witness :
  let km := Session.km Examples.bound_world in
  getKey [x6b; x31] km = Some Examples.restricted_key
  ∧ getKey [x6b; x31] (removeKey [x6b; x31] km).2 = None.
Proof.
  intros km. split; [vm_compute; reflexivity|].
  refine (proj1 (proj2 (@removeKey_removes Examples.test_provider
                          Examples.test_lock_provider [x6b; x31] km _))).
  apply NoDup_singleton.
Defined.

End KeyListFacts.

(** ** KeyManager: what unlocks the agent *)

Module UnlockSoundFacts.
Import MonadFacts KeyBase KeyManager.

Section WithProviders.
Context `{KeyProvider} `{LockProvider}.

(** The handler of a failed attempt does not return, and leaves the
    agent locked. *)
Lemma failed_attempt_stays_locked (now' : Z) (e : exn) (km : KeyManager.t) :
  ∃ r km1,
    (_ ← modify incr_failed_attempts;
     km' ← get;
     _ ← (if decide (m_failed_attempts km' > 2) then
            wait_time ← lift (static_cast_int (floor_pow_1_8 (m_failed_attempts km')));
            modify (set_locked_until (now' + wait_time * ticks_per_second))
          else mret tt);
     throw e : M KeyManager.t unit) km = (r, km1)
    ∧ (∀ a, r ≠ Ok a) ∧ m_locked km1 = m_locked km.
Proof.
  rewrite M_bind_modify, M_bind_get.
  case_decide as Hgt.
  - rewrite M_bind_eq.
    destruct (static_cast_int _) as [wait_time| |] eqn:Hcast;
      (eexists; eexists; split; [reflexivity|]; split; [discriminate|reflexivity]).
  - eexists; eexists; split; [reflexivity|]; split; [discriminate|reflexivity].
Qed.

(** X15. A call of [unlock] on a locked agent that returns or throws
    leaves the agent unlocked only when the clock has reached
    [m_locked_until] and the lock provider verifies the passphrase, and
    then it returns. Every other such call leaves the agent locked,
    whatever else it does. (Nothing is said of a call that ends in
    undefined behaviour or [abort()].) *)
Theorem unlock_needs_verified_passphrase (passphrase : bytes) (now now' : Z)
    (km : KeyManager.t) :
  m_locked km = true →
  returns_or_throws (unlock passphrase now now' km).1 = true →
  m_locked (unlock passphrase now now' km).2 = false →
  ∃ lp, m_lock_provider km = Some lp
        ∧ provider_verify passphrase lp = Ok true
        ∧ m_locked_until km <= now
        ∧ (unlock passphrase now now' km).1 = Ok tt.
Proof.
  intros Hlocked _. unfold unlock. rewrite M_bind_get, Hlocked. cbn [negb].
  destruct (m_lock_provider km) as [lp|] eqn:Hlp.
  2:{ cbn [snd stop]. congruence. }
  case_decide as Hnow.
  { rewrite M_bind_modify. cbn [snd throw]. cbn. congruence. }
  rewrite M_bind_eq, try_catch_eq.
  destruct (provider_verify passphrase lp) as [[|]|e|w] eqn:Hverify.
  - rewrite (M_bind_lift_Ok (Ok true) _ _ true eq_refl). cbn [negb].
    destruct (unlock_keys passphrase (m_keys km)) as [[[]|e|w] keys] eqn:Hkeys;
      cbv beta iota delta [fst snd].
    + intros _. exists lp.
      split; [reflexivity|]. split; [exact Hverify|]. split; [lia|reflexivity].
    + destruct (failed_attempt_stays_locked now' e (set_keys keys km))
        as (r & km1 & -> & Hr & Hl).
      destruct r as [a| |]; [now destruct (Hr a)|cbn [snd]; cbn in Hl; congruence..].
    + cbn. congruence.
  - rewrite (M_bind_lift_Ok (Ok false) _ _ false eq_refl). cbn [negb]. unfold throw at 1.
    cbv iota beta.
    destruct (failed_attempt_stays_locked now' (runtime_error "Incorrect passphrase") km)
      as (r & km1 & -> & Hr & Hl).
    destruct r as [a| |]; [now destruct (Hr a)|cbn [snd]; congruence..].
  - rewrite (M_bind_lift_Throw (Throw e) _ _ e eq_refl).
    destruct (failed_attempt_stays_locked now' e km) as (r & km1 & -> & Hr & Hl).
    destruct r as [a| |]; [now destruct (Hr a)|cbn [snd]; congruence..].
  - unfold lift at 1. rewrite M_bind_eq. cbn. congruence.
Qed.

End WithProviders.

Lemma unlock_needs_verified_passphrase_witness :
  ∃ lp, m_lock_provider Examples.locked_agent = Some lp
        ∧ @provider_verify Examples.test_lock_provider [x70] lp = Ok true
        ∧ m_locked_until Examples.locked_agent <= 0
        ∧ (@unlock Examples.test_provider Examples.test_lock_provider [x70] 0 0
             Examples.locked_agent).1 = Ok tt.
Proof.
  apply (@unlock_needs_verified_passphrase Examples.test_provider
           Examples.test_lock_provider [x70] 0 0 Examples.locked_agent).
  - vm_compute. reflexivity.
  - vm_compute. reflexivity.
  - vm_compute. reflexivity.
Defined.

(** The fourth wrong passphrase in a row, given while the agent is
    locked for five seconds, is refused with the time left. *)
Lemma unlock_throttled_witness :
  @unlock Examples.test_provider Examples.test_lock_provider [x70] 0 0
    (Examples.after_wrong_attempts 3 Examples.locked_agent)
  = (Throw (runtime_error_fmt
              "Too many failed unlock attempts, please wait {} seconds before retrying" 5),
     incr_failed_attempts (Examples.after_wrong_attempts 3 Examples.locked_agent)).
Proof.
  refine (@UnlockFacts.unlock_throttled Examples.test_provider Examples.test_lock_provider
            [x70] 0 0 (Examples.after_wrong_attempts 3 Examples.locked_agent)
            (Some [x70]) _ _ _).
  - vm_compute. reflexivity.
  - vm_compute. reflexivity.
  - vm_compute. reflexivity.
Defined.

(** The third wrong passphrase locks the agent for five seconds. *)
Lemma unlock_wrong_passphrase_witness :
  @unlock Examples.test_provider Examples.test_lock_provider [x71] 0 7
    (Examples.after_wrong_attempts 2 Examples.locked_agent)
  = (Throw (runtime_error "Incorrect passphrase"),
     set_locked_until (7 + 5 * ticks_per_second)
       (incr_failed_attempts (Examples.after_wrong_attempts 2 Examples.locked_agent))).
Proof.
  refine (@UnlockFacts.unlock_wrong_passphrase Examples.test_provider
            Examples.test_lock_provider [x71] 0 7
            (Examples.after_wrong_attempts 2 Examples.locked_agent) (Some [x70]) _ _ _ _ _).
  - vm_compute. reflexivity.
  - vm_compute. reflexivity.
  - vm_compute. discriminate.
  - vm_compute. reflexivity.
  - split; vm_compute; [discriminate|reflexivity].
Defined.

Lemma unlock_success_witness :
  @unlock Examples.test_provider Examples.test_lock_provider [x70] 0 0
    Examples.locked_agent
  = (Ok tt,
     set_failed_attempts 0
       (set_locked false (emit onUnlocked (set_keys [] Examples.locked_agent)))).
Proof.
  refine (@UnlockFacts.unlock_success Examples.test_provider Examples.test_lock_provider
            [x70] 0 0 Examples.locked_agent (Some [x70]) [] _ _ _ _ _).
  - vm_compute. reflexivity.
  - vm_compute. reflexivity.
  - vm_compute. discriminate.
  - vm_compute. reflexivity.
  - vm_compute. reflexivity.
Defined.

End UnlockSoundFacts.

(** ** Session: the requests that succeed *)

Module SessionFacts.
Import Serializer Deserializer MonadFacts CodecFacts ExtensionFacts GateFacts WireFacts.
Import RestrictDestination SessionState KeyBase Extension Message Session.

Section SessionBind.
Context `{KeyProvider}.
Context (kf : KeyFactory.t).

(** [OpenSSHSessionBind::deserialize] on a body whose signature is
    empty: the host key is parsed and made into a public key, and that
    is all; nothing is verified. *)
Lemma OpenSSHSessionBind_deserialize_unsigned
    (d : Deserializer.t) (fwd : byte)
    (key_type : string) (key_body hk_rest : bytes) (session_id_ : bytes)
    (pubkey : PubKeyBase) :
  let host_key_ := string_bytes key_type ++ blob_bytes key_body ++ hk_rest in
  in_bounds d →
  unread d = ExtensionMessage.session_bind_body host_key_ session_id_ [] fwd →
  Z.of_nat (length host_key_) < 2 ^ 32 →
  Z.of_nat (length session_id_) < 2 ^ 32 →
  KeyFactory.createPubKey kf key_type host_key_ = Ok pubkey →
  ∃ d', OpenSSHSessionBind_deserialize kf d
        = Ok (OpenSSHSessionBind host_key_ session_id_ []
                (negb (bool_decide (fwd = x00))), d').
Proof.
  intros host_key_ Hb Hu Hhk Hsid Hpub.
  unfold ExtensionMessage.session_bind_body in Hu.
  destruct (reads_blob d host_key_ _ Hb Hu Hhk) as (d1 & Heq1 & _ & Hb1 & Hu1).
  destruct (reads_blob d1 session_id_ _ Hb1 Hu1 Hsid) as (d2 & Heq2 & _ & Hb2 & Hu2).
  destruct (reads_blob d2 [] _ Hb2 Hu2) as (d3 & Heq3 & _ & Hb3 & Hu3);
    [cbn [length]; lia|].
  destruct (reads_byte d3 fwd [] Hb3 Hu3) as (d4 & Heq4 & _).
  assert (Hlen_hk : Z.of_nat (String.length key_type) < 2 ^ 32
                    ∧ Z.of_nat (length key_body) < 2 ^ 32).
  { subst host_key_. unfold string_bytes, blob_bytes in Hhk.
    rewrite !length_app, length_list_byte_of_string in Hhk. lia. }
  exists d4. unfold OpenSSHSessionBind_deserialize.
  rewrite (Deser_bind_Ok _ _ _ _ _ Heq1), (Deser_bind_Ok _ _ _ _ _ Heq2),
    (Deser_bind_Ok _ _ _ _ _ Heq3), (Deser_bind_Ok _ _ _ _ _ Heq4).
  assert (Hhk_parse :
            parse (key_type0 ← readString; blob_key ← readBlob; mret key_type0) host_key_
            = Ok key_type).
  { apply (parse_string_blob (λ a _, a)); tauto. }
  unfold mbind at 1. unfold Deser_bind at 1. unfold Deserializer.lift at 1.
  rewrite Hhk_parse. cbn [mbind result_bind].
  unfold mbind at 1. unfold Deser_bind at 1. unfold Deserializer.lift at 1.
  rewrite Hpub. cbn [mbind result_bind].
  rewrite bool_decide_eq_false_2 by (intros Hne; now apply Hne).
  reflexivity.
Qed.

End SessionBind.

Section WithEnvironment.
Context `{KeyProvider} `{LockProvider} `{!Embedder}.
Context (kf : KeyFactory.t) (ef : ExtensionFactory).

(** A session-bind request that parses goes to the embedder first:
    what it consumes is not bound, what it leaves to the session is, and
    what it throws at poisons the session. *)
Lemma processReal_session_bind
    (now now' outer_length : Z) (body hk sid sig : bytes) (fwd : bool) (w : World) :
  0 <= outer_length < 2 ^ 32 →
  KeyManager.isLocked (km w) = false →
  ExtensionMessage.of_message ef kf
    (Message.mk SSH_AGENTC_EXTENSION
       (ExtensionMessage.frame outer_length "session-bind@openssh.com" body))
  = Ok (ExtensionMessage.mk "session-bind@openssh.com"
          (Some (OpenSSHSessionBind hk sid sig fwd))) →
  processReal kf ef now now'
    (ExtensionMessage.frame outer_length "session-bind@openssh.com" body) w
  = match processExtensionMessage
            (ExtensionMessage.mk "session-bind@openssh.com"
               (Some (OpenSSHSessionBind hk sid sig fwd))) with
    | Ok true => (Ok true, replied success_frame w)
    | Ok false => (Ok true, replied success_frame (bound (mkBinding hk sid fwd) w))
    | Throw e => (Ok false, replied failure_frame (poisoned w))
    | Stop why => (Stop why, w)
    end.
Proof.
  intros Hl Hlocked Hparse.
  rewrite (processReal_extension kf ef now now' _ _ w
             (of_bytes_frame outer_length _ body Hl) eq_refl Hlocked).
  unfold processExtension. rewrite try_catch_eq. unfold processExtension_try.
  rewrite (M_bind_lift_Ok _ _ _ _ Hparse).
  destruct (processExtensionMessage _) as [[|]|e|why] eqn:Hemb.
  - rewrite (M_bind_lift_Ok (Ok true) _ _ true eq_refl).
    destruct w as [k s]. destruct s. reflexivity.
  - rewrite (M_bind_lift_Ok (Ok false) _ _ false eq_refl).
    cbn [ExtensionMessage.extensionName ExtensionMessage.m_extension_name
         ExtensionMessage.extension ExtensionMessage.m_extension].
    rewrite decide_False by (intros Hne; now apply Hne).
    destruct w as [k s]. destruct s. reflexivity.
  - rewrite (M_bind_lift_Throw (Throw e) _ _ e eq_refl).
    destruct w as [k s]. destruct s. reflexivity.
  - reflexivity.
Qed.

(** X19. On an unlocked agent with session-bind registered, a
    session-bind request whose host key is of a registered type and
    whose signature that key verifies over the session id goes to the
    embedder's [processExtensionMessage] first. When the embedder leaves
    it to the session, it is answered with SUCCESS and the session gains
    the binding (host key, session id, forwarded flag) at the end of its
    list, and counts as forwarded from then on if the binding is; a
    [binding_failed] flag that is set stays set. When the embedder
    consumes it, it is answered with SUCCESS and nothing is bound. When
    the embedder throws, it is answered with FAILURE, the flag is set
    and the bindings are gone. *)
Theorem session_bind_signed_is_bound
    (now now' outer_length : Z) (fwd : byte)
    (key_type : string) (key_body hk_rest : bytes) (session_id_ : bytes)
    (sig_type : string) (sig_body sig_rest : bytes) (pubkey : PubKeyBase) (w : World) :
  let host_key_ := string_bytes key_type ++ blob_bytes key_body ++ hk_rest in
  let signature := string_bytes sig_type ++ blob_bytes sig_body ++ sig_rest in
  let forwarded_ := negb (bool_decide (fwd = x00)) in
  0 <= outer_length < 2 ^ 32 →
  Z.of_nat (length host_key_) < 2 ^ 32 →
  Z.of_nat (length session_id_) < 2 ^ 32 →
  Z.of_nat (length signature) < 2 ^ 32 →
  m_message_extension_creators ef !! "session-bind@openssh.com"
  = Some (Some OpenSSHSessionBind_deserialize) →
  KeyFactory.createPubKey kf key_type host_key_ = Ok pubkey →
  verify pubkey session_id_ signature = Ok true →
  KeyManager.isLocked (km w) = false →
  processReal kf ef now now'
    (ExtensionMessage.frame outer_length "session-bind@openssh.com"
       (ExtensionMessage.session_bind_body host_key_ session_id_ signature fwd)) w
  = match processExtensionMessage
            (ExtensionMessage.mk "session-bind@openssh.com"
               (Some (OpenSSHSessionBind host_key_ session_id_ signature forwarded_))) with
    | Ok true => (Ok true, replied success_frame w)
    | Ok false =>
      (Ok true,
       replied success_frame (bound (mkBinding host_key_ session_id_ forwarded_) w))
    | Throw e => (Ok false, replied failure_frame (poisoned w))
    | Stop why => (Stop why, w)
    end.
Proof.
  intros host_key_ signature forwarded_ Hl Hhk Hsid Hsig Hreg Hpub Hverify Hlocked.
  apply (processReal_session_bind now now' outer_length _ host_key_ session_id_
           signature forwarded_ w Hl Hlocked).
  destruct (of_message_frame kf ef outer_length "session-bind@openssh.com"
              (ExtensionMessage.session_bind_body host_key_ session_id_ signature fwd)
              Hl) as (d & Hb & Hu & Heq); [reflexivity|].
  rewrite Heq. unfold createMessageExtension. rewrite Hreg.
  destruct (OpenSSHSessionBind_deserialize_signed kf d fwd key_type key_body hk_rest
              session_id_ sig_type sig_body sig_rest pubkey true
              Hb Hu Hhk Hsid Hsig Hpub Hverify) as (d' & ->).
  reflexivity.
Qed.

(** X20. A session-bind request with an empty signature is treated
    like one whose signature was verified: on an unlocked agent with
    session-bind registered, the host key must parse and be of a
    registered type, but no signature is checked, whatever the key would
    have verified. The request goes to the embedder's
    [processExtensionMessage] and is bound and answered with SUCCESS
    when the embedder leaves it to the session (answered with SUCCESS
    and not bound when the embedder consumes it; answered with FAILURE,
    the session poisoned, when the embedder throws). *)
Theorem session_bind_unsigned_is_bound
    (now now' outer_length : Z) (fwd : byte)
    (key_type : string) (key_body hk_rest : bytes) (session_id_ : bytes)
    (pubkey : PubKeyBase) (w : World) :
  let host_key_ := string_bytes key_type ++ blob_bytes key_body ++ hk_rest in
  let forwarded_ := negb (bool_decide (fwd = x00)) in
  0 <= outer_length < 2 ^ 32 →
  Z.of_nat (length host_key_) < 2 ^ 32 →
  Z.of_nat (length session_id_) < 2 ^ 32 →
  m_message_extension_creators ef !! "session-bind@openssh.com"
  = Some (Some OpenSSHSessionBind_deserialize) →
  KeyFactory.createPubKey kf key_type host_key_ = Ok pubkey →
  KeyManager.isLocked (km w) = false →
  processReal kf ef now now'
    (ExtensionMessage.frame outer_length "session-bind@openssh.com"
       (ExtensionMessage.session_bind_body host_key_ session_id_ [] fwd)) w
  = match processExtensionMessage
            (ExtensionMessage.mk "session-bind@openssh.com"
               (Some (OpenSSHSessionBind host_key_ session_id_ [] forwarded_))) with
    | Ok true => (Ok true, replied success_frame w)
    | Ok false =>
      (Ok true,
       replied success_frame (bound (mkBinding host_key_ session_id_ forwarded_) w))
    | Throw e => (Ok false, replied failure_frame (poisoned w))
    | Stop why => (Stop why, w)
    end.
Proof.
  intros host_key_ forwarded_ Hl Hhk Hsid Hreg Hpub Hlocked.
  apply (processReal_session_bind now now' outer_length _ host_key_ session_id_
           [] forwarded_ w Hl Hlocked).
  destruct (of_message_frame kf ef outer_length "session-bind@openssh.com"
              (ExtensionMessage.session_bind_body host_key_ session_id_ [] fwd)
              Hl) as (d & Hb & Hu & Heq); [reflexivity|].
  rewrite Heq. unfold createMessageExtension. rewrite Hreg.
  destruct (OpenSSHSessionBind_deserialize_unsigned kf d fwd key_type key_body hk_rest
              session_id_ pubkey Hb Hu Hhk Hsid Hpub) as (d' & ->).
  reflexivity.
Qed.

(** X21. A request of a type that [processReal] has no branch for (a
    smartcard request, a reply type, ...) is answered with FAILURE and
    changes nothing else. *)
Theorem unsupported_type_replies_failure
    (now now' : Z) (data_ : bytes) (msg : Message.t) (w : World) :
  Message.of_bytes data_ = Ok msg →
  Message.type msg ∉ [SSH_AGENTC_ADD_IDENTITY; SSH_AGENTC_ADD_IDENTITY_CONSTRAINED;
                      SSH_AGENTC_REMOVE_IDENTITY; SSH_AGENTC_REMOVE_ALL_IDENTITIES;
                      SSH_AGENTC_SIGN_REQUEST; SSH_AGENTC_REQUEST_IDENTITIES;
                      SSH_AGENTC_EXTENSION; SSH_AGENTC_LOCK; SSH_AGENTC_UNLOCK;
                      SSH_AGENTC_REMOVE_ALL_RSA_IDENTITIES] →
  processReal kf ef now now' data_ w = (Ok false, replied failure_frame w).
Proof.
  intros Hmsg Hty. unfold processReal.
  rewrite (M_bind_lift_Ok _ _ _ _ Hmsg), M_bind_get.
  rewrite !not_elem_of_cons in Hty.
  destruct Hty as (Ha & Hb & Hc & Hd & He & Hf & Hg & Hh & Hi & Hj & _).
  rewrite (bool_decide_eq_false_2 _ Hi), (bool_decide_eq_false_2 _ Ha),
    (bool_decide_eq_false_2 _ Hb).
  cbn [negb orb].
  destruct (KeyManager.isLocked (km w)); cbn [andb]; [reflexivity|].
  rewrite !decide_False by assumption. reflexivity.
Qed.

End WithEnvironment.

Lemma session_bind_signed_is_bound_witness :
  @processReal Examples.test_provider Examples.test_lock_provider Examples.dummy_session
    Examples.accepting_factory initializeExtensions 0 0
    Examples.bad_session_bind Examples.bound_world
  = (Ok true,
     replied success_frame
       (bound (mkBinding Examples.test_host_key [x01] false) Examples.bound_world)).
Proof.
  refine (@session_bind_signed_is_bound Examples.test_provider Examples.test_lock_provider
            Examples.dummy_session Examples.accepting_factory initializeExtensions
            0 0 0 x00 "test" [] [] [x01] "test" [x00] []
            (mkPub Examples.test_host_key "test" (λ _ _, Ok true)) Examples.bound_world
            _ _ _ _ _ _ _ _).
  - lia.
  - reflexivity.
  - reflexivity.
  - reflexivity.
  - vm_compute. reflexivity.
  - vm_compute. reflexivity.
  - reflexivity.
  - reflexivity.
Defined.

Lemma session_bind_unsigned_is_bound_witness :
  @processReal Examples.test_provider Examples.test_lock_provider Examples.dummy_session
    Examples.rejecting_factory initializeExtensions 0 0
    (ExtensionMessage.frame 0 "session-bind@openssh.com"
       (ExtensionMessage.session_bind_body Examples.test_host_key [x01] [] x01))
    Examples.bound_world
  = (Ok true,
     replied success_frame
       (bound (mkBinding Examples.test_host_key [x01] true) Examples.bound_world)).
Proof.
  refine (@session_bind_unsigned_is_bound Examples.test_provider
            Examples.test_lock_provider Examples.dummy_session
            Examples.rejecting_factory initializeExtensions
            0 0 0 x01 "test" [] [] [x01]
            (mkPub Examples.test_host_key "test" (λ _ _, Ok false)) Examples.bound_world
            _ _ _ _ _ _).
  - lia.
  - reflexivity.
  - reflexivity.
  - vm_compute. reflexivity.
  - vm_compute. reflexivity.
  - reflexivity.
Defined.

(** A request to add a smartcard key (type 20). *)
Lemma unsupported_type_replies_failure_witness :
  @processReal Examples.test_provider Examples.test_lock_provider Examples.dummy_session
    KeyFactory.empty initializeExtensions 0 0
    [x00; x00; x00; x01; x14] Examples.bound_world
  = (Ok false, replied failure_frame Examples.bound_world).
Proof.
  refine (@unsupported_type_replies_failure Examples.test_provider
            Examples.test_lock_provider Examples.dummy_session KeyFactory.empty
            initializeExtensions 0 0 [x00; x00; x00; x01; x14]
            (Message.mk x14 [x00; x00; x00; x01; x14]) Examples.bound_world _ _).
  - reflexivity.
  - cbn [Message.type Message.m_type]. rewrite !not_elem_of_cons.
    repeat split; try discriminate. apply not_elem_of_nil.
Defined.

(** The request "query", which the embedder registered and does not
    consume, on a session that is bound to hostA. *)
Lemma registered_unconsumed_extension_leaves_session_witness :
  @processReal Examples.test_provider Examples.test_lock_provider Examples.dummy_session
    KeyFactory.empty Examples.query_factory 0 0
    (ExtensionMessage.frame 10 "query" []) Examples.bound_world
  = (Ok false, replied failure_frame Examples.bound_world).
Proof.
  refine (@registered_unconsumed_extension_leaves_session Examples.test_provider
            Examples.test_lock_provider Examples.dummy_session KeyFactory.empty
            Examples.query_factory 0 0 10 "query" [] Examples.bound_world
            (ExtensionMessage.mk "query" (Some (EmbedderExtension "query" [])))
            _ _ _ _ _).
  - lia.
  - reflexivity.
  - vm_compute. reflexivity.
  - reflexivity.
  - discriminate.
Defined.

End SessionFacts.

(** ** Session: signing, listing, removing *)

Module RequestFacts.
Import Serializer Deserializer MonadFacts CodecFacts ExtensionFacts GateFacts WireFacts
  ThreadFacts.
Import RestrictDestination SessionState KeyBase Extension Message Session.

Section WithEnvironment.
Context `{KeyProvider} `{LockProvider} `{!Embedder}.
Context (kf : KeyFactory.t) (ef : ExtensionFactory).

(** X23. A sign request, as [SignRequestMessage::serialize] encodes
    it, for a key without destination constraints that signs the data,
    on an unlocked agent and a session that waits for no confirmation
    and has no sign thread yet. Once the thread of the request has run:
    when no confirmation is asked for, or the user confirms, the session
    has sent the SIGN_RESPONSE frame of the signature and the observers
    were told that the key was used; when the user declines, it has sent
    FAILURE and they were told that the key was declined. Either way
    the match info is cleared, and [m_confirmation_thread] is left
    joinable unless [m_async_operation] is off; nothing else changes. *)
Theorem sign_request_unconstrained_key
    (now now' : Z) (m : SignRequestMessage.t) (frame : bytes) (key_ : KeyBase.t)
    (signature response : bytes) (w : World) :
  0 <= SignRequestMessage.m_flags m < 2 ^ 32 →
  SignRequestMessage.serialize m = Ok frame →
  KeyManager.isLocked (km w) = false →
  m_waiting_for_confirmation (self w) = false →
  m_confirmation_thread (self w) = not_a_thread →
  KeyManager.getKey (SignRequestMessage.m_key_blob m) (km w) = Some key_ →
  destConstraints key_ = [] →
  sign key_ (SignRequestMessage.m_data_sign m) (SignRequestMessage.m_flags m)
  = Ok signature →
  SignResponseMessage.serialize signature = Ok response →
  let declined := (confirmRequired key_ || requiresConfirmation key_)
                  && negb (confirmRequest key_) in
  (r ← processReal kf ef now now' frame; _ ← run_confirmation_thread; mret r) w
  = (Ok true,
     mkWorld
       (KeyManager.emit (if declined then KeyManager.onKeyDeclined key_
                         else KeyManager.onKeyUsed key_) (km w))
       (set_confirmation_thread
          (if m_async_operation (self w) then finished else not_a_thread)
          (set_outbox (outbox (self w) ++ [if declined then failure_frame else response])
             (set_match_info (mkMatchInfo "" "" "") (self w))))).
Proof.
  intros Hflags Hser Hlocked Hwait Hthread Hkey Hc Hsign Hresp declined.
  destruct (sign_request_frame m frame Hflags Hser) as (_ & Hmsg & Hparse).
  set (msg := Message.mk SSH_AGENTC_SIGN_REQUEST frame) in *.
  set (w1 := mkWorld (km w)
               (set_waiting_for_confirmation true
                  (set_confirmation_thread (started frame) (self w)))).
  assert (Hrun : processSignRequest msg w1
                 = (Ok (negb declined),
                    mkWorld
                      (KeyManager.emit (if declined then KeyManager.onKeyDeclined key_
                                        else KeyManager.onKeyUsed key_) (km w))
                      (set_outbox
                         (outbox (self w)
                          ++ [if declined then failure_frame else response])
                         (set_match_info (mkMatchInfo "" "" "") (self w1))))).
  { unfold processSignRequest. rewrite try_catch_eq. unfold processSignRequest_try.
    rewrite (M_bind_lift_Ok _ _ _ _ Hparse), M_bind_get.
    change (km w1) with (km w). rewrite Hkey.
    rewrite decide_False by (intros Hne; now apply Hne).
    rewrite M_bind_ret. fold declined.
    destruct declined.
    - destruct w as [k s]. destruct s. reflexivity.
    - rewrite (M_bind_lift_Ok _ _ _ _ Hsign).
      rewrite M_bind_eq. unfold on_km at 1, modify at 1. cbn [fst snd].
      rewrite M_bind_eq. unfold modify_self at 1, modify at 1.
      rewrite (M_bind_lift_Ok _ _ _ _ Hresp).
      destruct w as [k s]. destruct s. reflexivity. }
  rewrite (sign_request_settles kf ef now now' frame msg w _ _
             Hmsg eq_refl Hlocked Hwait Hthread Hrun).
  destruct w as [k s]. destruct s. cbn in Hwait. subst. reflexivity.
Qed.

(** X24. A sign request, as [SignRequestMessage::serialize] encodes
    it, for a blob that no key of the agent carries, on an unlocked
    agent and a session that waits for no confirmation and has no sign
    thread yet: once the thread of the request has run, the session has
    sent FAILURE. No observer is told, and nothing else changes but
    [m_confirmation_thread], which is left joinable unless
    [m_async_operation] is off. *)
Theorem sign_request_unknown_key
    (now now' : Z) (m : SignRequestMessage.t) (frame : bytes) (w : World) :
  0 <= SignRequestMessage.m_flags m < 2 ^ 32 →
  SignRequestMessage.serialize m = Ok frame →
  KeyManager.isLocked (km w) = false →
  m_waiting_for_confirmation (self w) = false →
  m_confirmation_thread (self w) = not_a_thread →
  KeyManager.getKey (SignRequestMessage.m_key_blob m) (km w) = None →
  (r ← processReal kf ef now now' frame; _ ← run_confirmation_thread; mret r) w
  = (Ok true,
     with_confirmation_thread
       (if m_async_operation (self w) then finished else not_a_thread)
       (replied failure_frame w)).
Proof.
  intros Hflags Hser Hlocked Hwait Hthread Hkey.
  destruct (sign_request_frame m frame Hflags Hser) as (_ & Hmsg & Hparse).
  set (msg := Message.mk SSH_AGENTC_SIGN_REQUEST frame) in *.
  set (w1 := mkWorld (km w)
               (set_waiting_for_confirmation true
                  (set_confirmation_thread (started frame) (self w)))).
  assert (Hrun : processSignRequest msg w1 = (Ok false, replied failure_frame w1)).
  { unfold processSignRequest. rewrite try_catch_eq. unfold processSignRequest_try.
    rewrite (M_bind_lift_Ok _ _ _ _ Hparse), M_bind_get.
    change (km w1) with (km w). rewrite Hkey. reflexivity. }
  rewrite (sign_request_settles kf ef now now' frame msg w _ _
             Hmsg eq_refl Hlocked Hwait Hthread Hrun).
  destruct w as [k s]. destruct s. cbn in Hwait. subst. reflexivity.
Qed.


(** X26. A request for the identities, on an unlocked agent and a
    session that waits for no key selection and has no list thread yet:
    once the thread of the request has run, the session has sent the
    IDENTITIES_ANSWER frame of the keys that [listKeys] shows to this
    session, blob and comment of each, in the order of the key list.
    Nothing else changes but [m_key_selection_thread], which is left
    joinable unless [m_async_operation] is off. *)
Theorem request_identities_replies_list
    (now now' : Z) (data_ : bytes) (msg : Message.t) (response : bytes) (w : World) :
  Message.of_bytes data_ = Ok msg →
  Message.type msg = SSH_AGENTC_REQUEST_IDENTITIES →
  KeyManager.isLocked (km w) = false →
  m_waiting_for_key_selection (self w) = false →
  m_key_selection_thread (self w) = not_a_thread →
  IdentitiesAnswerMessage.serialize
    ((λ item, (KeyManager.item_blob item, KeyManager.item_comment item))
       <$> KeyManager.listKeys (self w) (km w)) = Ok response →
  (r ← processReal kf ef now now' data_; _ ← run_key_selection_thread; mret r) w
  = (Ok true,
     with_key_selection_thread
       (if m_async_operation (self w) then finished else not_a_thread)
       (replied response w)).
Proof.
  intros Hmsg Hty Hlocked Hwait Hthread Hresp.
  set (w1 := mkWorld (km w)
               (set_waiting_for_key_selection true
                  (set_key_selection_thread (started data_) (self w)))).
  assert (Hrun : processRequestIdentities msg w1 = (Ok tt, replied response w1)).
  { unfold processRequestIdentities. rewrite M_bind_get. cbv zeta.
    assert (Hlist : KeyManager.listKeys (self w1) (km w1)
                    = KeyManager.listKeys (self w) (km w)).
    { destruct w as [k s]. destruct s. reflexivity. }
    rewrite Hlist, (M_bind_lift_Ok _ _ _ _ Hresp). reflexivity. }
  rewrite (request_identities_settles kf ef now now' data_ msg w _
             Hmsg Hty Hlocked Hwait Hthread Hrun).
  destruct w as [k s]. destruct s. cbn in Hwait. subst. reflexivity.
Qed.

End WithEnvironment.

Lemma sign_request_unconstrained_key_witness :
  ∃ frame response,
    SignRequestMessage.serialize (SignRequestMessage.mk [x6b; x31] [x01; x02] 0) = Ok frame
    ∧ SignResponseMessage.serialize [x07; x01; x02] = Ok response
    ∧ (r ← @processReal Examples.test_provider Examples.test_lock_provider
             Examples.dummy_session KeyFactory.empty initializeExtensions 0 0 frame;
       _ ← @run_confirmation_thread Examples.test_provider Examples.test_lock_provider
             Examples.dummy_session;
       mret r)
        (mkWorld (KeyManager.set_keys [Examples.plain_key] (KeyManager.init 0))
                 SessionState.fresh)
      = (Ok true,
         mkWorld (KeyManager.emit (KeyManager.onKeyUsed Examples.plain_key)
                    (KeyManager.set_keys [Examples.plain_key] (KeyManager.init 0)))
           (set_confirmation_thread finished
              (set_outbox [response] SessionState.fresh))).
Proof.
  eexists. eexists. split; [vm_compute; reflexivity|]. split; [vm_compute; reflexivity|].
  refine (@sign_request_unconstrained_key Examples.test_provider
            Examples.test_lock_provider Examples.dummy_session KeyFactory.empty
            initializeExtensions 0 0 (SignRequestMessage.mk [x6b; x31] [x01; x02] 0)
            _ Examples.plain_key [x07; x01; x02] _
            (mkWorld (KeyManager.set_keys [Examples.plain_key] (KeyManager.init 0))
                     SessionState.fresh) _ _ _ _ _ _ _ _ _).
  - cbn [SignRequestMessage.m_flags]. lia.
  - vm_compute. reflexivity.
  - reflexivity.
  - reflexivity.
  - reflexivity.
  - vm_compute. reflexivity.
  - reflexivity.
  - reflexivity.
  - vm_compute. reflexivity.
Defined.

Lemma sign_request_unknown_key_witness :
  ∃ frame,
    SignRequestMessage.serialize (SignRequestMessage.mk [x6b; x32] [x01] 0) = Ok frame
    ∧ (r ← @processReal Examples.test_provider Examples.test_lock_provider
             Examples.dummy_session KeyFactory.empty initializeExtensions 0 0 frame;
       _ ← @run_confirmation_thread Examples.test_provider Examples.test_lock_provider
             Examples.dummy_session;
       mret r) Examples.bound_world
      = (Ok true,
         with_confirmation_thread finished (replied failure_frame Examples.bound_world)).
Proof.
  eexists. split; [vm_compute; reflexivity|].
  refine (@sign_request_unknown_key Examples.test_provider
            Examples.test_lock_provider Examples.dummy_session KeyFactory.empty
            initializeExtensions 0 0 (SignRequestMessage.mk [x6b; x32] [x01] 0)
            _ Examples.bound_world _ _ _ _ _ _).
  - cbn [SignRequestMessage.m_flags]. lia.
  - vm_compute. reflexivity.
  - reflexivity.
  - reflexivity.
  - reflexivity.
  - vm_compute. reflexivity.
Defined.


Lemma request_identities_replies_list_witness :
  ∃ response,
    IdentitiesAnswerMessage.serialize [([x6b; x31], "k1")] = Ok response
    ∧ (r ← @processReal Examples.test_provider Examples.test_lock_provider
             Examples.dummy_session KeyFactory.empty initializeExtensions 0 0
             [x00; x00; x00; x01; x0b];
       _ ← @run_key_selection_thread Examples.test_provider Examples.test_lock_provider;
       mret r)
        (mkWorld (KeyManager.set_keys [Examples.plain_key] (KeyManager.init 0))
                 SessionState.fresh)
      = (Ok true,
         with_key_selection_thread finished
           (replied response
              (mkWorld (KeyManager.set_keys [Examples.plain_key] (KeyManager.init 0))
                       SessionState.fresh))).
Proof.
  eexists. split; [vm_compute; reflexivity|].
  refine (@request_identities_replies_list Examples.test_provider
            Examples.test_lock_provider Examples.dummy_session KeyFactory.empty
            initializeExtensions 0 0 [x00; x00; x00; x01; x0b]
            (Message.mk x0b [x00; x00; x00; x01; x0b]) _
            (mkWorld (KeyManager.set_keys [Examples.plain_key] (KeyManager.init 0))
                     SessionState.fresh) _ _ _ _ _ _).
  - reflexivity.
  - reflexivity.
  - reflexivity.
  - reflexivity.
  - reflexivity.
  - vm_compute. reflexivity.
Defined.

End RequestFacts.

(** ** Keys: lifetime and destination constraints *)

Module KeyFacts.
Import RestrictDestination SessionState KeyBase LifetimeFacts.

Section WithProvider.
Context `{KeyProvider}.

(** X27. [expireInSeconds] and [expired] agree for a lifetime that an
    [int] can hold: the key is expired exactly when no second is left.
    (A longer lifetime makes [expireInSeconds] wrap around.) *)
Theorem expireInSeconds_agrees_with_expired (now : Z) (k : KeyBase.t) :
  0 < m_lifetime_seconds k <= INT_MAX →
  0 <= to_seconds (now - m_added_time k) <= INT_MAX →
  expireInSeconds now k = m_lifetime_seconds k - to_seconds (now - m_added_time k)
  ∧ (expired now k = true ↔ expireInSeconds now k <= 0).
Proof.
  intros Hlife Helapsed. unfold expireInSeconds, expired.
  rewrite !decide_False by lia.
  assert (Hint : to_int (m_lifetime_seconds k - to_seconds (now - m_added_time k))
                 = m_lifetime_seconds k - to_seconds (now - m_added_time k)).
  { unfold to_int, INT_MAX in *. rewrite Z.mod_small by lia. lia. }
  rewrite Hint. split; [reflexivity|].
  rewrite bool_decide_eq_true. lia.
Qed.

(** The verdict of [matches] does not depend on the caller's
    [MatchInfo], and a refusal leaves it alone. *)
Lemma matches_verdict (c : OpenSSHSDestinationConstraint)
    (from_key to_key : bytes) (user_ : string) (mi : MatchInfoOpt) :
  (matches c from_key to_key user_ mi).1 = (matches c from_key to_key user_ None).1
  ∧ ((matches c from_key to_key user_ mi).1 = false →
     (matches c from_key to_key user_ mi).2 = mi).
Proof.
  unfold matches.
  destruct (if decide (from_key = []) then _ else _); [now split|].
  destruct (_ && _); [now split|]. destruct (_ && _); [now split|].
  split; [reflexivity|discriminate].
Qed.

(** X28. [permittedByConstraints] permits exactly when one of the key's
    constraints matches; a refusal leaves the caller's [MatchInfo] as it
    was. A key without constraints is refused by this function. *)
Theorem permittedByConstraints_iff (k : KeyBase.t)
    (from_key to_key : bytes) (user_ : string) (mi : MatchInfoOpt) :
  ((permittedByConstraints k from_key to_key user_ mi).1 = true
   ↔ ∃ c, c ∈ destConstraints k ∧ (matches c from_key to_key user_ None).1 = true)
  ∧ ((permittedByConstraints k from_key to_key user_ mi).1 = false →
     (permittedByConstraints k from_key to_key user_ mi).2 = mi).
Proof.
  unfold permittedByConstraints, destConstraints.
  induction (m_dest_constraints k) as [|c cs IH].
  - cbn. split; [|reflexivity]. split; [discriminate|].
    intros (c & Hin & _). now apply elem_of_nil in Hin.
  - cbn [permittedByConstraints_loop]. cbv zeta.
    destruct (matches_verdict c from_key to_key user_ mi) as (Hv & Hmi).
    destruct (matches c from_key to_key user_ mi).1 eqn:Hm.
    + cbn [fst snd]. split; [|discriminate]. split; [|reflexivity].
      intros _. exists c. split; [now left|congruence].
    + rewrite (Hmi eq_refl). destruct IH as (IH1 & IH2). split; [|exact IH2].
      rewrite IH1. split.
      * intros (c' & Hin & Hc'). exists c'. split; [now right|exact Hc'].
      * intros (c' & Hin & Hc'). apply elem_of_cons in Hin as [->|Hin];
          [congruence|]. now exists c'.
Qed.

(** X29. On a session with one binding that is not forwarded and has a
    host key (a direct connection to a host), a key with destination
    constraints is refused when the session's [binding_failed] flag is
    set, and is otherwise permitted exactly as its constraints permit
    the way from the origin to that host for the user. *)
Theorem permitted_direct_connection (k : KeyBase.t) (session : SessionState.t)
    (user_ : string) (b : SessionBinding) (mi : MatchInfoOpt) :
  destConstraints k ≠ [] →
  sessionBindings session = [b] →
  host_key b ≠ [] →
  forwarded b = false →
  permitted k session user_ mi
  = if bindingFailed session then (false, mi)
    else permittedByConstraints k [] (host_key b) user_ mi.
Proof.
  intros Hc Hb Hkey Hfwd. unfold permitted, destConstraints in *.
  rewrite decide_False by assumption.
  destruct (bindingFailed session); [reflexivity|]. rewrite Hb.
  rewrite decide_False by discriminate.
  cbn [permitted_loop last]. rewrite decide_False by assumption.
  rewrite Hfwd. cbn [andb negb bool_decide]. cbv zeta.
  rewrite bool_decide_eq_true_2 by reflexivity. cbn [andb negb].
  destruct (permittedByConstraints k [] (host_key b) user_ mi) as [[|] mi'];
    reflexivity.
Qed.

End WithProvider.

Lemma expireInSeconds_agrees_with_expired_witness :
  @expireInSeconds Examples.test_provider 16000000000
    (setLifetime 10 5000000000 Examples.plain_key) = 10 - 11
  ∧ (@expired Examples.test_provider 16000000000
       (setLifetime 10 5000000000 Examples.plain_key) = true
     ↔ @expireInSeconds Examples.test_provider 16000000000
         (setLifetime 10 5000000000 Examples.plain_key) <= 0).
Proof.
  apply (@expireInSeconds_agrees_with_expired Examples.test_provider 16000000000
           (setLifetime 10 5000000000 Examples.plain_key)).
  - vm_compute. split; [reflexivity|discriminate].
  - vm_compute. split; discriminate.
Defined.

Lemma permitted_direct_connection_witness :
  @permitted Examples.test_provider Examples.restricted_key
    (Examples.session_with [mkBinding Examples.host_A [x01] false] false) "alice" None
  = @permittedByConstraints Examples.test_provider Examples.restricted_key
      [] Examples.host_A "alice" None.
Proof.
  apply (@permitted_direct_connection Examples.test_provider Examples.restricted_key
           (Examples.session_with [mkBinding Examples.host_A [x01] false] false)
           "alice" (mkBinding Examples.host_A [x01] false) None).
  - discriminate.
  - reflexivity.
  - discriminate.
  - reflexivity.
Defined.

End KeyFacts.

(** ** ECDSA keys: the public blob *)

Module ECDSAFacts.
Import Serializer Deserializer MonadFacts CodecFacts ReaderFacts WireFacts.
Import KeyBase ECDSAKey.

Section WithBotan.
Context `{Botan}.

(** The type name that [extractPub] derives from a curve the adapter
    knows is "ecdsa-sha2-" followed by the curve. *)
Lemma curve_type_name (curve_name : string) (params : string * string * nat) :
  curve_params curve_name = Some params →
  (if decide (curve_name = "nistp256") then Ok edcsa_sha2_nistp256_type_name
   else if decide (curve_name = "nistp384") then Ok edcsa_sha2_nistp384_type_name
   else if decide (curve_name = "nistp521") then Ok edcsa_sha2_nistp521_type_name
   else Throw (runtime_error
                 ("ECDSABase::extractPub: unknown curve name: " +:+ curve_name)))
  = Ok ("ecdsa-sha2-" +:+ curve_name).
Proof.
  unfold curve_params. repeat case_decide; subst; try reflexivity. discriminate.
Qed.

(** X30. For an ECDSA key that the constructor accepts under the type
    name that goes with its curve ("ecdsa-sha2-" and the curve name),
    [extractPub] gives the public blob of the key: the blob under which
    [KeyManager::addKey] looks for an old instance is the blob of the
    key it adds. *)
Theorem ECDSAKey_extractPub_agrees (blob : bytes) (comment_ : string)
    (curve_name : string) (k : KeyBase.t) :
  parse readString blob = Ok curve_name →
  ECDSAKey blob comment_ ("ecdsa-sha2-" +:+ curve_name) = Ok k →
  extractPub blob = Ok (pubBlob k).
Proof.
  intros Hcurve Hkey. unfold ECDSAKey in Hkey.
  apply result_bind_Ok in Hkey as ([[curve pub_data] priv] & Hfields & Hkey).
  unfold parse in Hfields, Hcurve.
  apply result_bind_Ok in Hfields as ([fields d3] & Hfields & [= Hfst]).
  cbn [fst] in Hfst. subst fields.
  apply Deser_bind_inv in Hfields as (curve' & d1 & H1 & Hfields).
  apply Deser_bind_inv in Hfields as (pub' & d2 & H2 & Hfields).
  apply Deser_bind_inv in Hfields as (priv' & d3' & H3 & Hret).
  injection Hret as -> -> -> _.
  rewrite H1 in Hcurve. cbn in Hcurve. injection Hcurve as ->.
  destruct (curve_params curve_name) as [[[botan_curve algorithm] scalar_size]|] eqn:Hparams;
    [|discriminate].
  destruct (EC_Scalar_deserialize botan_curve _) as [scalar|]; [|discriminate].
  apply result_bind_Ok in Hkey as (secure_data & Hbuild & Hkey).
  apply result_bind_Ok in Hkey as (pubkey & Hpub & [= <-]).
  assert (Hblob : m_pub_blob pubkey = secure_data).
  { unfold ECDSAPub in Hpub.
    apply result_bind_Ok in Hpub as ([[type curve] pub] & _ & Hpub).
    destruct (curve_params curve) as [[[bc alg] sz]|]; [|discriminate].
    destruct (EC_AffinePoint_valid bc pub); [|discriminate].
    now injection Hpub as <-. }
  unfold pubBlob. cbn [m_pubkey]. rewrite Hblob.
  unfold extractPub, parse.
  rewrite (Deser_bind_Ok _ _ _ _ _ H1), (Deser_bind_Ok _ _ _ _ _ H2).
  cbn [mbind result_bind mret Deser_ret fst].
  rewrite (curve_type_name _ _ Hparams). cbn [mbind result_bind].
  exact Hbuild.
Qed.

End WithBotan.

Lemma ECDSAKey_extractPub_agrees_witness :
  ∃ k,
    @ECDSAKey Examples.test_provider Examples.test_botan
      Examples.nistp384_key_blob "a" "ecdsa-sha2-nistp384" = Ok k
    ∧ extractPub Examples.nistp384_key_blob = Ok (pubBlob k).
Proof.
  eexists. split; [vm_compute; reflexivity|].
  refine (@ECDSAKey_extractPub_agrees Examples.test_provider Examples.test_botan
            Examples.nistp384_key_blob "a" "nistp384" _ _ _).
  - vm_compute. reflexivity.
  - vm_compute. reflexivity.
Defined.

End ECDSAFacts.
